(** * ccEvo: a shallow embedding of the decision-and-gating pipeline

    The JavaScript sources are embedded module by module (one Rocq [Module]
    per source file).  JavaScript numbers that the code computes with are
    modelled as exact rationals ([Q]) or integers ([Z]); objects used as
    dictionaries are [gmap]s of their own entries; the node dictionary of
    the capability tree, the risk map of createMutation and the gene
    dictionary of the scorer are read together with the names they inherit
    from [Object.prototype]; exceptions are an explicit [completion] value.
    Library primitives whose behaviour is outside the repository (the JSON
    parser, the regular-expression engine, [Math.log2], [Date] parsing, the
    clock) are section variables, so every theorem holds for each of their
    possible behaviours.  Strings are byte strings (UTF-8); case folding
    and white space are treated on the ASCII range.

    The first part of the file holds the embedding, the second part the
    properties, source file by source file. *)

From Stdlib Require Import ZArith QArith Qround Qminmax Lqa List Ascii Lia Bool Sorted Permutation.
From Stdlib Require String.
From stdpp Require Import gmap strings pretty.

Open Scope Z_scope.
Set Warnings "-register-all".

(** ** JavaScript runtime helpers *)

Module JS.

(** The result of running a function body: a returned value or a thrown
    error (carrying the error's name).  [Outside] is a run the embedding
    does not follow to its end: a lookup in a plain object answered with a
    member of [Object.prototype] where the code expects one of the
    object's own entries, and the code went on to read or write the
    properties of that member. *)
Inductive completion (A : Type) : Type :=
| Returned (a : A)
| Thrown (e : string)
| Outside.
Arguments Returned {A} a.
Arguments Thrown {A} e.
Arguments Outside {A}.

Definition bind {A B : Type} (c : completion A) (k : A -> completion B) : completion B :=
  match c with
  | Returned a => k a
  | Thrown e => Thrown e
  | Outside => Outside
  end.

(** [a > b] on numbers. *)
Definition Qgt_bool (a b : Q) : bool := negb (Qle_bool a b).

(** [a < b] on numbers. *)
Definition Qlt_bool (a b : Q) : bool := negb (Qle_bool b a).

(** [String.prototype.startsWith]. *)
Definition startsWith (s p : string) : bool := String.prefix p s.

(** [String.prototype.includes]: [needle] occurs somewhere in [hay]. *)
Fixpoint includes (hay needle : string) : bool :=
  String.prefix needle hay ||
  match hay with
  | EmptyString => false
  | String _ rest => includes rest needle
  end.

(** [String.prototype.endsWith]. *)
Definition endsWith (s suf : string) : bool :=
  (String.length suf <=? String.length s)%nat &&
  String.eqb (String.substring (String.length s - String.length suf) (String.length suf) s) suf.

(** White space as [trim] and the regular expression class [\s] see it, on
    the ASCII range: TAB, LF, VT, FF, CR and SPACE. *)
Definition is_space (c : ascii) : bool :=
  let n := nat_of_ascii c in
  ((9 <=? n)%nat && (n <=? 13)%nat) || (n =? 32)%nat.

Fixpoint trimStart (s : string) : string :=
  match s with
  | EmptyString => EmptyString
  | String c rest => if is_space c then trimStart rest else s
  end.

Fixpoint trimEnd (s : string) : string :=
  match s with
  | EmptyString => EmptyString
  | String c rest =>
      let rest' := trimEnd rest in
      if is_space c && String.eqb rest' EmptyString then EmptyString
      else String c rest'
  end.

(** [String.prototype.trim]. *)
Definition trim (s : string) : string := trimEnd (trimStart s).

(** [s.split(sep)] for a one-character class [sep]: the pieces between
    separator characters, empty pieces included. *)
Fixpoint splitOn (sep : ascii -> bool) (s : string) : list string :=
  match s with
  | EmptyString => [EmptyString]
  | String c rest =>
      let pieces := splitOn sep rest in
      if sep c then EmptyString :: pieces
      else match pieces with
           | p :: ps => String c p :: ps
           | [] => [String c EmptyString]
           end
  end.

(** [.filter(Boolean)] on an array of strings: the empty string is falsy. *)
Definition filterNonEmpty (l : list string) : list string :=
  List.filter (fun s => negb (String.eqb s EmptyString)) l.

(** [String.prototype.toLowerCase] on the ASCII letters. *)
Definition lower_ascii (c : ascii) : ascii :=
  let n := nat_of_ascii c in
  if (65 <=? n)%nat && (n <=? 90)%nat then ascii_of_nat (n + 32) else c.

Fixpoint toLowerCase (s : string) : string :=
  match s with
  | EmptyString => EmptyString
  | String c rest => String (lower_ascii c) (toLowerCase rest)
  end.

(** A JavaScript [Set] of strings: insertion-ordered, no duplicates. *)
Definition Set_has (x : string) (s : list string) : bool :=
  existsb (String.eqb x) s.

Definition Set_add (x : string) (s : list string) : list string :=
  if Set_has x s then s else s ++ [x].

Definition Set_of (l : list string) : list string :=
  fold_left (fun acc x => Set_add x acc) l [].

(** The property names of [Object.prototype], as Node.js defines it and
    as long as no code adds to it.  An object literal and an object read
    by [JSON.parse] inherit them: under one of these keys [obj[key]] is a
    function (under '__proto__' the prototype itself), not [undefined],
    unless the object has an entry of its own there. *)
Definition Object_prototype : list string :=
  [ "constructor"; "__defineGetter__"; "__defineSetter__"; "hasOwnProperty";
    "__lookupGetter__"; "__lookupSetter__"; "isPrototypeOf";
    "propertyIsEnumerable"; "toString"; "valueOf"; "__proto__"; "toLocaleString" ].

Definition inherited (key : string) : bool := Set_has key Object_prototype.

End JS.

(** ** src/gep/mutation.js *)

Module Mutation.

(** [RISK_MAP[category]]: the level of one of the three categories;
    [None] is no level ([undefined], or a member of [Object.prototype]
    under a category named like one). *)
Definition RISK_MAP (category : string) : option string :=
  if String.eqb category "repair" then Some "low"
  else if String.eqb category "optimize" then Some "low-medium"
  else if String.eqb category "innovate" then Some "medium"
  else None.

Record mutation : Type := {
  category : string;
  trigger_signals : list string;
  target : string;
  expected_effect : string;
  gene_id : option string
}.

Record blast : Type := { files : Z; lines : Z }.

Record assessment : Type := { risk : option string; warnings : list string }.

Definition warn_files (b : blast) : string :=
  "High blast radius: " +:+ pretty (files b) +:+ " files".

Definition warn_lines (b : blast) : string :=
  "Large change: " +:+ pretty (lines b) +:+ " lines".

Definition warn_innovate : string := "Innovation with wide blast radius".

Definition assessRisk (m : mutation) (b : blast) : assessment :=
  let warnings := [] in
  let risk := RISK_MAP (category m) in
  let '(risk, warnings) :=
    if 10 <? files b then (Some "medium", warnings ++ [warn_files b])
    else (risk, warnings) in
  let warnings :=
    if 500 <? lines b then warnings ++ [warn_lines b] else warnings in
  let '(risk, warnings) :=
    if String.eqb (category m) "innovate" && (5 <? files b)
    then (Some "medium", warnings ++ [warn_innovate])
    else (risk, warnings) in
  {| risk := risk; warnings := warnings |}.

End Mutation.

(** ** src/gep/store.js *)

Module Store.
Import JS.

(** Parsed JSON values. *)
Inductive json : Type :=
| JNull
| JBool (b : bool)
| JNumber (q : Q)
| JString (s : string)
| JArray (items : list json)
| JObject (fields : list (string * json)).

Section WithParser.

(** [JSON.parse]: [None] stands for the [SyntaxError] it throws on text
    that is not JSON. *)
Variable JSON_parse : string -> option json.

Definition SyntaxError : string := "SyntaxError".

(** What a missing or blank file reads as: [filename.endsWith('.json') ? [] : {}]. *)
Definition emptyFor (filename : string) : json :=
  if endsWith filename ".json" then JArray [] else JObject [].

(** The assets directory: file name to content; an absent key is a file
    for which [fs.existsSync] is false. *)
Definition readJSON (fs : gmap string string) (filename : string) : completion json :=
  match fs !! filename with
  | None => Returned (emptyFor filename)
  | Some content =>
      let raw := trim content in
      if String.eqb raw "" then Returned (emptyFor filename)
      else match JSON_parse raw with
           | Some v => Returned v
           | None => Thrown SyntaxError
           end
  end.

(** [lines.map(line => JSON.parse(line))]: the first bad line throws. *)
Fixpoint parseLines (ls : list string) : completion (list json) :=
  match ls with
  | [] => Returned []
  | l :: rest =>
      match JSON_parse l with
      | None => Thrown SyntaxError
      | Some v => bind (parseLines rest) (fun vs => Returned (v :: vs))
      end
  end.

Definition is_newline (c : ascii) : bool := (nat_of_ascii c =? 10)%nat.

Definition readJSONL (fs : gmap string string) (filename : string) : completion (list json) :=
  match fs !! filename with
  | None => Returned []
  | Some content =>
      let raw := trim content in
      if String.eqb raw "" then Returned []
      else parseLines (filterNonEmpty (splitOn is_newline raw))
  end.

Definition loadGenes (fs : gmap string string) : completion json :=
  readJSON fs "genes.json".

Definition loadCapsules (fs : gmap string string) : completion json :=
  readJSON fs "capsules.json".

Definition loadEvents (fs : gmap string string) : completion (list json) :=
  readJSONL fs "events.jsonl".

Definition loadCapabilityTree (fs : gmap string string) : completion json :=
  readJSON fs "capability_tree.json".

End WithParser.

(** A fragment of [JSON.parse] that is enough for concrete runs: it accepts
    the empty array and the empty object and rejects every other text used
    in the examples below, as [JSON.parse] does. *)
Definition parse_empty_only (raw : string) : option json :=
  if String.eqb raw "[]" then Some (JArray [])
  else if String.eqb raw "{}" then Some (JObject [])
  else None.

End Store.

(** ** src/core/signals.js *)

Module Signals.
Import JS.

(** A content block of a message ([{ type, text, name }]). *)
Record block : Type := {
  block_type : option string;
  block_text : option string;
  block_name : option string
}.

(** [message.content]: a string, an array of blocks, or anything else. *)
Inductive content : Type :=
| ContentString (s : string)
| ContentBlocks (bs : list block)
| ContentOther.

Record message : Type := {
  role : option string;
  msg_content : content;
  stopReason : option string;
  errorMessage : option string
}.

(** [entry.message]: absent, an object (native format) or a string
    (simplified format). *)
Inductive message_field : Type :=
| NoMessage
| MessageObject (m : message)
| MessageString (s : string).

(** A session-log entry, with every field the extractor inspects; [None]
    is an absent field. *)
Record entry : Type := {
  type : option string;
  msg : message_field;
  level : option string;
  detail : option string;
  status : option string;
  result : option string;
  tool_name : option string;
  mutation_applied : bool;
  solidify_failed : bool;
  name : option string;
  customType : option string;
  data_name : option string
}.

(** Truthiness of an optional string field. *)
Definition truthy (o : option string) : bool :=
  match o with
  | Some s => negb (String.eqb s "")
  | None => false
  end.

(** [field === v]. *)
Definition str_is (o : option string) (v : string) : bool :=
  match o with
  | Some s => String.eqb s v
  | None => false
  end.

Definition message_truthy (e : entry) : bool :=
  match msg e with
  | NoMessage => false
  | MessageObject _ => true
  | MessageString s => negb (String.eqb s "")
  end.

(** [entry.message?.role === r]. *)
Definition role_is (e : entry) (r : string) : bool :=
  match msg e with
  | MessageObject m => str_is (role m) r
  | _ => false
  end.

(** A JavaScript [Map] from strings to counters, in insertion order, with
    [m.set(k, (m.get(k) || 0) + 1)]. *)
Fixpoint Map_incr (k : string) (m : list (string * nat)) : list (string * nat) :=
  match m with
  | [] => [(k, 1%nat)]
  | (k', n) :: rest =>
      if String.eqb k k' then (k', S n) :: rest else (k', n) :: Map_incr k rest
  end.

(** [arr.slice(-n)]. *)
Definition lastN {A : Type} (n : nat) (l : list A) : list A :=
  skipn (length l - n) l.

Definition extractText (e : entry) : string :=
  match msg e with
  | MessageObject m =>
      match msg_content m with
      | ContentString s => s
      | ContentBlocks bs =>
          String.concat " "
            (map (fun c => default "" (block_text c))
                 (List.filter (fun c => str_is (block_type c) "text" && truthy (block_text c)) bs))
      | ContentOther => ""
      end
  | _ => ""
  end.

(** [e.message?.stopReason === 'error' || !!e.message?.errorMessage]. *)
Definition isErrorMessage (e : entry) : bool :=
  match msg e with
  | MessageObject m => str_is (stopReason m) "error" || truthy (errorMessage m)
  | _ => false
  end.

(** [e.type === 'message' && e.message?.role === 'assistant']. *)
Definition isAssistant (e : entry) : bool :=
  str_is (type e) "message" && role_is e "assistant".

(** The names of the tool_use blocks of an assistant message. *)
Definition toolUseNames (e : entry) : list string :=
  if isAssistant e then
    match msg e with
    | MessageObject m =>
        match msg_content m with
        | ContentBlocks bs =>
            map (fun b => default "" (block_name b))
                (List.filter (fun b => str_is (block_type b) "tool_use" && truthy (block_name b)) bs)
        | _ => []
        end
    | _ => []
    end
  else [].

(** The tools an entry invokes, in the order the loops visit them. *)
Definition toolsOf (e : entry) : list string :=
  toolUseNames e ++ (if truthy (tool_name e) then [default "" (tool_name e)] else []).

Fixpoint repeatLoop (prev : string) (rest : list string) (repeatCount : nat)
    (signals : list string) : list string :=
  match rest with
  | [] => signals
  | t :: rest' =>
      if String.eqb t prev then
        let repeatCount := S repeatCount in
        let signals :=
          if (3 <=? repeatCount)%nat then Set_add ("repeated_tool_usage:" +:+ t) signals
          else signals in
        repeatLoop t rest' repeatCount signals
      else repeatLoop t rest' 1%nat signals
  end.

Section WithRegExp.

(** [FEATURE_KEYWORDS.test(text)]. *)
Variable FEATURE_KEYWORDS_test : string -> bool.

(** The normalisation of an error detail: at most 80 code units, every
    character outside [a-zA-Z0-9_] and the CJK block replaced by [_], then
    at most 50 code units. *)
Variable normalizeDetail : string -> string.

Definition errorStep (acc : list string * list (string * nat)) (e : entry)
    : list string * list (string * nat) :=
  let '(signals, counts) := acc in
  let '(signals, counts) :=
    match msg e with
    | MessageObject m =>
        if str_is (type e) "message" && (str_is (stopReason m) "error" || truthy (errorMessage m)) then
          let signals := Set_add "log_error" signals in
          let detail :=
            if truthy (errorMessage m) then default "" (errorMessage m)
            else if truthy (stopReason m) then default "" (stopReason m)
            else "" in
          if negb (String.eqb detail "") then
            let normalized := normalizeDetail detail in
            (Set_add ("errsig:" +:+ normalized) signals, Map_incr normalized counts)
          else (signals, counts)
        else (signals, counts)
    | _ => (signals, counts)
    end in
  if str_is (level e) "error" || (str_is (type e) "error" && negb (message_truthy e)) then
    let signals := Set_add "log_error" signals in
    if truthy (detail e) then
      (Set_add ("errsig:" +:+ default "" (detail e)) signals,
       Map_incr (default "" (detail e)) counts)
    else (signals, counts)
  else (signals, counts).

Definition opportunityStep (signals : list string) (e : entry) : list string :=
  let signals :=
    if str_is (type e) "message" && role_is e "user" && FEATURE_KEYWORDS_test (extractText e)
    then Set_add "user_feature_request" signals else signals in
  match msg e with
  | MessageString s =>
      if str_is (type e) "user_request" && FEATURE_KEYWORDS_test s
      then Set_add "user_feature_request" signals else signals
  | _ => signals
  end.

Definition capabilityStep (signals : list string) (e : entry) : list string :=
  let signals :=
    if str_is (type e) "capability_mention" && truthy (name e)
    then Set_add ("capability_candidate:" +:+ default "" (name e)) signals else signals in
  if str_is (type e) "custom" && str_is (customType e) "capability_mention" && truthy (data_name e)
  then Set_add ("capability_candidate:" +:+ default "" (data_name e)) signals else signals.

Definition extractSignals (entries : list entry) : list string :=
  match entries with
  | [] => []
  | _ :: _ =>
      let '(signals, errorDetailCounts) := fold_left errorStep entries ([], []) in
      let signals :=
        if existsb (fun kc => (3 <=? snd kc)%nat) errorDetailCounts
        then Set_add "recurring_error" signals else signals in
      let signals := fold_left opportunityStep entries signals in
      let assistantMsgs := List.filter isAssistant entries in
      let signals :=
        if (10 <=? length assistantMsgs)%nat &&
           forallb (fun e => negb (isErrorMessage e)) (lastN 10 assistantMsgs)
        then Set_add "stable_success_plateau" signals else signals in
      let signals :=
        if (10 <=? length entries)%nat &&
           forallb (fun e => str_is (status e) "success" || str_is (result e) "success")
                   (lastN 10 entries) &&
           negb (Set_has "stable_success_plateau" signals)
        then Set_add "stable_success_plateau" signals else signals in
      let toolCounts :=
        fold_left (fun m e => fold_left (fun m t => Map_incr t m) (toolsOf e) m) entries [] in
      let signals :=
        fold_left (fun s kc =>
                     if (5 <=? snd kc)%nat then Set_add ("high_tool_usage:" +:+ fst kc) s else s)
                  toolCounts signals in
      let toolSequence := flat_map toolsOf entries in
      let signals :=
        match toolSequence with
        | [] => signals
        | t0 :: rest => repeatLoop t0 rest 1%nat signals
        end in
      let solidifyFailCount :=
        length (List.filter (fun e => mutation_applied e && solidify_failed e) entries) in
      let signals :=
        if (3 <=? solidifyFailCount)%nat then Set_add "repair_loop_detected" signals
        else signals in
      let signals :=
        if (5 <=? length assistantMsgs)%nat && forallb isErrorMessage assistantMsgs
        then Set_add "evolution_stagnation" (Set_add "recurring_error" signals)
        else signals in
      fold_left capabilityStep entries signals
  end.

End WithRegExp.

(** The detail normalisation on ASCII text: it agrees with the source's
    expression on every detail made of ASCII characters. *)
Definition keeps (c : ascii) : bool :=
  let n := nat_of_ascii c in
  ((48 <=? n) && (n <=? 57) || (65 <=? n) && (n <=? 90) ||
   (97 <=? n) && (n <=? 122) || (n =? 95))%nat.

Fixpoint underscore (s : string) : string :=
  match s with
  | EmptyString => EmptyString
  | String c rest => String (if keeps c then c else "_"%char) (underscore rest)
  end.

Definition normalizeAscii (d : string) : string :=
  String.substring 0 50 (underscore (String.substring 0 80 d)).

(** An assistant message entry in the native format. *)
Definition assistantEntry (stop : string) (err : option string) : entry :=
  {| type := Some "message";
     msg := MessageObject {| role := Some "assistant"; msg_content := ContentString "";
                             stopReason := Some stop; errorMessage := err |};
     level := None; detail := None; status := None; result := None;
     tool_name := None; mutation_applied := false; solidify_failed := false;
     name := None; customType := None; data_name := None |}.

(** The signal of the all-error rule. *)
Definition stagnation : string := "evolution_stagnation".

End Signals.

(** ** src/tree/node.js *)

Module Node.
Import JS.

Definition VALID_LEVELS : list string := ["low"; "mid"; "high"].
Definition VALID_STATUSES : list string := ["active"; "candidate"; "pruned"].

(** A capability node.  [v_score] and [last_triggered] are [null] when
    [None]; an absent [name] reads as the empty string. *)
Record node : Type := {
  id : string;
  name : string;
  level : string;
  parent_id : string;
  input : string;
  output : string;
  preconditions : list string;
  failure_boundary : string;
  linked_genes : list string;
  linked_skills : list string;
  children : list string;
  status : string;
  v_score : option Z;
  last_triggered : option string;
  trigger_count : Z
}.

(** [createNode] called with the required parameters only. *)
Definition createNode (id name level parent_id : string) : completion node :=
  if String.eqb id "" then Thrown "Node id is required"
  else if String.eqb name "" then Thrown "Node name is required"
  else if negb (Set_has level VALID_LEVELS)
  then Thrown ("Invalid level: " +:+ level +:+ ". Must be one of: "
               +:+ String.concat ", " VALID_LEVELS)
  else if String.eqb parent_id "" then Thrown "Node parent_id is required"
  else Returned {|
    id := id; name := name; level := level; parent_id := parent_id;
    input := ""; output := ""; preconditions := []; failure_boundary := "";
    linked_genes := []; linked_skills := []; children := [];
    status := "active"; v_score := None; last_triggered := None;
    trigger_count := 0 |}.

(** The errors [validateNode] collects; the node is valid when there are
    none.  The array-typed fields are arrays by their type. *)
Definition validateNode (n : node) : list string :=
  (if String.eqb (id n) "" then ["id is required"] else []) ++
  (if String.eqb (name n) "" then ["name is required"] else []) ++
  (if negb (Set_has (level n) VALID_LEVELS) then ["invalid level: " +:+ level n] else []) ++
  (if String.eqb (parent_id n) "" then ["parent_id is required"] else []) ++
  (if negb (Set_has (status n) VALID_STATUSES) then ["invalid status: " +:+ status n] else []) ++
  (if trigger_count n <? 0 then ["trigger_count must be a non-negative number"] else []) ++
  (match v_score n with
   | Some v => if (v <? 0) || (100 <? v)
               then ["v_score must be null or a number between 0 and 100"] else []
   | None => []
   end).

Definition set_status (st : string) (n : node) : node :=
  {| id := id n; name := name n; level := level n; parent_id := parent_id n;
     input := input n; output := output n; preconditions := preconditions n;
     failure_boundary := failure_boundary n; linked_genes := linked_genes n;
     linked_skills := linked_skills n; children := children n;
     status := st; v_score := v_score n; last_triggered := last_triggered n;
     trigger_count := trigger_count n |}.

Definition set_children (cs : list string) (n : node) : node :=
  {| id := id n; name := name n; level := level n; parent_id := parent_id n;
     input := input n; output := output n; preconditions := preconditions n;
     failure_boundary := failure_boundary n; linked_genes := linked_genes n;
     linked_skills := linked_skills n; children := cs;
     status := status n; v_score := v_score n; last_triggered := last_triggered n;
     trigger_count := trigger_count n |}.

(** The node [createNode] returns for valid required parameters. *)
Definition freshNode (id name level parent_id : string) : node :=
  {| id := id; name := name; level := level; parent_id := parent_id;
     input := ""; output := ""; preconditions := []; failure_boundary := "";
     linked_genes := []; linked_skills := []; children := [];
     status := "active"; v_score := None; last_triggered := None;
     trigger_count := 0 |}.

End Node.

(** ** src/tree/pruner.js *)

Module Pruner.
Import JS Node.

Definition CANDIDATE_PRUNE_DAYS : Q := 30.
Definition AUTO_PRUNE_DAYS : Q := 60.
Definition PRUNE_VSCORE_THRESHOLD : Z := 40.
Definition MERGE_SIMILARITY_THRESHOLD : Q := 8 # 10.

(** The separators of [/[\s.]+/]. *)
Definition is_separator (c : ascii) : bool :=
  is_space c || (nat_of_ascii c =? 46)%nat.

(** Splitting at every separator and dropping the empty pieces gives the
    pieces of [split(/[\s.]+/).filter(Boolean)]. *)
Definition tokenize (name : string) : list string :=
  if String.eqb name "" then []
  else Set_of (filterNonEmpty (splitOn is_separator (toLowerCase name))).

Definition jaccardSimilarity (setA setB : list string) : Q :=
  if (length setA =? 0)%nat && (length setB =? 0)%nat then 1
  else if (length setA =? 0)%nat || (length setB =? 0)%nat then 0
  else
    let intersection := length (List.filter (fun item => Set_has item setB) setA) in
    let union := (length setA + length setB - intersection)%nat in
    if (union =? 0)%nat then 0
    else inject_Z (Z.of_nat intersection) / inject_Z (Z.of_nat union).

(** The number [daysSinceTriggered] returns: [Infinity], a finite number of
    days, or [NaN] (an unparsable date). *)
Inductive days : Type :=
| Infinity
| Days (d : Q)
| NaN.

(** [d > bound]. *)
Definition days_gt (d : days) (bound : Q) : bool :=
  match d with
  | Infinity => true
  | Days q => negb (Qle_bool q bound)
  | NaN => false
  end.

Record analysis : Type := {
  candidate_prune : list node;
  auto_prune : list node;
  merge_suggestions : list (string * string)
}.

Section WithClock.

(** [Date.now()], in milliseconds. *)
Variable now : Z.

(** [new Date(s).getTime()]; [None] is the NaN of an invalid date. *)
Variable Date_getTime : string -> option Z.

Definition daysSinceTriggered (n : node) : days :=
  match last_triggered n with
  | None => Infinity
  | Some s =>
      if String.eqb s "" then Infinity
      else match Date_getTime s with
           | Some lastMs => Days (inject_Z (now - lastMs) / inject_Z (24 * 60 * 60 * 1000))
           | None => NaN
           end
  end.

Definition classify (acc : list node * list node) (n : node) : list node * list node :=
  let '(candidatePrune, autoPrune) := acc in
  let d := daysSinceTriggered n in
  if days_gt d AUTO_PRUNE_DAYS then (candidatePrune, autoPrune ++ [n])
  else if days_gt d CANDIDATE_PRUNE_DAYS &&
          match v_score n with
          | None => true
          | Some v => v <? PRUNE_VSCORE_THRESHOLD
          end
       then (candidatePrune ++ [n], autoPrune)
  else (candidatePrune, autoPrune).

(** The pairs the inner loop reports for [a] against the nodes after it. *)
Definition similarTo (a : node) (later : list node) : list (string * string) :=
  map (fun b => (id a, id b))
      (List.filter (fun b => negb (Qle_bool (jaccardSimilarity (tokenize (name a)) (tokenize (name b)))
                                            MERGE_SIMILARITY_THRESHOLD))
                   later).

Fixpoint mergePairs (activeNodes : list node) : list (string * string) :=
  match activeNodes with
  | [] => []
  | a :: later => similarTo a later ++ mergePairs later
  end.

Definition analyzePruning (nodes : list node) : analysis :=
  let activeNodes := List.filter (fun n => negb (String.eqb (status n) "pruned")) nodes in
  let '(candidatePrune, autoPrune) := fold_left classify activeNodes ([], []) in
  {| candidate_prune := candidatePrune;
     auto_prune := autoPrune;
     merge_suggestions := mergePairs activeNodes |}.

End WithClock.

End Pruner.

(** ** The persisted records of the GEP protocol (src/gep/gene.js and the
       capsule and event records the scoring code reads) *)

Module Gep.

(** A gene; [max_files] is [constraints && constraints.max_files]. *)
Record gene : Type := {
  gene_id : string;
  category : string;
  signals_match : list string;
  preconditions : list string;
  strategy : list string;
  max_files : option Z;
  forbidden_paths : list string;
  validation : list string;
  capability_node_id : option string
}.

(** A capsule; [validation_passed] is the truthiness of
    [metrics && metrics.validation_passed]. *)
Record capsule : Type := {
  capsule_gene_id : string;
  mutation_category : string;
  validation_passed : bool
}.

Record event : Type := { event_type : string }.

End Gep.

(** ** src/vfm/mutator.js *)

Module VfmMutator.
Import JS Gep.
Local Open Scope Q_scope.

Record weights : Type := {
  frequency : Q;
  failReduce : Q;
  userBurden : Q;
  selfCost : Q
}.

Definition DEFAULT_WEIGHTS : weights :=
  {| frequency := 3; failReduce := 3; userBurden := 2; selfCost := 2 |}.

Definition MAX_ADJUSTMENT : Q := 1 # 2.
Definition WEIGHT_MIN : Q := 1.
Definition WEIGHT_MAX : Q := 5.
Definition HIGH_SUCCESS_THRESHOLD : Q := 8 # 10.
Definition HIGH_FAIL_THRESHOLD : Q := 4 # 10.

Definition clampWeight (weight : Q) : Q :=
  Qmin (Qmax weight WEIGHT_MIN) WEIGHT_MAX.

Definition computeSuccessRate (capsules : list capsule) : Q :=
  match capsules with
  | [] => 1
  | _ :: _ =>
      let passed := length (List.filter validation_passed capsules) in
      inject_Z (Z.of_nat passed) / inject_Z (Z.of_nat (length capsules))
  end.

Definition isLowInnovation (capsules : list capsule) : bool :=
  if (length capsules <? 5)%nat then false
  else
    let innovateCount :=
      length (List.filter (fun c => String.eqb (mutation_category c) "innovate") capsules) in
    Qlt_bool (inject_Z (Z.of_nat innovateCount) / inject_Z (Z.of_nat (length capsules)))
             (1 # 10).

Definition hasCapabilityGrowth (events : list event) : bool :=
  existsb (fun e => String.eqb (event_type e) "capability_grown") events.

Definition mutateWeights (currentWeights : weights)
    (recentCapsules : list capsule) (recentEvents : list event) : weights :=
  let frequency0 := frequency currentWeights in
  let failReduce0 := failReduce currentWeights in
  let userBurden0 := userBurden currentWeights in
  let selfCost0 := selfCost currentWeights in
  let successRate := computeSuccessRate recentCapsules in
  let failRate := 1 - successRate in
  let '(failReduce1, frequency1) :=
    if Qgt_bool successRate HIGH_SUCCESS_THRESHOLD && isLowInnovation recentCapsules
    then (failReduce0 - MAX_ADJUSTMENT, frequency0 + MAX_ADJUSTMENT)
    else (failReduce0, frequency0) in
  let failReduce2 :=
    if Qgt_bool failRate HIGH_FAIL_THRESHOLD then failReduce1 + MAX_ADJUSTMENT
    else failReduce1 in
  let userBurden1 :=
    if hasCapabilityGrowth recentEvents then userBurden0 + MAX_ADJUSTMENT * (1 # 2)
    else userBurden0 in
  let selfCost1 :=
    if Qgt_bool successRate HIGH_SUCCESS_THRESHOLD && negb (hasCapabilityGrowth recentEvents)
    then selfCost0 + MAX_ADJUSTMENT * (1 # 2)
    else selfCost0 in
  {| frequency := clampWeight frequency1;
     failReduce := clampWeight failReduce2;
     userBurden := clampWeight userBurden1;
     selfCost := clampWeight selfCost1 |}.

(** A capsule that failed validation. *)
Definition failedCapsule : capsule :=
  {| capsule_gene_id := "g"; mutation_category := "repair"; validation_passed := false |}.

End VfmMutator.

(** ** src/vfm/scorer.js *)

Module VfmScorer.
Import JS Gep Node VfmMutator.
Local Open Scope Q_scope.

Definition EVOLUTION_THRESHOLD : Z := 40.

(** A JavaScript number as the scorer can produce it: a finite value, an
    infinity or NaN (signed zeros are not told apart). *)
Inductive number : Type :=
| Num (q : Q)
| PosInfinity
| NegInfinity
| NaN.

(** [x * k]. *)
Definition times (x : number) (k : Q) : number :=
  match x with
  | Num q => Num (q * k)
  | NaN => NaN
  | PosInfinity =>
      if Qeq_bool k 0 then NaN else if Qlt_bool 0 k then PosInfinity else NegInfinity
  | NegInfinity =>
      if Qeq_bool k 0 then NaN else if Qlt_bool 0 k then NegInfinity else PosInfinity
  end.

(** [x + q]. *)
Definition plus (x : number) (q : Q) : number :=
  match x with
  | Num p => Num (p + q)
  | other => other
  end.

(** [x / m]. *)
Definition divide (x : number) (m : Q) : number :=
  match x with
  | Num a =>
      if Qeq_bool m 0 then
        if Qeq_bool a 0 then NaN
        else if Qlt_bool 0 a then PosInfinity else NegInfinity
      else Num (a / m)
  | NaN => NaN
  | PosInfinity => if Qlt_bool m 0 then NegInfinity else PosInfinity
  | NegInfinity => if Qlt_bool m 0 then PosInfinity else NegInfinity
  end.

(** [Math.max(x, y)] and [Math.min(x, y)] for a finite [y]. *)
Definition Math_max (x : number) (y : Q) : number :=
  match x with
  | Num q => Num (Qmax q y)
  | PosInfinity => PosInfinity
  | NegInfinity => Num y
  | NaN => NaN
  end.

Definition Math_min (x : number) (y : Q) : number :=
  match x with
  | Num q => Num (Qmin q y)
  | PosInfinity => Num y
  | NegInfinity => NegInfinity
  | NaN => NaN
  end.

(** [Math.round]: the nearest integer, halves rounded up; [None] when the
    result is not an integer (NaN or an infinity). *)
Definition Math_round (x : number) : option Z :=
  match x with
  | Num q => Some (Qfloor (q + (1 # 2)))
  | _ => None
  end.

(** What [geneMap[geneId]] evaluates to in scoreSelfCost, once the
    dictionary is filled from the stored genes: a stored gene, another
    truthy value (a member of [Object.prototype], say: it has neither a
    [strategy] nor [constraints]), or a falsy one ([undefined]). *)
Inductive geneSlot : Type :=
| StoredGene (g : gene)
| OtherValue
| NoGene.

(** The reading of the dictionary filled by [geneMap[g.id] = g] from the
    genes that [loadGenes()] returned, in order: a later gene replaces an
    earlier one of the same id, and the names of [Object.prototype] read
    as its members unless a gene is stored under them.  The assignment
    under the id '__proto__' stores nothing, it makes the gene the
    prototype of the dictionary, whose properties then read as entries:
    [None] for a store with such a gene. *)
Definition geneMapOf (genes : list gene) : option (string -> geneSlot) :=
  if existsb (fun g => String.eqb (gene_id g) "__proto__") genes then None
  else
    Some (fun key =>
            match fold_left (fun m g => <[gene_id g := g]> m) genes (∅ : gmap string gene) !! key with
            | Some g => StoredGene g
            | None => if inherited key then OtherValue else NoGene
            end).

Section WithEnvironment.

(** [Math.log2] on the positive integers. *)
Variable Math_log2 : Z -> Q.

(** The first lines of scoreSelfCost after the early return: [loadGenes()]
    and the loop that fills [geneMap], as the lookups that follow read the
    dictionary; [Thrown] where [loadGenes()] throws (a gene store that
    does not parse). *)
Variable geneMap : completion (string -> geneSlot).

(** [Math.log2(count + 1)]: NaN below zero, -Infinity at zero. *)
Definition scoreFrequency (capability : node) : number :=
  let count := trigger_count capability in
  let raw :=
    if (0 <? count + 1)%Z then Num (Math_log2 (count + 1))
    else if (count + 1 =? 0)%Z then NegInfinity
    else NaN in
  Math_min raw 10.

Definition scoreFailReduction (capability : node) (capsules : list capsule) : Q :=
  match capsules with
  | [] => 0
  | _ :: _ =>
      let linkedGenes := Set_of (linked_genes capability) in
      let relatedCapsules :=
        List.filter (fun c => Set_has (capsule_gene_id c) linkedGenes) capsules in
      match relatedCapsules with
      | [] => 0
      | _ :: _ =>
          let passedCount := length (List.filter validation_passed relatedCapsules) in
          let successRate :=
            inject_Z (Z.of_nat passedCount) / inject_Z (Z.of_nat (length relatedCapsules)) in
          successRate * 10
      end
  end.

Definition scoreUserBurden (capability : node) : Q :=
  let skillCount := Z.of_nat (length (linked_skills capability)) in
  let precondCount := Z.of_nat (length (preconditions capability)) in
  let score := (Z.min (skillCount * 2) 6 + Z.max (4 - precondCount) 0)%Z in
  inject_Z (Z.min score 10).

(** One step of the loop over the linked gene ids: (totalSteps,
    totalMaxFiles, geneCount).  A truthy value that is no gene counts as
    a gene without steps and with the default of 12 files. *)
Definition selfCostStep (lookup : string -> geneSlot) (acc : Z * Z * Z) (geneId : string)
    : Z * Z * Z :=
  let '(totalSteps, totalMaxFiles, geneCount) := acc in
  match lookup geneId with
  | NoGene => acc
  | StoredGene g =>
      (totalSteps + Z.of_nat (length (strategy g)),
       totalMaxFiles + match max_files g with
                       | Some n => if (n =? 0)%Z then 12 else n
                       | None => 12
                       end,
       geneCount + 1)%Z
  | OtherValue => (totalSteps + 0, totalMaxFiles + 12, geneCount + 1)%Z
  end.

(** scoreSelfCost from the loop over the linked gene ids on. *)
Definition selfCostOf (lookup : string -> geneSlot) (linkedGeneIds : list string) : Q :=
  let '(totalSteps, totalMaxFiles, geneCount) :=
    fold_left (selfCostStep lookup) linkedGeneIds (0, 0, 0)%Z in
  if (geneCount =? 0)%Z then 5
  else
    let avgSteps := inject_Z totalSteps / inject_Z geneCount in
    let avgMaxFiles := inject_Z totalMaxFiles / inject_Z geneCount in
    let stepScore := Qmax (10 - avgSteps) 0 in
    let fileScore := Qmax (10 - avgMaxFiles / 2) 0 in
    Qmin ((stepScore + fileScore) / 2) 10.

Definition scoreSelfCost (capability : node) : completion Q :=
  match linked_genes capability with
  | [] => Returned 5
  | linkedGeneIds => bind geneMap (fun lookup => Returned (selfCostOf lookup linkedGeneIds))
  end.

(** [computeVScore(capability, context, weights)]; [None] is a result
    that is no integer (NaN). *)
Definition computeVScore (capability : node) (capsules : list capsule)
    (weights : option weights) : completion (option Z) :=
  let w := match weights with Some w => w | None => DEFAULT_WEIGHTS end in
  let frequency := times (scoreFrequency capability) (frequency w) in
  let failReduce := scoreFailReduction capability capsules * failReduce w in
  let userBurden := scoreUserBurden capability * userBurden w in
  bind (scoreSelfCost capability) (fun score =>
  let selfCost := score * selfCost w in
  let totalWeight := VfmMutator.frequency w + VfmMutator.failReduce w
                     + VfmMutator.userBurden w + VfmMutator.selfCost w in
  let maxScore := 10 * totalWeight in
  let rawScore := plus (plus (plus frequency failReduce) userBurden) selfCost in
  let normalized := times (divide rawScore maxScore) 100 in
  Returned (Math_round (Math_min (Math_max normalized 0) 100))).

End WithEnvironment.

(** The normalised score in exact arithmetic, from the four dimension
    scores: the weighted sum over ten times the sum of the weights, scaled
    to 0-100 and clamped. *)
Definition scaledScore (f r u s : Q) (w : weights) : Q :=
  Qmin (Qmax ((f * frequency w + r * failReduce w + u * userBurden w + s * selfCost w)
              / (10 * (frequency w + failReduce w + userBurden w + selfCost w)) * 100) 0) 100.

(** Weights as mutateWeights keeps them: each between 1 and 5. *)
Definition keptWeights (w : weights) : Prop :=
  1 <= frequency w <= 5 /\ 1 <= failReduce w <= 5 /\
  1 <= userBurden w <= 5 /\ 1 <= selfCost w <= 5.

Definition isWorthEvolving (score : Z) : bool := (EVOLUTION_THRESHOLD <=? score)%Z.

End VfmScorer.

(** ** src/gep/gene.js *)

Module Gene.
Import JS Gep.
Local Open Scope Q_scope.

(** The line terminators that [.] does not match: LF, CR and, in UTF-8,
    U+2028 and U+2029. *)
Definition ls_tail : string := String (ascii_of_nat 128) (String (ascii_of_nat 168) EmptyString).
Definition ps_tail : string := String (ascii_of_nat 128) (String (ascii_of_nat 169) EmptyString).

Fixpoint has_line_terminator (s : string) : bool :=
  match s with
  | EmptyString => false
  | String c rest =>
      let n := nat_of_ascii c in
      (n =? 10)%nat || (n =? 13)%nat ||
      ((n =? 226)%nat && (String.prefix ls_tail rest || String.prefix ps_tail rest)) ||
      has_line_terminator rest
  end.

(** [s.replace(/:.*$/, ':')]: the text from the first colon that is
    followed by no line terminator is cut after that colon. *)
Fixpoint prefixPattern (s : string) : string :=
  match s with
  | EmptyString => EmptyString
  | String c rest =>
      if (nat_of_ascii c =? 58)%nat && negb (has_line_terminator rest) then ":"
      else String c (prefixPattern rest)
  end.

(** What one required signal adds to [matched]. *)
Definition matchOne (signals : list string) (s : string) : Q :=
  if Set_has s (Set_of signals) then 1
  else
    let prefix := prefixPattern s in
    if negb (String.eqb prefix s) && existsb (fun sig => startsWith sig prefix) signals
    then 1 # 2 else 0.

Definition matchScore (g : gene) (signals : list string) : Q :=
  match signals_match g with
  | [] => 0
  | required =>
      let matched := fold_left (fun matched s => matched + matchOne signals s) required 0 in
      matched / inject_Z (Z.of_nat (length required))
  end.

End Gene.

(** ** src/core/selector.js *)

Module Selector.
Import JS Gep Gene.
Local Open Scope Q_scope.

Record options : Type := {
  preferCategory : option string;
  minScore : option Q
}.

Definition noOptions : options := {| preferCategory := None; minScore := None |}.

(** [{ gene, score }]. *)
Record scoredGene : Type := { gene_of : gene; score : Q }.

(** The score the [map] callback of selectGene gives a gene. *)
Definition scoreOf (preferCategory : option string) (signals : list string) (g : gene) : Q :=
  let score := matchScore g signals in
  match preferCategory with
  | Some c =>
      if negb (String.eqb c "") && String.eqb (category g) c then score + (1 # 10) else score
  | None => score
  end.

(** [Array.prototype.sort] with the comparator [(a, b) => b.score - a.score]:
    a stable sort, scores descending. *)
Fixpoint insertByScore (x : scoredGene) (sorted : list scoredGene) : list scoredGene :=
  match sorted with
  | [] => [x]
  | y :: rest =>
      if Qlt_bool (score y) (score x) then x :: sorted else y :: insertByScore x rest
  end.

Definition sortByScore (l : list scoredGene) : list scoredGene :=
  fold_left (fun sorted x => insertByScore x sorted) l [].

Definition effectiveMinScore (o : options) : Q :=
  match minScore o with
  | Some m => m
  | None => 3 # 10
  end.

(** [genes] is the array [loadGenes()] returns. *)
Definition selectGene (genes : list gene) (signals : list string) (o : options)
    : option gene :=
  match signals with
  | [] => None
  | _ :: _ =>
      let minScore := effectiveMinScore o in
      match genes with
      | [] => None
      | _ :: _ =>
          let scored :=
            sortByScore
              (List.filter (fun item => Qle_bool minScore (score item))
                 (map (fun g => {| gene_of := g; score := scoreOf (preferCategory o) signals g |})
                      genes)) in
          match scored with
          | [] => None
          | best :: _ => Some (gene_of best)
          end
      end
  end.

Definition rankGenes (genes : list gene) (signals : list string) : list scoredGene :=
  match signals with
  | [] => []
  | _ :: _ =>
      sortByScore
        (List.filter (fun item => Qlt_bool 0 (score item))
           (map (fun g => {| gene_of := g; score := matchScore g signals |}) genes))
  end.

(** A gene as [createGene] builds it from the required parameters. *)
Definition createdGene (id category : string) (signals_match strategy : list string) : gene :=
  {| gene_id := id; category := category; signals_match := signals_match;
     preconditions := []; strategy := strategy; max_files := Some 12%Z;
     forbidden_paths := [".git"; "node_modules"]; validation := [];
     capability_node_id := None |}.

(** The gene store of test/selector.test.js. *)
Definition testGenes : list gene :=
  [ createdGene "gene_test_repair" "repair" ["log_error"; "recurring_error"] ["Fix the error"];
    createdGene "gene_test_optimize" "optimize" ["stable_success_plateau"] ["Optimize performance"];
    createdGene "gene_test_innovate" "innovate" ["user_feature_request"; "capability_gap"]
                ["Create new capability"] ].

(** The head of the list dominates: the invariant of the insertion loop. *)
Definition headMax (l : list scoredGene) : Prop :=
  match l with
  | [] => True
  | best :: rest => forall x, In x rest -> (score x <= score best)%Q
  end.

End Selector.

(** ** src/pcec/cycle.js *)

Module Pcec.
Import JS.

(** The excluded filler phrases. *)
Definition EXCLUDE_KEYWORDS : list string :=
  ["总结"; "回顾"; "复述"; "没有明显"; "格式"; "措辞"].

Definition SUBSTANTIVE_TYPES : list string := ["capability"; "abstraction"; "leverage"].

Record outcome : Type := {
  type : string;
  description : string;
  added_at : string
}.

Record cycle : Type := {
  id : string;
  started_at : string;
  ended_at : option string;
  outcomes : list outcome;
  status : string
}.

(** The object passed to addOutcome; an absent field is [None]. *)
Record outcomeInput : Type := {
  in_type : option string;
  in_description : option string
}.

(** [new PCECCycle()], with the generated id and the clock as arguments. *)
Definition newCycle (id now : string) : cycle :=
  {| id := id; started_at := now; ended_at := None; outcomes := []; status := "running" |}.

(** [v || d] on an optional string. *)
Definition orElse (v : option string) (d : string) : string :=
  match v with
  | Some s => if String.eqb s "" then d else s
  | None => d
  end.

(** [addOutcome(outcome)]; [None] is an argument that is not an object. *)
Definition addOutcome (now : string) (o : option outcomeInput) (c : cycle) : cycle :=
  match o with
  | None => c
  | Some o =>
      {| id := id c; started_at := started_at c; ended_at := ended_at c;
         outcomes := outcomes c ++
                     [{| type := orElse (in_type o) "unknown";
                         description := orElse (in_description o) "";
                         added_at := now |}];
         status := status c |}
  end.

(** The filter on the descriptions of the outcomes of a valid type. *)
Definition hasSubstance (o : outcome) : bool :=
  if String.eqb (description o) "" then false
  else negb (existsb (fun keyword => includes (description o) keyword) EXCLUDE_KEYWORDS).

Definition hasSubstantiveOutcome (c : cycle) : bool :=
  match outcomes c with
  | [] => false
  | _ :: _ =>
      let validTypeOutcomes :=
        List.filter (fun o => Set_has (type o) SUBSTANTIVE_TYPES) (outcomes c) in
      match validTypeOutcomes with
      | [] => false
      | _ :: _ =>
          let substantiveOutcomes := List.filter hasSubstance validTypeOutcomes in
          (0 <? length substantiveOutcomes)%nat
      end
  end.

Record completion_result : Type := { substantive : bool; stagnant_count : nat }.

(** [complete()], threading the module's global stagnation counter. *)
Definition complete (now : string) (c : cycle) (stagnantCount : nat)
    : completion_result * cycle * nat :=
  let substantive := hasSubstantiveOutcome c in
  let stagnantCount' := if substantive then 0%nat else S stagnantCount in
  ({| substantive := substantive; stagnant_count := stagnantCount' |},
   {| id := id c; started_at := started_at c; ended_at := Some now;
      outcomes := outcomes c;
      status := if substantive then "completed" else "stagnant" |},
   stagnantCount').

Definition needsForceBreakthrough (stagnantCount : nat) : bool := (2 <=? stagnantCount)%nat.

End Pcec.

(** ** src/tree/capability_tree.js *)

Module CapabilityTree.
Import JS Node.

(** The root sentinel ([parent_id] is [null], [level] is 'high'). *)
Record rootNode : Type := {
  root_id : string;
  root_name : string;
  root_children : list string
}.

(** [this.data]: the root and the node dictionary. *)
Record tree : Type := {
  root : rootNode;
  nodes : gmap string node
}.

(** The tree the constructor builds from an empty store. *)
Definition emptyTree : tree :=
  {| root := {| root_id := "cap"; root_name := "Root"; root_children := [] |};
     nodes := ∅ |}.

Definition set_root_children (cs : list string) (r : rootNode) : rootNode :=
  {| root_id := root_id r; root_name := root_name r; root_children := cs |}.

(** What [this.data.nodes[key]] evaluates to: the node stored under the
    key, a member of [Object.prototype] (truthy, and no node), or
    [undefined]. *)
Inductive slot : Type :=
| Stored (n : node)
| Member
| Undefined.

Definition read (key : string) (t : tree) : slot :=
  match nodes t !! key with
  | Some n => Stored n
  | None => if inherited key then Member else Undefined
  end.

(** [addNode(node)].  Under a parent id that reads as a member of
    [Object.prototype] the code does not throw: it pushes the id onto a
    [children] array of that member and stores the node. *)
Definition addNode (n : node) (t : tree) : completion tree :=
  match validateNode n with
  | (_ :: _) as errors => Thrown ("Invalid node: " +:+ String.concat ", " errors)
  | [] =>
      match read (id n) t with
      | Stored _ | Member => Thrown ("Node already exists: " +:+ id n)
      | Undefined =>
          let parentId := parent_id n in
          if String.eqb parentId (root_id (root t)) then
            Returned {| root := set_root_children (root_children (root t) ++ [id n]) (root t);
                        nodes := <[id n := n]> (nodes t) |}
          else
            match read parentId t with
            | Stored p =>
                Returned {| root := root t;
                            nodes := <[id n := n]>
                                       (<[parentId := set_children (children p ++ [id n]) p]>
                                          (nodes t)) |}
            | Member => Outside
            | Undefined => Thrown ("Parent node not found: " +:+ parentId)
            end
      end
  end.

(** [cs.filter(cid => cid !== id)]. *)
Definition without (id : string) (cs : list string) : list string :=
  List.filter (fun cid => negb (String.eqb cid id)) cs.

(** The detaching step of removeNode: the reference to [id] is filtered
    out of the children of the parent named by the removed node.  A parent
    id that reads as a member of [Object.prototype] has the [children] of
    that member filtered. *)
Definition detach (id parentId : string) (t : tree) : completion tree :=
  if String.eqb parentId (root_id (root t)) then
    Returned {| root := set_root_children (without id (root_children (root t))) (root t);
                nodes := nodes t |}
  else
    match read parentId t with
    | Stored p =>
        Returned {| root := root t;
                    nodes := <[parentId := set_children (without id (children p)) p]> (nodes t) |}
    | Member => Outside
    | Undefined => Returned t
    end.

(** The loop [for (const childId of childIds) this.removeNode(childId)],
    over a recursive call [rec] that may run out of fuel ([None]). *)
Fixpoint removeEach (rec : string -> tree -> option (completion (bool * tree)))
    (childIds : list string) (t : tree) : option (completion tree) :=
  match childIds with
  | [] => Some (Returned t)
  | childId :: rest =>
      match rec childId t with
      | Some (Returned (_, t')) => removeEach rec rest t'
      | Some (Thrown e) => Some (Thrown e)
      | Some Outside => Some Outside
      | None => None
      end
  end.

(** [removeNode(id)]: the recursion over the children lists is bounded by
    [fuel], spent on each call that finds its node; [None] is a run that
    needs more.  An id that reads as a member of [Object.prototype] passes
    the test [if (!node) return false], and the code goes on with the
    [children] and the [parent_id] of that member. *)
Fixpoint removeNode (fuel : nat) (id : string) (t : tree)
    : option (completion (bool * tree)) :=
  match read id t with
  | Undefined => Some (Returned (false, t))
  | Member => Some Outside
  | Stored n =>
      match fuel with
      | O => None
      | S fuel' =>
          match removeEach (removeNode fuel') (children n) t with
          | None => None
          | Some (Thrown e) => Some (Thrown e)
          | Some Outside => Some Outside
          | Some (Returned t1) =>
              Some (bind (detach id (parent_id n) t1) (fun t2 =>
                    Returned (true, {| root := root t2; nodes := delete id (nodes t2) |})))
          end
      end
  end.

(** What getNode returns when it is not [null]: the root, a stored node,
    or the member of [Object.prototype] that the id names. *)
Inductive found : Type :=
| TheRoot (r : rootNode)
| ANode (n : node)
| AMember (key : string).

(** [getNode(id)]; [None] is [null]. *)
Definition getNode (id : string) (t : tree) : option found :=
  if String.eqb id (root_id (root t)) then Some (TheRoot (root t))
  else
    match read id t with
    | Stored n => Some (ANode n)
    | Member => Some (AMember id)
    | Undefined => None
    end.

Section WithClock.

(** [Date.now()], in milliseconds. *)
Variable now : Z.

(** [new Date(s).getTime()]; [None] is the NaN of an invalid date. *)
Variable Date_getTime : string -> option Z.

(** The test pruneStale applies to one node. *)
Definition isStale (threshold : Q) (n : node) : bool :=
  if String.eqb (status n) "pruned" then false
  else
    match last_triggered n with
    | None => false
    | Some s =>
        if String.eqb s "" then false
        else
          match Date_getTime s with
          | None => false
          | Some lastTriggered =>
              let elapsed := now - lastTriggered in
              let thresholdMs := (threshold * 24 * 60 * 60 * 1000)%Q in
              Qgt_bool (inject_Z elapsed) thresholdMs &&
              match v_score n with
              | None => true
              | Some v => v <? 40
              end
          end
    end.

(** [pruneStale(threshold)]: the ids marked, and the tree afterwards.  The
    ids come in the dictionary's enumeration order, which the model leaves
    unspecified. *)
Definition pruneStale (threshold : Q) (t : tree) : list string * tree :=
  (map fst (List.filter (fun kn => isStale threshold (snd kn)) (map_to_list (nodes t))),
   {| root := root t;
      nodes := (fun n => if isStale threshold n then set_status "pruned" n else n) <$> nodes t |}).

End WithClock.

(** Well-formed trees: the root id is not a node id, a child reference to
    a stored node agrees with that node's parent id, and the child
    references are acyclic ([height] decreases along them). *)
Record wellFormed (t : tree) : Prop := {
  wf_root_fresh : nodes t !! root_id (root t) = None;
  wf_root_children : forall c m,
      In c (root_children (root t)) -> nodes t !! c = Some m ->
      parent_id m = root_id (root t);
  wf_children : forall k n c m,
      nodes t !! k = Some n -> In c (children n) -> nodes t !! c = Some m ->
      parent_id m = k;
  wf_acyclic : exists height : string -> nat, forall k n c m,
      nodes t !! k = Some n -> In c (children n) -> nodes t !! c = Some m ->
      (height c < height k)%nat
}.

(** The tree the detaching step leaves where it returns. *)
Definition detached (id parentId : string) (t : tree) : tree :=
  match detach id parentId t with
  | Returned t' => t'
  | _ => t
  end.

(** The last two steps of removeNode: detaching and deleting. *)
Definition finish (id parentId : string) (t : tree) : tree :=
  {| root := root (detached id parentId t); nodes := delete id (nodes (detached id parentId t)) |}.

(** No stored node names a member of [Object.prototype] as its parent or
    as one of its children. *)
Definition ownKeyed (t : tree) : Prop :=
  forall k n, nodes t !! k = Some n ->
    inherited (parent_id n) = false /\ forall c, In c (children n) -> inherited c = false.

(** How a tree relates to the tree some removals later: nothing is added,
    a children list loses only references to removed nodes, and the nodes
    listed by a removed node are removed as well. *)
Record evolves (t t' : tree) : Prop := {
  ev_root_id : root_id (root t') = root_id (root t);
  ev_root_children : forall x,
      In x (root_children (root t')) -> In x (root_children (root t));
  ev_nodes : forall k n', nodes t' !! k = Some n' ->
      exists n, nodes t !! k = Some n /\ parent_id n' = parent_id n /\
                forall x, In x (children n') -> In x (children n);
  ev_live : forall k n n' x,
      nodes t !! k = Some n -> nodes t' !! k = Some n' -> In x (children n) ->
      In x (children n') \/ nodes t' !! x = None;
  ev_closed : forall k n c,
      nodes t !! k = Some n -> nodes t' !! k = None -> In c (children n) ->
      nodes t' !! c = None
}.

(** Every child reference names a stored node. *)
Definition resolved (t : tree) : Prop :=
  (forall c, In c (root_children (root t)) -> is_Some (nodes t !! c)) /\
  (forall k n c, nodes t !! k = Some n -> In c (children n) -> is_Some (nodes t !! c)).

(** [height] decreases along the child references of [t]. *)
Definition heightDecreases (h : string -> nat) (t : tree) : Prop :=
  forall k n c m,
    nodes t !! k = Some n -> In c (children n) -> nodes t !! c = Some m ->
    (h c < h k)%nat.

(** [descendant t a d]: [d] is reached from the node [a] of [t] along
    children lists. *)
Inductive descendant (t : tree) : string -> string -> Prop :=
| desc_child a n c : nodes t !! a = Some n -> In c (children n) -> descendant t a c
| desc_step a n c d :
    nodes t !! a = Some n -> In c (children n) -> descendant t c d -> descendant t a d.

(** The tree of the test suite: cap.a and cap.b under the root, cap.a.x
    under cap.a. *)
Definition testNodes : list node :=
  [ freshNode "cap.a" "A" "mid" "cap";
    freshNode "cap.b" "B" "mid" "cap";
    freshNode "cap.a.x" "AX" "low" "cap.a" ].

Fixpoint addAll (ns : list node) (t : tree) : completion tree :=
  match ns with
  | [] => Returned t
  | n :: rest => bind (addNode n t) (addAll rest)
  end.

Definition testTree : tree :=
  {| root := {| root_id := "cap"; root_name := "Root"; root_children := ["cap.a"; "cap.b"] |};
     nodes := <["cap.a.x" := freshNode "cap.a.x" "AX" "low" "cap.a"]>
              (<["cap.b" := freshNode "cap.b" "B" "mid" "cap"]>
               (<["cap.a" := set_children ["cap.a.x"] (freshNode "cap.a" "A" "mid" "cap")]> ∅)) |}.

(** A node last triggered at the instant [0] with a low value score, and
    the same tree with that node and a never-triggered one. *)
Definition oldNode : node :=
  {| id := "cap.old"; name := "Old"; level := "low"; parent_id := "cap";
     input := ""; output := ""; preconditions := []; failure_boundary := "";
     linked_genes := []; linked_skills := []; children := [];
     status := "active"; v_score := Some 10; last_triggered := Some "1970-01-01T00:00:00.000Z";
     trigger_count := 3 |}.

Definition agedTree : tree :=
  {| root := {| root_id := "cap"; root_name := "Root"; root_children := ["cap.old"; "cap.new"] |};
     nodes := <["cap.new" := freshNode "cap.new" "New" "low" "cap"]>
              (<["cap.old" := oldNode]> ∅) |}.

End CapabilityTree.

(** ** Reading aids for src/core/signals.js *)

Module SignalKinds.
Import JS Signals.

(** An entry the error loop of extractSignals counts: a native message
    that stopped with an error or carries an error message, or a
    simplified entry of level or type 'error'. *)
Definition isErrorEntry (e : entry) : bool :=
  (str_is (type e) "message" && isErrorMessage e) ||
  str_is (level e) "error" ||
  (str_is (type e) "error" && negb (message_truthy e)).

(** An entry the stagnation loop counts. *)
Definition isFailedMutation (e : entry) : bool :=
  mutation_applied e && solidify_failed e.

(** A simplified error entry. *)
Definition errorEntry (d : option string) : entry :=
  {| type := Some "error"; msg := NoMessage; level := Some "error"; detail := d;
     status := None; result := None; tool_name := None;
     mutation_applied := false; solidify_failed := false;
     name := None; customType := None; data_name := None |}.

(** The signals the loops after the error loop can add. *)
Definition laterSignal (x : string) : Prop :=
  x = "recurring_error" \/ x = "user_feature_request" \/
  x = "stable_success_plateau" \/ x = "repair_loop_detected" \/
  x = "evolution_stagnation" \/
  (exists tool, x = "high_tool_usage:" +:+ tool) \/
  (exists tool, x = "repeated_tool_usage:" +:+ tool) \/
  (exists name, x = "capability_candidate:" +:+ name).

(** The vocabulary of extractSignals. *)
Definition knownSignal (x : string) : Prop :=
  x = "log_error" \/ (exists d, x = "errsig:" +:+ d) \/ laterSignal x.

End SignalKinds.

(** ** Reading aids for src/tree/pruner.js *)

Module PrunerKinds.
Import JS Node Pruner.

Section WithClock.
Variable now : Z.
Variable Date_getTime : string -> option Z.

(** Untriggered for more than 60 days. *)
Definition isAuto (n : node) : bool :=
  days_gt (daysSinceTriggered now Date_getTime n) AUTO_PRUNE_DAYS.

(** Untriggered for more than 30 but not more than 60 days, with a value
    score that is unset or below 40. *)
Definition isCandidate (n : node) : bool :=
  negb (isAuto n) &&
  days_gt (daysSinceTriggered now Date_getTime n) CANDIDATE_PRUNE_DAYS &&
  match v_score n with
  | None => true
  | Some v => v <? PRUNE_VSCORE_THRESHOLD
  end.

End WithClock.

Definition notPruned (n : node) : bool := negb (String.eqb (status n) "pruned").

End PrunerKinds.

(** ** Queries and growth of src/tree/capability_tree.js, touchNode of src/tree/node.js *)

Module TreeQueries.
Import JS Node CapabilityTree.

(** [childIds.map(cid => this.data.nodes[cid]).filter(Boolean)]: the
    nodes stored under the ids.  An id that reads as a member of
    [Object.prototype] puts that member into the array. *)
Fixpoint collect (t : tree) (childIds : list string) : completion (list node) :=
  match childIds with
  | [] => Returned []
  | cid :: rest =>
      match read cid t with
      | Stored n => bind (collect t rest) (fun ns => Returned (n :: ns))
      | Member => Outside
      | Undefined => collect t rest
      end
  end.

(** [getChildren(id)]: the stored nodes the children list of [id] names.
    Under an id that reads as a member of [Object.prototype] the ids are
    taken from the [children] of that member. *)
Definition getChildren (id : string) (t : tree) : completion (list node) :=
  if String.eqb id (root_id (root t)) then collect t (root_children (root t))
  else
    match read id t with
    | Stored n => collect t (children n)
    | Member => Outside
    | Undefined => Returned []
    end.

(** The candidate parameters growNode passes on to createNode (the
    required ones). *)
Record candidate : Type := {
  cand_id : string;
  cand_name : string;
  cand_level : string
}.

(** [growNode(parentId, candidate)]: the new node and the tree afterwards.
    Whatever getNode answers that is not [null] passes the test of the
    parent, a member of [Object.prototype] included. *)
Definition growNode (parentId : string) (c : candidate) (t : tree) : completion (node * tree) :=
  match getNode parentId t with
  | None => Thrown ("Parent node not found: " +:+ parentId)
  | Some _ =>
      bind (createNode (cand_id c) (cand_name c) (cand_level c) parentId) (fun n =>
      bind (addNode n t) (fun t' => Returned (n, t')))
  end.

(** [touchNode(node)], with [iso] the result of [new Date().toISOString()]. *)
Definition touchNode (iso : string) (n : node) : node :=
  {| id := id n; name := name n; level := level n; parent_id := parent_id n;
     input := input n; output := output n; preconditions := preconditions n;
     failure_boundary := failure_boundary n; linked_genes := linked_genes n;
     linked_skills := linked_skills n; children := children n;
     status := status n; v_score := v_score n; last_triggered := Some iso;
     trigger_count := trigger_count n + 1 |}.

End TreeQueries.

(** ** Runs of cycles of src/pcec/cycle.js *)

Module PcecRuns.
Import JS Pcec.

(** The value of the module's stagnation counter after the cycles [cs]
    were completed one after the other. *)
Definition completeAll (now : string) (cs : list cycle) (stagnantCount : nat) : nat :=
  fold_left (fun count c => snd (complete now c count)) cs stagnantCount.

(** The outcome addOutcome stores for an input object. *)
Definition stored (now : string) (o : outcomeInput) : outcome :=
  {| type := orElse (in_type o) "unknown";
     description := orElse (in_description o) "";
     added_at := now |}.

(** Whether one stored outcome counts: recognized type, and a description
    that passes the filter. *)
Definition counts (o : outcome) : bool :=
  Set_has (type o) SUBSTANTIVE_TYPES && hasSubstance o.

End PcecRuns.

(** ** createMutation and checkStrategyAllowance of src/gep/mutation.js *)

Module MutationOps.
Import JS Mutation Signals.

(** The parameter object of createMutation; an absent [category] is
    [None], an absent [target] or [expected_effect] reads as the empty
    string. *)
Record params : Type := {
  p_category : option string;
  p_trigger_signals : option (list string);
  p_target : string;
  p_expected_effect : string;
  p_gene_id : option string
}.

(** What [RISK_MAP[category]] evaluates to in createMutation: the level
    of one of the three categories, a member of [Object.prototype]
    (truthy, and no level), or [undefined]. *)
Inductive riskEntry : Type :=
| Level (level : string)
| RiskMember
| NoRisk.

Definition riskOf (category : string) : riskEntry :=
  match RISK_MAP category with
  | Some level => Level level
  | None => if inherited category then RiskMember else NoRisk
  end.

(** The proposal createMutation returns: the fields assessRisk reads, the
    declared risk level and the creation time. *)
Record proposal : Type := {
  proposed : mutation;
  risk_level : riskEntry;
  created_at : string
}.

(** [createMutation(params)], with [now] the result of
    [new Date().toISOString()]. *)
Definition createMutation (now : string) (p : params) : completion proposal :=
  match p_category p with
  | None => Thrown "Invalid mutation category: undefined"
  | Some c =>
      match (if String.eqb c "" then NoRisk else riskOf c) with
      | NoRisk => Thrown ("Invalid mutation category: " +:+ c)
      | level =>
          if String.eqb (p_target p) "" then Thrown "Mutation must have a target"
          else if String.eqb (p_expected_effect p) ""
          then Thrown "Mutation must have an expected_effect"
          else Returned
            {| proposed :=
                 {| category := c;
                    trigger_signals := match p_trigger_signals p with
                                       | Some l => l
                                       | None => []
                                       end;
                    target := p_target p;
                    expected_effect := p_expected_effect p;
                    gene_id := match p_gene_id p with
                               | Some g => if String.eqb g "" then None else Some g
                               | None => None
                               end |};
               risk_level := level;
               created_at := now |}
      end
  end.

(** The four ways checkStrategyAllowance returns; the reason text is the
    one of the return statement taken. *)
Inductive verdict : Type :=
| UnknownCategory
| Forbidden
| RatioExceeded (count : Z)
| Allowed.

Definition allowed (v : verdict) : bool :=
  match v with
  | Allowed => true
  | _ => false
  end.

(** [counts[category]] after the loop over the last ten mutations: the
    three categories start at zero, any other key is [undefined] ([None])
    until a mutation carries it. *)
Definition countOf (category : string) (window : list mutation) : option Z :=
  let n := length (List.filter (fun m => String.eqb (Mutation.category m) category) window) in
  if (n =? 0)%nat && negb (Set_has category ["repair"; "optimize"; "innovate"])
  then None
  else Some (Z.of_nat n).

(** What [strategyWeights[category]] holds: nothing that counts
    ([undefined], or another falsy value that is not zero), a number, or
    a truthy value that is no number and converts to none (a description
    text, say). *)
Inductive slot : Type :=
| Absent
| Num (weight : Q)
| Truthy.

Section WithArithmetic.

(** [count / 10 > weight / 100 + 0.2], as the floating-point arithmetic
    decides it. *)
Variable exceeds : Z -> Q -> bool.

(** [checkStrategyAllowance(category, strategyWeights, recentMutations)].
    Against a weight that is not a number the ratio test compares with
    NaN and never fires. *)
Definition checkStrategyAllowance (category : string)
    (strategyWeights : string -> slot) (recentMutations : list mutation) : verdict :=
  match strategyWeights category with
  | Absent => UnknownCategory
  | Truthy => Allowed
  | Num weight =>
      if Qeq_bool weight 0 then Forbidden
      else if (10 <=? length recentMutations)%nat then
        match countOf category (lastN 10 recentMutations) with
        | Some count => if exceeds count weight then RatioExceeded count else Allowed
        | None => Allowed
        end
      else Allowed
  end.

End WithArithmetic.

(** Whether the strategy holds something other than zero under the key. *)
Definition nonZero (s : slot) : bool :=
  match s with
  | Absent => false
  | Num weight => negb (Qeq_bool weight 0)
  | Truthy => true
  end.

End MutationOps.

(** ** src/adl/lock.js *)

Module Lock.
Import JS Mutation Signals.
Local Open Scope Q_scope.

Definition VAGUE_TERMS : list string :=
  ["某种程度上"; "可能是一种"; "从更高维度"; "本质上是";
   "essentially"; "in some way"; "to some extent"].

(** An entry of the capsule history: whether [c.success === true]. *)
Record capsuleRecord : Type := { success : bool }.

(** The inner [successRate(items)]. *)
Definition successRate (items : list capsuleRecord) : Q :=
  match items with
  | [] => 1
  | _ :: _ =>
      inject_Z (Z.of_nat (length (List.filter success items))) /
      inject_Z (Z.of_nat (length items))
  end.

(** [arr.slice(-10, -5)]. *)
Definition sliceBefore {A : Type} (l : list A) : list A :=
  firstn ((length l - 5) - (length l - 10)) (skipn (length l - 10) l).

Definition hasStabilityRegression (capsuleHistory : list capsuleRecord) : bool :=
  if (length capsuleHistory <? 10)%nat then false
  else
    let recent := lastN 5 capsuleHistory in
    let previous := sliceBefore capsuleHistory in
    Qlt_bool (successRate recent) (successRate previous * (9 # 10)).

(** The [length] of a string: its number of UTF-16 code units, counted on
    the UTF-8 bytes (a continuation byte counts for none, the lead byte of
    a four-byte sequence for two). *)
Fixpoint utf16_length (s : string) : nat :=
  match s with
  | EmptyString => 0
  | String c rest =>
      let n := nat_of_ascii c in
      ((if (n <? 128)%nat then 1
        else if (n <? 192)%nat then 0
        else if (n <? 240)%nat then 1
        else 2) + utf16_length rest)%nat
  end.

(** [checkADL(mutation, blast, capsuleHistory)]: the violations, in the
    order they are pushed; [ok] is their absence.  [blast] is [None] when
    it is missing. *)
Definition checkADL (m : mutation) (b : option blast) (capsuleHistory : list capsuleRecord)
    : list string :=
  (if String.eqb (category m) "innovate" &&
      match b with Some b => (20 <? files b)%Z | None => false end
   then ["complexity_increase_without_justification"] else []) ++
  (if String.eqb (expected_effect m) "" ||
      (utf16_length (trim (expected_effect m)) <? 10)%nat
   then ["unverifiable_evolution"] else []) ++
  (if negb (String.eqb (expected_effect m) "") &&
      existsb (fun term => includes (toLowerCase (expected_effect m)) (toLowerCase term))
              VAGUE_TERMS
   then ["vague_concept_detected"] else []) ++
  (if hasStabilityRegression capsuleHistory then ["stability_regression"] else []) ++
  (match gene_id m with
   | Some g => if String.eqb g "" then ["no_rollback_path"] else []
   | None => ["no_rollback_path"]
   end).

Definition ok (violations : list string) : bool :=
  (length violations =? 0)%nat.

(** The number of successful entries. *)
Definition successes (items : list capsuleRecord) : nat :=
  length (List.filter success items).

End Lock.

(** ** src/adl/rollback.js *)

Module Rollback.
Import JS.

Definition PROTECTED_PATHS : list string :=
  ["package.json"; "SKILL.md"; "assets/"; ".git/"; "node_modules/"].

(** [filePath.replace(/\\/g, '/')]. *)
Fixpoint slashes (s : string) : string :=
  match s with
  | EmptyString => EmptyString
  | String c rest =>
      String (if (nat_of_ascii c =? 92)%nat then "/"%char else c) (slashes rest)
  end.

(** The body of the loop of isProtected for one protected path. *)
Definition protects (protectedPath normalized : string) : bool :=
  if endsWith protectedPath "/" then
    startsWith normalized protectedPath || startsWith normalized ("./" +:+ protectedPath)
  else
    String.eqb normalized protectedPath || String.eqb normalized ("./" +:+ protectedPath) ||
    endsWith normalized ("/" +:+ protectedPath).

Definition isProtected (filePath : string) : bool :=
  if String.eqb filePath "" then false
  else existsb (fun protectedPath => protects protectedPath (slashes filePath)) PROTECTED_PATHS.

(** What rollback does to the working directory, in order. *)
Inductive action : Type :=
| GitCheckout (file : string)
| Unlink (file : string).

Record outcome : Type := {
  success : bool;
  restored : list string;
  deleted : list string;
  errors : list string
}.

Section WithWorkDir.

(** The working directory: its states, and the two commands rollback runs
    on it, each giving the state afterwards and the message of the
    exception if it throws. *)
Variable state : Type.
Variable git_checkout : state -> string -> state * option string.
Variable unlinkSync : state -> string -> state * option string.

(** The running values of the first loop: state, actions so far,
    [restored], [errors]. *)
Definition restoreStep (acc : state * list action * list string * list string) (file : string)
    : state * list action * list string * list string :=
  let '(s, done, restored, errors) := acc in
  match git_checkout s file with
  | (s', None) => (s', done ++ [GitCheckout file], restored ++ [file], errors)
  | (s', Some message) =>
      (s', done ++ [GitCheckout file], restored,
       errors ++ ["restore " +:+ file +:+ ": " +:+ message])
  end.

(** The running values of the second loop: state, actions so far,
    [deleted], [errors]. *)
Definition deleteStep (acc : state * list action * list string * list string) (file : string)
    : state * list action * list string * list string :=
  let '(s, done, deleted, errors) := acc in
  if isProtected file then (s, done, deleted, errors ++ ["skip protected: " +:+ file])
  else
    match unlinkSync s file with
    | (s', None) => (s', done ++ [Unlink file], deleted ++ [file], errors)
    | (s', Some message) =>
        (s', done ++ [Unlink file], deleted,
         errors ++ ["delete " +:+ file +:+ ": " +:+ message])
    end.

(** [rollback(workDir, changedFiles, newFiles)]: the result, the actions
    performed and the working directory afterwards. *)
Definition rollback (s : state) (changedFiles newFiles : list string)
    : outcome * list action * state :=
  let '(s1, done1, restored, errors1) :=
    fold_left restoreStep changedFiles (s, [], [], []) in
  let '(s2, done2, deleted, errors2) :=
    fold_left deleteStep newFiles (s1, done1, [], errors1) in
  ({| success := (length errors2 =? 0)%nat;
      restored := restored;
      deleted := deleted;
      errors := errors2 |}, done2, s2).

(** What holds after the first loop went through [seen]. *)
Definition restoreInv (seen : list string)
    (acc : state * list action * list string * list string) : Prop :=
  let '(_, done, restored, errors) := acc in
  (forall a, In a done -> exists f, a = GitCheckout f /\ In f seen) /\
  (length restored + length errors = length seen)%nat /\
  (errors = [] -> restored = seen).

(** What holds after the second loop went through [seen], started with
    the actions [done1] and the errors [errors1]. *)
Definition deleteInv (done1 : list action) (errors1 seen : list string)
    (acc : state * list action * list string * list string) : Prop :=
  let '(_, done, deleted, errors) := acc in
  (forall a, In a done -> In a done1 \/
     exists f, a = Unlink f /\ In f seen /\ isProtected f = false) /\
  (forall f, In f deleted -> In f seen /\ isProtected f = false) /\
  (length deleted + length errors = length errors1 + length seen)%nat /\
  (length errors1 <= length errors)%nat /\
  (length errors = length errors1 -> deleted = seen) /\
  ((exists f, In f seen /\ isProtected f = true) -> (length errors1 < length errors)%nat).

End WithWorkDir.

End Rollback.

(** ** src/strategy.js *)

Module Strategy.
Import JS Mutation Signals MutationOps.
Local Open Scope Q_scope.

Record strategyConfig : Type := {
  innovate : Q;
  optimize : Q;
  repair : Q;
  description : string
}.

Definition STRATEGIES : list (string * strategyConfig) :=
  [ ("balanced", {| innovate := 50; optimize := 30; repair := 20;
                    description := "日常运行" |});
    ("innovate", {| innovate := 80; optimize := 15; repair := 5;
                    description := "系统稳定，快速创新" |});
    ("harden", {| innovate := 20; optimize := 40; repair := 40;
                  description := "大改后聚焦稳固" |});
    ("repair-only", {| innovate := 0; optimize := 20; repair := 80;
                       description := "紧急修复" |});
    ("early-stabilize", {| innovate := 10; optimize := 30; repair := 60;
                           description := "早期稳定化（前5周期自动）" |});
    ("steady-state", {| innovate := 40; optimize := 40; repair := 20;
                        description := "稳态运行" |}) ].

(** [STRATEGIES[name]], on the keys the table defines. *)
Fixpoint lookup (name : string) (table : list (string * strategyConfig))
    : option strategyConfig :=
  match table with
  | [] => None
  | (key, config) :: rest => if String.eqb key name then Some config else lookup name rest
  end.

Definition quote : string := String (ascii_of_nat 34) EmptyString.

Definition getStrategy (name : string) : completion strategyConfig :=
  match lookup name STRATEGIES with
  | Some strategy => Returned strategy
  | None =>
      Thrown ("Unknown strategy " +:+ quote +:+ name +:+ quote +:+ ". Valid strategies: " +:+
              String.concat ", " (map fst STRATEGIES))
  end.

(** A strategy configuration read as the weights object
    checkStrategyAllowance receives. *)
Definition weightsOf (config : strategyConfig) (key : string) : slot :=
  if String.eqb key "innovate" then Num (innovate config)
  else if String.eqb key "optimize" then Num (optimize config)
  else if String.eqb key "repair" then Num (repair config)
  else if String.eqb key "description"
       then (if String.eqb (description config) "" then Absent else Truthy)
  else Absent.

(** An entry of the event history, as autoDetectStrategy reads it:
    [cycle] and [solidify_success] only for being defined,
    [mutation_applied] for its truthiness, [solidify_failed] for both. *)
Record historyEvent : Type := {
  ev_type : option string;
  ev_cycle_defined : bool;
  ev_mutation_applied : bool;
  ev_result : option string;
  ev_solidify_failed : option bool;
  ev_solidify_success_defined : bool
}.

Definition isCycleEvent (e : historyEvent) : bool :=
  str_is (ev_type e) "cycle_complete" || ev_cycle_defined e.

Definition noOutput (e : historyEvent) : bool :=
  negb (ev_mutation_applied e) || str_is (ev_result e) "no_change" ||
  str_is (ev_result e) "skipped".

Definition isSolidifyAttempt (e : historyEvent) : bool :=
  match ev_solidify_failed e with
  | Some _ => true
  | None => ev_solidify_success_defined e
  end.

Definition solidifyFailed (e : historyEvent) : bool :=
  match ev_solidify_failed e with
  | Some truthy => truthy
  | None => false
  end.

Definition autoDetectStrategy (events : list historyEvent) : string :=
  let cycleEvents := List.filter isCycleEvent events in
  let totalCycles :=
    if (length cycleEvents =? 0)%nat then length events else length cycleEvents in
  if (totalCycles <? 5)%nat then "early-stabilize"
  else
    let recentEvents := lastN 5 events in
    if forallb noOutput recentEvents then "innovate"
    else
      let recentWindow := lastN 10 events in
      let solidifyAttempts := List.filter isSolidifyAttempt recentWindow in
      let failRatio :=
        inject_Z (Z.of_nat (length (List.filter solidifyFailed solidifyAttempts))) /
        inject_Z (Z.of_nat (length solidifyAttempts)) in
      if (0 <? length solidifyAttempts)%nat && Qgt_bool failRatio (4 # 10) then "repair-only"
      else if (0 <? length solidifyAttempts)%nat && Qgt_bool failRatio (2 # 10) then "harden"
      else "balanced".

End Strategy.

(** ** parseJSONL of src/core/signals.js *)

Module SessionLog.
Import JS Store.

(** [Boolean(v)] on a parsed JSON value. *)
Definition truthyJson (v : json) : bool :=
  match v with
  | JNull => false
  | JBool b => b
  | JNumber q => negb (Qeq_bool q 0)
  | JString s => negb (String.eqb s "")
  | JArray _ => true
  | JObject _ => true
  end.

Section WithParser.

(** [JSON.parse]: [None] stands for the [SyntaxError] it throws. *)
Variable JSON_parse : string -> option json.

(** [parseJSONL(content)] of src/core/signals.js: a line that does not
    parse becomes [null] and is dropped with the other falsy values. *)
Definition parseJSONL (content : string) : list json :=
  if String.eqb content "" || String.eqb (trim content) "" then []
  else
    List.filter truthyJson
      (omap JSON_parse (filterNonEmpty (splitOn is_newline (trim content)))).

End WithParser.

End SessionLog.

(** ** createGene and validateGene of src/gep/gene.js *)

Module GeneOps.
Import JS Gep.

(** The parameter object of createGene; [None] is an absent field, and for
    the two required lists also a value that is not an array. *)
Record params : Type := {
  p_id : option string;
  p_category : option string;
  p_signals_match : option (list string);
  p_preconditions : option (list string);
  p_strategy : option (list string);
  p_max_files : option Z;
  p_forbidden_paths : option (list string);
  p_validation : option (list string);
  p_capability_node_id : option string;
  p_v_score : option Z
}.

(** The object createGene returns: the gene, its [type] tag, its score and
    its creation time. *)
Record geneObject : Type := {
  type : string;
  body : gene;
  v_score : option Z;
  created_at : string
}.

Definition CATEGORIES : list string := ["repair"; "optimize"; "innovate"].

Definition orEmpty (l : option (list string)) : list string :=
  match l with
  | Some l => l
  | None => []
  end.

(** [v || null] on an optional string. *)
Definition orNull (v : option string) : option string :=
  match v with
  | Some s => if String.eqb s "" then None else Some s
  | None => None
  end.

(** [createGene(params)], with [uuid8] the first eight characters of
    [crypto.randomUUID()] and [now] the result of
    [new Date().toISOString()]. *)
Definition createGene (uuid8 now : string) (p : params) : completion geneObject :=
  match p_category p with
  | None => Thrown "Invalid gene category: undefined"
  | Some c =>
      if String.eqb c "" || negb (Set_has c CATEGORIES)
      then Thrown ("Invalid gene category: " +:+ c)
      else
        match p_signals_match p with
        | None | Some [] => Thrown "Gene must have at least one signal_match"
        | Some signals_match =>
            match p_strategy p with
            | None | Some [] => Thrown "Gene must have at least one strategy step"
            | Some strategy =>
                Returned
                  {| type := "Gene";
                     body :=
                       {| gene_id := match orNull (p_id p) with
                                     | Some id => id
                                     | None => "gene_" +:+ uuid8
                                     end;
                          category := c;
                          signals_match := signals_match;
                          preconditions := orEmpty (p_preconditions p);
                          strategy := strategy;
                          max_files := Some (match p_max_files p with
                                             | Some n => n
                                             | None => 12%Z
                                             end);
                          forbidden_paths := match p_forbidden_paths p with
                                             | Some l => l
                                             | None => [".git"; "node_modules"]
                                             end;
                          validation := orEmpty (p_validation p);
                          capability_node_id := orNull (p_capability_node_id p) |};
                     v_score := p_v_score p;
                     created_at := now |}
            end
        end
  end.

Definition quote : string := String (ascii_of_nat 34) EmptyString.

(** The errors validateGene collects. *)
Definition validateGene (g : geneObject) : list string :=
  (if String.eqb (type g) "Gene" then [] else ["type must be " +:+ quote +:+ "Gene" +:+ quote]) ++
  (if String.eqb (gene_id (body g)) "" then ["id is required"] else []) ++
  (if Set_has (category (body g)) CATEGORIES then []
   else ["invalid category: " +:+ category (body g)]) ++
  (match signals_match (body g) with
   | [] => ["signals_match must be non-empty array"]
   | _ :: _ => []
   end) ++
  (match strategy (body g) with
   | [] => ["strategy must be non-empty array"]
   | _ :: _ => []
   end).

End GeneOps.

(** ** src/personality.js *)

Module Personality.
Import JS.
Local Open Scope Q_scope.

Definition MOODS : list string := ["curious"; "focused"; "cautious"; "restless"; "confident"].

Record personality : Type := {
  mood : string;
  confidence : Q;
  risk_appetite : Q;
  focus_area : option string;
  last_updated : string
}.

(** The feedback object: the truthiness of [success], the category, and
    the streak ([None] when undefined). *)
Record feedback : Type := {
  fb_success : bool;
  fb_category : option string;
  fb_streak : option Z
}.

(** [updatePersonality(personality, feedback)], with [now] the result of
    [new Date().toISOString()]. *)
Definition updatePersonality (now : string) (p : personality) (fb : feedback) : personality :=
  let '(mood1, confidence1, risk1) :=
    if fb_success fb then
      let confidence1 := Qmin 1 (confidence p + (5 # 100)) in
      if match fb_category fb with
         | Some c => String.eqb c "innovate"
         | None => false
         end
      then ("confident", confidence1, Qmin 1 (risk_appetite p + (3 # 100)))
      else ("focused", confidence1, risk_appetite p)
    else
      ("cautious", Qmax 0 (confidence p - (8 # 100)), Qmax 0 (risk_appetite p - (5 # 100))) in
  let '(mood2, risk2) :=
    match fb_streak fb with
    | None => (mood1, risk1)
    | Some streak =>
        if (3 <=? streak)%Z && negb (fb_success fb)
        then ("restless", Qmin 1 (risk1 + (1 # 10)))
        else if (5 <=? streak)%Z && fb_success fb
        then ("curious", Qmin 1 (risk1 + (5 # 100)))
        else (mood1, risk1)
    end in
  {| mood := mood2; confidence := confidence1; risk_appetite := risk2;
     focus_area := focus_area p; last_updated := now |}.

(** [suggestFromPersonality(personality)]: preferCategory and strategyHint. *)
Definition suggestFromPersonality (p : personality) : option string * option string :=
  if String.eqb (mood p) "restless" && Qgt_bool (risk_appetite p) (6 # 10)
  then (Some "innovate", Some "innovate")
  else if String.eqb (mood p) "cautious" && Qlt_bool (confidence p) (3 # 10)
  then (Some "repair", Some "harden")
  else if String.eqb (mood p) "confident" && Qgt_bool (risk_appetite p) (7 # 10)
  then (Some "innovate", None)
  else (None, None).

End Personality.

(** ** mergeNodes of src/tree/capability_tree.js *)

Module TreeMerge.
Import JS Node CapabilityTree.

Definition set_linked_genes (gs : list string) (n : node) : node :=
  {| id := id n; name := name n; level := level n; parent_id := parent_id n;
     input := input n; output := output n; preconditions := preconditions n;
     failure_boundary := failure_boundary n; linked_genes := gs;
     linked_skills := linked_skills n; children := children n;
     status := status n; v_score := v_score n; last_triggered := last_triggered n;
     trigger_count := trigger_count n |}.

Definition set_linked_skills (ss : list string) (n : node) : node :=
  {| id := id n; name := name n; level := level n; parent_id := parent_id n;
     input := input n; output := output n; preconditions := preconditions n;
     failure_boundary := failure_boundary n; linked_genes := linked_genes n;
     linked_skills := ss; children := children n;
     status := status n; v_score := v_score n; last_triggered := last_triggered n;
     trigger_count := trigger_count n |}.

Definition set_parent_id (p : string) (n : node) : node :=
  {| id := id n; name := name n; level := level n; parent_id := p;
     input := input n; output := output n; preconditions := preconditions n;
     failure_boundary := failure_boundary n; linked_genes := linked_genes n;
     linked_skills := linked_skills n; children := children n;
     status := status n; v_score := v_score n; last_triggered := last_triggered n;
     trigger_count := trigger_count n |}.

(** [const set = new Set(a); for (const x of b) set.add(x); [...set]]. *)
Definition union (a b : list string) : list string :=
  fold_left (fun acc x => Set_add x acc) b (Set_of a).

(** The object a variable refers to, read in the node dictionary under
    the key it was taken from.  The objects mergeNodes holds stay in the
    dictionary until its last statement, so [fallback] is never used. *)
Definition deref (m : gmap string node) (key : string) (fallback : node) : node :=
  match m !! key with
  | Some n => n
  | None => fallback
  end.

(** One round of the loop over the children of the merged node; the
    nodes are mutated in place, that is, under their keys.  A child id
    that reads as a member of [Object.prototype] has the [parent_id] of
    that member assigned. *)
Definition adopt (keeperKey : string) (fallback : node)
    (m : gmap string node) (childId : string) : completion (gmap string node) :=
  match m !! childId with
  | None => if inherited childId then Outside else Returned m
  | Some _ =>
      let m1 := alter (set_parent_id (id (deref m keeperKey fallback))) childId m in
      let keeper := deref m1 keeperKey fallback in
      if Set_has childId (children keeper) then Returned m1
      else Returned (alter (set_children (children keeper ++ [childId])) keeperKey m1)
  end.

(** The loop [for (const childId of mergedChildren)]. *)
Fixpoint adoptAll (keeperKey : string) (fallback : node)
    (mergedChildren : list string) (m : gmap string node) : completion (gmap string node) :=
  match mergedChildren with
  | [] => Returned m
  | childId :: rest =>
      bind (adopt keeperKey fallback m childId) (adoptAll keeperKey fallback rest)
  end.

(** The body of mergeNodes once keeper and merged node are told apart:
    the keeper is the object stored under [keeperKey], the merged node the
    one under [mergedKey]. *)
Definition mergeInto (keeperKey mergedKey : string) (fallback : node) (t : tree)
    : completion (node * tree) :=
  let m0 := nodes t in
  let m1 :=
    alter (set_linked_genes
             (union (linked_genes (deref m0 keeperKey fallback))
                    (linked_genes (deref m0 mergedKey fallback))))
          keeperKey m0 in
  let m2 :=
    alter (set_linked_skills
             (union (linked_skills (deref m1 keeperKey fallback))
                    (linked_skills (deref m1 mergedKey fallback))))
          keeperKey m1 in
  let mergedChildren := children (deref m2 mergedKey fallback) in
  bind (adoptAll keeperKey fallback mergedChildren m2) (fun m3 =>
  let merged := deref m3 mergedKey fallback in
  bind (detach (id merged) (parent_id merged) {| root := root t; nodes := m3 |}) (fun t4 =>
  Returned (deref (nodes t4) keeperKey fallback,
            {| root := root t4; nodes := delete (id merged) (nodes t4) |}))).

(** [mergeNodes(id1, id2)]: the keeper returned and the tree afterwards.
    An id that reads as a member of [Object.prototype] passes the test
    [if (!node1) throw], and the code goes on with the properties of that
    member. *)
Definition mergeNodes (id1 id2 : string) (t : tree) : completion (node * tree) :=
  match read id1 t with
  | Undefined => Thrown ("Node not found: " +:+ id1)
  | slot1 =>
      match read id2 t with
      | Undefined => Thrown ("Node not found: " +:+ id2)
      | slot2 =>
          match slot1, slot2 with
          | Stored node1, Stored node2 =>
              if (trigger_count node2 <=? trigger_count node1)%Z
              then mergeInto id1 id2 node1 t
              else mergeInto id2 id1 node1 t
          | _, _ => Outside
          end
      end
  end.


End TreeMerge.

(** ** Properties of src/gep/mutation.js *)

Section MutationProps.
Import Mutation.

Lemma RISK_MAP_table :
  RISK_MAP "repair" = Some "low" /\
  RISK_MAP "optimize" = Some "low-medium" /\
  RISK_MAP "innovate" = Some "medium".
Proof. repeat split. Qed.

(** C1, as the claim states it, fails: a repair mutation touching 2 files
    and 600 lines keeps the base risk 'low'; the line rule only warns. *)
Lemma assessRisk_lines_do_not_escalate :
  assessRisk {| category := "repair"; trigger_signals := []; target := "t";
                expected_effect := "e"; gene_id := None |}
             {| files := 2; lines := 600 |}
  = {| risk := Some "low"; warnings := ["Large change: 600 lines"] |}.
Proof. vm_compute. reflexivity. Qed.

(** C1 (amended): assessRisk starts from the category's base risk; more than
    10 files escalate to 'medium' with a warning; more than 500 lines append
    a warning and leave the risk as it is; for 'innovate', more than 5 files
    escalate and warn; with none of the file rules firing the base risk is
    returned. *)
Theorem assessRisk_spec (m : mutation) (b : blast) :
  let r := assessRisk m b in
  (10 < files b -> risk r = Some "medium" /\ In (warn_files b) (warnings r)) /\
  (500 < lines b -> In (warn_lines b) (warnings r)) /\
  (category m = "innovate" -> 5 < files b ->
     risk r = Some "medium" /\ In warn_innovate (warnings r)) /\
  (files b <= 10 -> ~ (category m = "innovate" /\ 5 < files b) ->
     risk r = RISK_MAP (category m)) /\
  (files b <= 10 -> lines b <= 500 -> ~ (category m = "innovate" /\ 5 < files b) ->
     warnings r = []).
Proof.
  unfold assessRisk; cbn zeta.
  destruct (Z.ltb_spec 10 (files b)) as [Hf|Hf];
  destruct (Z.ltb_spec 500 (lines b)) as [Hl|Hl];
  destruct (String.eqb_spec (category m) "innovate") as [Hc|Hc];
  destruct (Z.ltb_spec 5 (files b)) as [H5|H5]; cbn;
  repeat split; intros; try lia; try tauto; try congruence;
  rewrite ?in_app_iff; cbn; tauto.
Qed.

(** An innovate mutation over 12 files and 600 lines: every rule fires. *)
Lemma assessRisk_spec_witness :
  let m := {| category := "innovate"; trigger_signals := []; target := "t";
              expected_effect := "e"; gene_id := None |} in
  let b := {| files := 12; lines := 600 |} in
  (risk (assessRisk m b) = Some "medium" /\ In (warn_files b) (warnings (assessRisk m b))) /\
  In (warn_lines b) (warnings (assessRisk m b)) /\
  (risk (assessRisk m b) = Some "medium" /\ In warn_innovate (warnings (assessRisk m b))).
Proof.
  cbn zeta.
  pose proof (assessRisk_spec
                {| category := "innovate"; trigger_signals := []; target := "t";
                   expected_effect := "e"; gene_id := None |}
                {| files := 12; lines := 600 |}) as H.
  cbn zeta in H. destruct H as (H1 & H2 & H3 & _).
  split; [apply H1; cbn; lia|]. split; [apply H2; cbn; lia|].
  apply H3; [reflexivity | cbn; lia].
Defined.

End MutationProps.

(** ** Properties of src/gep/store.js *)

Section StoreProps.
Import JS Store.

Lemma readJSON_unparsable parse (fs : gmap string string) name content :
  fs !! name = Some content ->
  trim content <> "" ->
  parse (trim content) = None ->
  readJSON parse fs name = Thrown SyntaxError.
Proof.
  intros Hf Hne Hp. unfold readJSON. rewrite Hf. cbn zeta.
  destruct (String.eqb_spec (trim content) "") as [E|_]; [contradiction|].
  now rewrite Hp.
Qed.

Lemma readJSON_missing_or_blank parse (fs : gmap string string) name :
  (fs !! name = None \/ exists content, fs !! name = Some content /\ trim content = "") ->
  readJSON parse fs name = Returned (emptyFor name).
Proof.
  intros [Hf | (content & Hf & Hb)]; unfold readJSON; rewrite Hf; [reflexivity|].
  cbn zeta. now rewrite Hb.
Qed.

Lemma parseLines_unparsable parse ls :
  Exists (fun l => parse l = None) ls -> parseLines parse ls = Thrown SyntaxError.
Proof.
  induction 1 as [l rest Hl | l rest _ IH]; cbn.
  - now rewrite Hl.
  - destruct (parse l); [|reflexivity]. now rewrite IH.
Qed.

(** C2, as the claim states it, fails: a genes.json holding the unparsable
    text [{oops] makes loadGenes throw the parser's SyntaxError, and so do
    the other three loaders on such content; none returns an empty
    collection. *)
Lemma load_corrupt_store_throws :
  let fs : gmap string string :=
    {[ "genes.json" := "{oops"; "capsules.json" := "{oops";
       "events.jsonl" := "{oops"; "capability_tree.json" := "{oops" ]} in
  parse_empty_only "{oops" = None /\
  loadGenes parse_empty_only fs = Thrown SyntaxError /\
  loadCapsules parse_empty_only fs = Thrown SyntaxError /\
  loadEvents parse_empty_only fs = Thrown SyntaxError /\
  loadCapabilityTree parse_empty_only fs = Thrown SyntaxError.
Proof. vm_compute. repeat split. Qed.

(** C2 (amended): for each of the four stores, a store file that is missing
    or blank loads as an empty collection, while a file whose (trimmed,
    non-blank) content the JSON parser rejects makes the loader throw the
    parser's SyntaxError: loadGenes, loadCapsules and loadCapabilityTree on
    unparsable content, and loadEvents as soon as one non-empty line is
    unparsable. *)
Theorem load_store_corruption (JSON_parse : string -> option json) (fs : gmap string string) :
  let blank name :=
    fs !! name = None \/ exists content, fs !! name = Some content /\ trim content = "" in
  let corrupt name :=
    exists content, fs !! name = Some content /\ trim content <> "" /\
                    JSON_parse (trim content) = None in
  let corrupt_lines name :=
    exists content, fs !! name = Some content /\ trim content <> "" /\
      Exists (fun l => JSON_parse l = None)
             (filterNonEmpty (splitOn is_newline (trim content))) in
  (blank "genes.json" -> loadGenes JSON_parse fs = Returned (JArray [])) /\
  (blank "capsules.json" -> loadCapsules JSON_parse fs = Returned (JArray [])) /\
  (blank "events.jsonl" -> loadEvents JSON_parse fs = Returned []) /\
  (blank "capability_tree.json" -> loadCapabilityTree JSON_parse fs = Returned (JArray [])) /\
  (corrupt "genes.json" -> loadGenes JSON_parse fs = Thrown SyntaxError) /\
  (corrupt "capsules.json" -> loadCapsules JSON_parse fs = Thrown SyntaxError) /\
  (corrupt_lines "events.jsonl" -> loadEvents JSON_parse fs = Thrown SyntaxError) /\
  (corrupt "capability_tree.json" -> loadCapabilityTree JSON_parse fs = Thrown SyntaxError).
Proof.
  cbn zeta.
  repeat match goal with |- _ /\ _ => split end;
    unfold loadGenes, loadCapsules, loadEvents, loadCapabilityTree.
  - intros H. now rewrite (readJSON_missing_or_blank _ _ _ H).
  - intros H. now rewrite (readJSON_missing_or_blank _ _ _ H).
  - intros [Hf | (content & Hf & Hb)]; unfold readJSONL; rewrite Hf; [reflexivity|].
    cbn zeta. now rewrite Hb.
  - intros H. now rewrite (readJSON_missing_or_blank _ _ _ H).
  - intros (content & Hf & Hne & Hp). eapply readJSON_unparsable; eauto.
  - intros (content & Hf & Hne & Hp). eapply readJSON_unparsable; eauto.
  - intros (content & Hf & Hne & Hex). unfold readJSONL. rewrite Hf. cbn zeta.
    destruct (String.eqb_spec (trim content) "") as [E|_]; [contradiction|].
    now apply parseLines_unparsable.
  - intros (content & Hf & Hne & Hp). eapply readJSON_unparsable; eauto.
Qed.

(** A store whose genes file is corrupt, whose capsules file is blank and
    whose event log is missing. *)
Lemma load_store_corruption_witness :
  let fs : gmap string string := {[ "genes.json" := "{oops"; "capsules.json" := "  " ]} in
  loadGenes parse_empty_only fs = Thrown SyntaxError /\
  loadCapsules parse_empty_only fs = Returned (JArray []) /\
  loadEvents parse_empty_only fs = Returned [].
Proof.
  cbn zeta.
  pose proof (load_store_corruption parse_empty_only
                {[ "genes.json" := "{oops"; "capsules.json" := "  " ]}) as H.
  cbn zeta in H. destruct H as (_ & Hcaps & Hev & _ & Hgenes & _).
  split; [|split].
  - apply Hgenes. exists "{oops". repeat split; [discriminate].
  - apply Hcaps. right. exists "  ". split; reflexivity.
  - apply Hev. left. reflexivity.
Defined.

End StoreProps.

(** ** Properties of src/core/signals.js *)

Section SignalsProps.
Import JS Signals.

Lemma Set_has_In x s : Set_has x s = true <-> In x s.
Proof.
  unfold Set_has. rewrite existsb_exists. split.
  - intros (y & Hy & E). apply String.eqb_eq in E. now subst.
  - intros H. exists x. split; [assumption | apply String.eqb_refl].
Qed.

Lemma Set_add_old x y s : In x s -> In x (Set_add y s).
Proof.
  intros H. unfold Set_add. destruct (Set_has y s); [assumption|].
  apply in_or_app. now left.
Qed.

Lemma Set_add_new y s : In y (Set_add y s).
Proof.
  unfold Set_add. destruct (Set_has y s) eqn:E.
  - now apply Set_has_In.
  - apply in_or_app. right. now left.
Qed.

Lemma Set_add_inv x y s : In x (Set_add y s) -> x = y \/ In x s.
Proof.
  unfold Set_add. destruct (Set_has y s); [now right|].
  intros H. apply in_app_or in H. destruct H as [H|[H|[]]]; auto.
Qed.

Lemma Set_add_absent t y s : y <> t -> ~ In t s -> ~ In t (Set_add y s).
Proof. intros Hy Hs H. apply Set_add_inv in H. destruct H; congruence. Qed.

(** A loop that only adds signals keeps the ones already there. *)
Lemma fold_left_keeps {A : Type} (step : list string -> A -> list string) x :
  (forall s a, In x s -> In x (step s a)) ->
  forall l s, In x s -> In x (fold_left step l s).
Proof.
  intros Hstep l. induction l as [|a l IH]; cbn; intros s Hs; [assumption|].
  apply IH, Hstep, Hs.
Qed.

(** A loop none of whose steps adds [t] does not produce it. *)
Lemma fold_left_absent {A : Type} (step : list string -> A -> list string) t :
  (forall s a, ~ In t s -> ~ In t (step s a)) ->
  forall l s, ~ In t s -> ~ In t (fold_left step l s).
Proof.
  intros Hstep l. induction l as [|a l IH]; cbn; intros s Hs; [assumption|].
  apply IH, Hstep, Hs.
Qed.

Lemma capabilityStep_keeps x s e : In x s -> In x (capabilityStep s e).
Proof.
  intros H. unfold capabilityStep.
  repeat match goal with |- context [if ?b then _ else _] => destruct b end;
    repeat apply Set_add_old; assumption.
Qed.

Ltac absent_step :=
  repeat match goal with
         | |- context [if ?b then _ else _] => destruct b
         | |- context [match ?m with NoMessage => _ | _ => _ end] => destruct m
         end;
  repeat (apply Set_add_absent; [cbn; discriminate|]); try assumption.


Lemma capabilityStep_absent s e :
  ~ In stagnation s -> ~ In stagnation (capabilityStep s e).
Proof. intros H. unfold capabilityStep, stagnation in *. absent_step. Qed.

Lemma opportunityStep_absent feature s e :
  ~ In stagnation s -> ~ In stagnation (opportunityStep feature s e).
Proof. intros H. unfold opportunityStep, stagnation in *. absent_step. Qed.

Lemma errorStep_absent norm acc e :
  ~ In stagnation (fst acc) -> ~ In stagnation (fst (errorStep norm acc e)).
Proof.
  destruct acc as [s c]. cbn [fst]. intros H. unfold errorStep, stagnation in *.
  destruct (msg e) as [|m|str]; cbn zeta.
  all: repeat match goal with
         | |- context [if ?b then _ else _] => destruct b; cbn [fst]
         end;
       repeat (apply Set_add_absent; [cbn; discriminate|]); try assumption.
Qed.

Lemma errorLoop_absent norm l acc :
  ~ In stagnation (fst acc) -> ~ In stagnation (fst (fold_left (errorStep norm) l acc)).
Proof.
  revert acc. induction l as [|e l IH]; cbn; intros acc H; [assumption|].
  apply IH, errorStep_absent, H.
Qed.

Lemma repeatLoop_absent rest : forall prev n s,
  ~ In stagnation s -> ~ In stagnation (repeatLoop prev rest n s).
Proof.
  induction rest as [|t rest IH]; cbn; intros prev n s H; [assumption|].
  destruct (String.eqb t prev); [|now apply IH].
  apply IH.
  match goal with |- context [if ?b then _ else _] => destruct b end; [|assumption].
  apply Set_add_absent; [cbn; discriminate | assumption].
Qed.

(** C3, as the claim states it, fails: after one successful response, five
    error responses (so the most recent 5 responses are all errors) yield no
    'evolution_stagnation'; 'recurring_error' is there only because the same
    error detail recurs three times.  The entries hold no user text, so the
    keyword test is never consulted, and the detail 'error' is ASCII. *)
Lemma recent_errors_without_stagnation :
  let es := assistantEntry "stop" None :: repeat (assistantEntry "error" None) 5 in
  forallb isErrorMessage (lastN 5 (List.filter isAssistant es)) = true /\
  extractSignals (fun _ => false) normalizeAscii es
  = ["log_error"; "errsig:error"; "recurring_error"].
Proof. vm_compute. split; reflexivity. Qed.

(** C3 (amended): when the sequence holds at least 5 response (assistant)
    entries and every response entry of the sequence is an error entry,
    extractSignals emits both 'recurring_error' and 'evolution_stagnation';
    and 'evolution_stagnation' is emitted in no other case. *)
Theorem extractSignals_all_error_rule
    (FEATURE_KEYWORDS_test : string -> bool) (normalizeDetail : string -> string)
    (entries : list entry) :
  let assistantMsgs := List.filter isAssistant entries in
  let signals := extractSignals FEATURE_KEYWORDS_test normalizeDetail entries in
  (((5 <= length assistantMsgs)%nat /\ forallb isErrorMessage assistantMsgs = true) ->
     In "recurring_error" signals /\ In "evolution_stagnation" signals) /\
  (In "evolution_stagnation" signals ->
     (5 <= length assistantMsgs)%nat /\ forallb isErrorMessage assistantMsgs = true).
Proof.
  cbn zeta. unfold extractSignals.
  destruct entries as [|e0 l]; [cbn; split; [intros [H _]; lia | tauto]|].
  set (es := e0 :: l).
  destruct (fold_left (errorStep normalizeDetail) es ([], [])) as [s0 counts] eqn:Eerr.
  assert (H0 : ~ In stagnation s0).
  { change s0 with (fst (s0, counts)). rewrite <- Eerr.
    apply errorLoop_absent. cbn. tauto. }
  match goal with
  | |- context [fold_left capabilityStep es
                  (if ?c then Set_add _ (Set_add _ ?before) else _)] =>
      set (cond := c); set (sig := before)
  end.
  assert (Hsig : ~ In stagnation sig).
  { subst sig. unfold stagnation in *.
    repeat first
      [ assumption
      | apply Set_add_absent; [cbn; discriminate|]
      | apply repeatLoop_absent
      | apply fold_left_absent;
        [ intros ? ? ?; first [ now apply (opportunityStep_absent FEATURE_KEYWORDS_test)
                              | absent_step ] |]
      | match goal with
        | |- ~ In _ (if ?b then _ else _) => destruct b
        | |- ~ In _ (match ?t with [] => _ | _ :: _ => _ end) => destruct t
        end ]. }
  split.
  - intros [Hlen Hall].
    assert (Hc : cond = true).
    { subst cond. rewrite Hall, andb_true_r. now apply Nat.leb_le. }
    rewrite Hc. split; apply fold_left_keeps; auto using capabilityStep_keeps.
    + apply Set_add_old, Set_add_new.
    + apply Set_add_new.
  - intros Hin. destruct cond eqn:Hc.
    + subst cond. apply andb_true_iff in Hc. destruct Hc as [Hlen Hall].
      split; [now apply Nat.leb_le | assumption].
    + exfalso. revert Hin. apply fold_left_absent; [|exact Hsig].
      intros; now apply capabilityStep_absent.
Qed.

(** The rule fires on five error responses. *)
Lemma extractSignals_all_error_rule_witness :
  let es := repeat (assistantEntry "error" None) 5 in
  In "recurring_error" (extractSignals (fun _ => false) normalizeAscii es) /\
  In "evolution_stagnation" (extractSignals (fun _ => false) normalizeAscii es).
Proof.
  apply (extractSignals_all_error_rule (fun _ => false) normalizeAscii
           (repeat (assistantEntry "error" None) 5)).
  split; [vm_compute; lia | reflexivity].
Defined.

End SignalsProps.

(** ** Properties of src/tree/pruner.js *)

Section PrunerProps.
Import JS Node Pruner.

Example tokenize_rich_messaging_handler :
  tokenize "Rich Messaging Handler" = ["rich"; "messaging"; "handler"].
Proof. reflexivity. Qed.

Example tokenize_handler_for_rich_messaging :
  tokenize "Handler for rich messaging" = ["handler"; "for"; "rich"; "messaging"].
Proof. reflexivity. Qed.

Lemma merge_suggestions_eq now getTime nodes :
  merge_suggestions (analyzePruning now getTime nodes)
  = mergePairs (List.filter (fun n => negb (String.eqb (status n) "pruned")) nodes).
Proof.
  unfold analyzePruning.
  destruct (fold_left _ _ _) as [c a]. reflexivity.
Qed.

(** C4, as the claim states it, fails: the two names share 3 of 4 distinct
    tokens, so their Jaccard similarity is 0.75, below the threshold, and
    the two active nodes are not reported as a merge suggestion. *)
Lemma rich_messaging_pair_not_flagged :
  let a := freshNode "cap.a" "Rich Messaging Handler" "mid" "cap" in
  let b := freshNode "cap.b" "Handler for rich messaging" "mid" "cap" in
  jaccardSimilarity (tokenize (name a)) (tokenize (name b)) = 3 # 4 /\
  Qle_bool (8 # 10) (3 # 4) = false /\
  merge_suggestions (analyzePruning 0 (fun _ => None) [a; b]) = [].
Proof. vm_compute. repeat split. Qed.

Lemma In_similarTo a later ida idb :
  In (ida, idb) (similarTo a later) <->
  ida = id a /\
  exists b, In b later /\ idb = id b /\
    (MERGE_SIMILARITY_THRESHOLD < jaccardSimilarity (tokenize (name a)) (tokenize (name b)))%Q.
Proof.
  unfold similarTo. rewrite in_map_iff. split.
  - intros (b & E & Hb). apply filter_In in Hb. destruct Hb as [Hb Hs].
    inversion E; subst. split; [reflexivity|]. exists b. repeat split; auto.
    apply negb_true_iff in Hs. apply Qnot_le_lt. intros Hle.
    apply Qle_bool_iff in Hle. congruence.
  - intros (-> & b & Hb & -> & Hs). exists b. split; [reflexivity|].
    apply filter_In. split; [assumption|]. apply negb_true_iff.
    destruct (Qle_bool _ _) eqn:E; [|reflexivity].
    apply Qle_bool_iff in E. exfalso. eapply Qlt_not_le; eauto.
Qed.

Lemma In_mergePairs l ida idb :
  In (ida, idb) (mergePairs l) <->
  exists l1 a l2 b l3, l = l1 ++ a :: l2 ++ b :: l3 /\ ida = id a /\ idb = id b /\
    (MERGE_SIMILARITY_THRESHOLD < jaccardSimilarity (tokenize (name a)) (tokenize (name b)))%Q.
Proof.
  induction l as [|x l IH]; cbn.
  - split; [tauto|]. intros (l1 & a & l2 & b & l3 & E & _). destruct l1; discriminate.
  - rewrite in_app_iff, In_similarTo, IH. split.
    + intros [(-> & b & Hb & -> & Hs) | (l1 & a & l2 & b & l3 & -> & -> & -> & Hs)].
      * apply in_split in Hb. destruct Hb as (l2 & l3 & ->).
        exists [], x, l2, b, l3. auto.
      * exists (x :: l1), a, l2, b, l3. auto.
    + intros (l1 & a & l2 & b & l3 & E & -> & -> & Hs).
      destruct l1 as [|y l1]; cbn in E; inversion E; subst.
      * left. split; [reflexivity|]. exists b. repeat split; auto.
        apply in_or_app. right. now left.
      * right. exists l1, a, l2, b, l3. auto.
Qed.

(** C4 (amended): the token sets of "Rich Messaging Handler" and "Handler
    for rich messaging" (lowercased, split on whitespace and dots) have
    Jaccard similarity exactly 0.75, so two nodes with these names are not
    reported as a merge suggestion; the pairs reported are exactly the
    pairs of non-pruned nodes, in list order, whose similarity is strictly
    above 0.8. *)
Theorem merge_suggestions_spec (now : Z) (Date_getTime : string -> option Z) :
  jaccardSimilarity (tokenize "Rich Messaging Handler")
                    (tokenize "Handler for rich messaging") = 3 # 4 /\
  (forall a b : node,
      name a = "Rich Messaging Handler" -> name b = "Handler for rich messaging" ->
      merge_suggestions (analyzePruning now Date_getTime [a; b]) = []) /\
  (forall (nodes : list node) (ida idb : string),
      In (ida, idb) (merge_suggestions (analyzePruning now Date_getTime nodes)) <->
      exists l1 a l2 b l3,
        List.filter (fun n => negb (String.eqb (status n) "pruned")) nodes
          = l1 ++ a :: l2 ++ b :: l3 /\
        ida = id a /\ idb = id b /\
        (8 # 10 < jaccardSimilarity (tokenize (name a)) (tokenize (name b)))%Q).
Proof.
  split; [reflexivity|]. split.
  - intros a b Ha Hb. rewrite merge_suggestions_eq. cbn [List.filter].
    destruct (negb (String.eqb (status a) "pruned"));
      destruct (negb (String.eqb (status b) "pruned")); cbn; try reflexivity.
    unfold similarTo. cbn [List.filter]. rewrite Ha, Hb. reflexivity.
  - intros nodes ida idb. rewrite merge_suggestions_eq. apply In_mergePairs.
Qed.

(** Two active nodes with the two names of the example. *)
Lemma merge_suggestions_spec_witness :
  merge_suggestions
    (analyzePruning 0 (fun _ => None)
       [freshNode "cap.a" "Rich Messaging Handler" "mid" "cap";
        freshNode "cap.b" "Handler for rich messaging" "mid" "cap"]) = [].
Proof.
  apply (proj1 (proj2 (merge_suggestions_spec 0 (fun _ => None)))); reflexivity.
Defined.

End PrunerProps.

(** ** Properties of src/vfm/mutator.js *)

Section VfmMutatorProps.
Import JS Gep VfmMutator.

Lemma clampWeight_range w : (1 <= clampWeight w <= 5)%Q.
Proof.
  unfold clampWeight, WEIGHT_MIN, WEIGHT_MAX.
  pose proof (Q.max_spec w 1) as Hm. pose proof (Q.min_spec (Qmax w 1) 5) as Hn.
  destruct Hm as [[? ?]|[? ?]], Hn as [[? ?]|[? ?]]; split; lra.
Qed.

Lemma clampWeight_ge_below w x : (x <= w)%Q -> (x <= 5)%Q -> (x <= clampWeight w)%Q.
Proof.
  intros Hw H5. unfold clampWeight, WEIGHT_MIN, WEIGHT_MAX.
  pose proof (Q.max_spec w 1) as Hm. pose proof (Q.min_spec (Qmax w 1) 5) as Hn.
  destruct Hm as [[? ?]|[? ?]], Hn as [[? ?]|[? ?]]; lra.
Qed.

Lemma all_failed_none_passed (capsules : list capsule) :
  forallb (fun c => negb (validation_passed c)) capsules = true ->
  List.filter validation_passed capsules = [].
Proof.
  induction capsules as [|c l IH]; cbn; [reflexivity|].
  intros H. apply andb_true_iff in H. destruct H as [Hc Hl].
  apply negb_true_iff in Hc. rewrite Hc. auto.
Qed.

Lemma all_failed_rate c l :
  forallb (fun c => negb (validation_passed c)) (c :: l) = true ->
  (computeSuccessRate (c :: l) == 0)%Q.
Proof.
  intros H. unfold computeSuccessRate. rewrite (all_failed_none_passed _ H).
  unfold Qdiv. apply Qmult_0_l.
Qed.

(** C5, as the claim states it, fails: an input failure-reduction weight
    of 6 with five failing capsules comes back as 5, lower than the input. *)
Lemma mutateWeights_lowers_excess_failReduce :
  let w := {| frequency := 3; failReduce := 6; userBurden := 2; selfCost := 2 |} in
  let capsules := repeat failedCapsule 5 in
  forallb (fun c => negb (validation_passed c)) capsules = true /\
  Qred (failReduce (mutateWeights w capsules [])) = 5%Q /\
  Qlt_bool (failReduce (mutateWeights w capsules [])) (failReduce w) = true.
Proof. vm_compute. repeat split. Qed.

(** C5 (amended): for every input weight record and every recent-capsule
    and recent-event list, all four weights returned by mutateWeights lie
    in [1,5]; and when every recent capsule is marked validation-failed
    and the input failure-reduction weight is at most 5, the returned
    failure-reduction weight is not lower than the input one. *)
Theorem mutateWeights_bounds (w : weights) (capsules : list capsule) (events : list event) :
  let w' := mutateWeights w capsules events in
  ((1 <= frequency w' <= 5) /\ (1 <= failReduce w' <= 5) /\
   (1 <= userBurden w' <= 5) /\ (1 <= selfCost w' <= 5))%Q /\
  (forallb (fun c => negb (validation_passed c)) capsules = true ->
   (failReduce w <= 5)%Q ->
   (failReduce w <= failReduce w')%Q).
Proof.
  cbn zeta. split.
  - unfold mutateWeights; cbn zeta.
    destruct (Qgt_bool _ _ && isLowInnovation _); cbn [frequency failReduce userBurden selfCost];
      repeat split; apply clampWeight_range.
  - intros Hall H5. unfold mutateWeights; cbn zeta.
    destruct capsules as [|c l].
    + cbn [computeSuccessRate isLowInnovation length Nat.ltb Nat.leb andb].
      rewrite andb_false_r. cbn [failReduce].
      replace (Qgt_bool (1 - 1) HIGH_FAIL_THRESHOLD) with false by reflexivity.
      apply clampWeight_ge_below; lra.
    + pose proof (all_failed_rate _ _ Hall) as Hrate.
      assert (E1 : Qgt_bool (computeSuccessRate (c :: l)) HIGH_SUCCESS_THRESHOLD = false).
      { unfold Qgt_bool. apply negb_false_iff, Qle_bool_iff.
        rewrite Hrate. unfold HIGH_SUCCESS_THRESHOLD. lra. }
      assert (E2 : Qgt_bool (1 - computeSuccessRate (c :: l)) HIGH_FAIL_THRESHOLD = true).
      { unfold Qgt_bool. apply negb_true_iff. destruct (Qle_bool _ _) eqn:E; [|reflexivity].
        apply Qle_bool_iff in E. rewrite Hrate in E. unfold HIGH_FAIL_THRESHOLD in E. lra. }
      rewrite E1, E2. cbn [andb failReduce].
      apply clampWeight_ge_below; unfold MAX_ADJUSTMENT; lra.
Qed.

(** The failing batch of the test suite: the default weights and five
    failing capsules. *)
Lemma mutateWeights_bounds_witness :
  (failReduce DEFAULT_WEIGHTS <= failReduce (mutateWeights DEFAULT_WEIGHTS (repeat failedCapsule 5) []))%Q.
Proof.
  apply (mutateWeights_bounds DEFAULT_WEIGHTS (repeat failedCapsule 5) []).
  - reflexivity.
  - vm_compute. discriminate.
Defined.

End VfmMutatorProps.

(** ** Properties of src/vfm/scorer.js *)

Section VfmScorerProps.
Import JS Gep Node VfmMutator VfmScorer.

(** Rounding a value clamped to [0,100] gives an integer of [0,100]. *)
Lemma round_clamp_range (q : Q) :
  0 <= Qfloor (Qmin (Qmax q 0) 100 + (1 # 2)) <= 100.
Proof.
  assert (H : (0 <= Qmin (Qmax q 0) 100 <= 100)%Q).
  { pose proof (Q.max_spec q 0) as Hm. pose proof (Q.min_spec (Qmax q 0) 100) as Hn.
    destruct Hm as [[? ?]|[? ?]], Hn as [[? ?]|[? ?]]; split; lra. }
  split.
  - apply Z.le_trans with (Qfloor 0); [reflexivity|].
    apply Qfloor_resp_le. lra.
  - apply Z.le_trans with (Qfloor (100 + (1 # 2))); [|vm_compute; discriminate].
    apply Qfloor_resp_le. lra.
Qed.

Lemma round_clamp_finite (x : number) :
  x <> NaN ->
  exists z, Math_round (Math_min (Math_max x 0) 100) = Some z /\ 0 <= z <= 100.
Proof.
  destruct x as [q| | |]; cbn [Math_max Math_min Math_round]; intros Hx; try congruence.
  - eexists. split; [reflexivity | apply round_clamp_range].
  - exists 100. split; [reflexivity | lia].
  - exists 0. split; [reflexivity | lia].
Qed.

Lemma round_bracket (q : Q) : Qfloor q <= Qfloor (q + (1 # 2)) <= Qceiling q.
Proof.
  split.
  - apply Qfloor_resp_le. lra.
  - pose proof (Qfloor_le (q + (1 # 2))) as H1. pose proof (Qle_ceiling q) as H2.
    apply Z.lt_succ_r. rewrite Zlt_Qlt. unfold Z.succ. rewrite inject_Z_plus.
    change (inject_Z 1) with 1%Q. lra.
Qed.

(** With weights whose sum is positive, the normalised score of a node
    with a non-negative trigger count is a finite number, and the score
    is that number clamped and rounded. *)
Lemma computeVScore_weighted Math_log2 lookup (cap : node) capsules (w : weights) :
  0 <= trigger_count cap ->
  (0 < frequency w + failReduce w + userBurden w + selfCost w)%Q ->
  exists f s,
    scoreFrequency Math_log2 cap = Num f /\
    scoreSelfCost (Returned lookup) cap = Returned s /\
    computeVScore Math_log2 (Returned lookup) cap capsules (Some w)
    = Returned (Some (Qfloor (scaledScore f (scoreFailReduction cap capsules)
                                 (scoreUserBurden cap) s w + (1 # 2)))).
Proof.
  intros Hc Hw. unfold computeVScore. cbn zeta.
  assert (Hs : exists s, scoreSelfCost (Returned lookup) cap = Returned s).
  { unfold scoreSelfCost. destruct (linked_genes cap); cbn [bind]; eauto. }
  destruct Hs as [s Hs]. rewrite Hs. cbn [bind].
  unfold scoreFrequency. cbn zeta.
  destruct (Z.ltb_spec 0 (trigger_count cap + 1)) as [_|?]; [|lia].
  cbn [Math_min times plus divide].
  destruct (Qeq_bool _ 0) eqn:E.
  - apply Qeq_bool_iff in E. lra.
  - eexists. exists s. split; [reflexivity|]. split; [reflexivity|].
    cbn [Math_max Math_min Math_round]. reflexivity.
Qed.

(** C6: for every capability node whose trigger count is not negative
    (as validateNode requires) and every context, with the gene store
    loaded, computeVScore returns an integer in [0,100], under the default
    weights and under custom weights that each lie in [1,5]: the weighted
    sum of the four dimension scores over ten times the sum of the
    weights, scaled to 0-100, clamped and rounded to an integer next to
    it; isWorthEvolving(39) is false and isWorthEvolving(40) is true. *)
Theorem computeVScore_range (Math_log2 : Z -> Q) (lookup : string -> geneSlot)
    (cap : node) (capsules : list capsule) (weights : option weights) :
  0 <= trigger_count cap ->
  (forall w, weights = Some w -> keptWeights w) ->
  (exists f s z,
     scoreFrequency Math_log2 cap = Num f /\
     scoreSelfCost (Returned lookup) cap = Returned s /\
     computeVScore Math_log2 (Returned lookup) cap capsules weights = Returned (Some z) /\
     0 <= z <= 100 /\
     let w := match weights with Some w => w | None => DEFAULT_WEIGHTS end in
     let scaled := scaledScore f (scoreFailReduction cap capsules) (scoreUserBurden cap) s w in
     Qfloor scaled <= z <= Qceiling scaled) /\
  isWorthEvolving 39 = false /\ isWorthEvolving 40 = true.
Proof.
  intros Hc Hw. split; [|split; reflexivity].
  set (w := match weights with Some w => w | None => DEFAULT_WEIGHTS end).
  assert (Hsum : (0 < frequency w + failReduce w + userBurden w + selfCost w)%Q).
  { subst w. destruct weights as [w|]; [|reflexivity].
    destruct (Hw w eq_refl) as (H1 & H2 & H3 & H4). lra. }
  destruct (computeVScore_weighted Math_log2 lookup cap capsules w Hc Hsum)
    as (f & s & Hf & Hs & Hv).
  exists f, s. eexists. split; [exact Hf|]. split; [exact Hs|]. split.
  - replace (computeVScore Math_log2 (Returned lookup) cap capsules weights)
      with (computeVScore Math_log2 (Returned lookup) cap capsules (Some w)); [exact Hv|].
    subst w. destruct weights; reflexivity.
  - cbn zeta. fold w. split; [apply round_clamp_range | apply round_bracket].
Qed.

(** The node of the test suite's range check, scored with the integer
    part of the logarithm and no stored gene, under weights of [1,5]: the
    score is 23, the normalised score being 23 1/3. *)
Lemma computeVScore_range_witness :
  let cap := freshNode "cap.t" "T" "low" "cap" in
  let log2 := fun n => inject_Z (Z.log2 n) in
  let w := {| frequency := 5; failReduce := 1; userBurden := 2; selfCost := 4 |} in
  exists f s z,
    scoreFrequency log2 cap = Num f /\
    scoreSelfCost (Returned (fun _ => NoGene)) cap = Returned s /\
    computeVScore log2 (Returned (fun _ => NoGene)) cap [] (Some w) = Returned (Some z) /\
    0 <= z <= 100 /\
    Qfloor (scaledScore f (scoreFailReduction cap []) (scoreUserBurden cap) s w)
    <= z <=
    Qceiling (scaledScore f (scoreFailReduction cap []) (scoreUserBurden cap) s w).
Proof.
  refine (proj1 (computeVScore_range (fun n => inject_Z (Z.log2 n)) (fun _ => NoGene)
                   (freshNode "cap.t" "T" "low" "cap") []
                   (Some {| frequency := 5; failReduce := 1; userBurden := 2; selfCost := 4 |})
                   _ _)).
  - cbn. lia.
  - intros w Hw. inversion Hw. unfold keptWeights. cbn. repeat split; discriminate.
Defined.

Example computeVScore_custom_weights :
  computeVScore (fun n => inject_Z (Z.log2 n)) (Returned (fun _ => NoGene))
    (freshNode "cap.t" "T" "low" "cap") []
    (Some {| frequency := 5; failReduce := 1; userBurden := 2; selfCost := 4 |})
  = Returned (Some 23).
Proof. reflexivity. Qed.

(** C6, as the claim words it, fails: the score of a node with a
    negative trigger count (which validateNode rejects) is NaN, the
    logarithm of a negative number, and so is the score of a fresh node
    under weights that are all zero, where the normalisation divides zero
    by zero; and where the gene store does not load, a node with linked
    genes gets no score: the error of loadGenes goes through. *)
Lemma computeVScore_not_a_number :
  computeVScore (fun n => inject_Z (Z.log2 n)) (Returned (fun _ => NoGene))
    {| id := "cap.t"; name := "T"; level := "low"; parent_id := "cap";
       input := ""; output := ""; preconditions := []; failure_boundary := "";
       linked_genes := []; linked_skills := []; children := [];
       status := "active"; v_score := None; last_triggered := None;
       trigger_count := -5 |} [] None
  = Returned None /\
  computeVScore (fun n => inject_Z (Z.log2 n)) (Returned (fun _ => NoGene))
    (freshNode "cap.t" "T" "low" "cap") []
    (Some {| frequency := 0; failReduce := 0; userBurden := 0; selfCost := 0 |})
  = Returned None /\
  computeVScore (fun n => inject_Z (Z.log2 n)) (Thrown "SyntaxError")
    {| id := "cap.t"; name := "T"; level := "low"; parent_id := "cap";
       input := ""; output := ""; preconditions := []; failure_boundary := "";
       linked_genes := ["gene_a"]; linked_skills := []; children := [];
       status := "active"; v_score := None; last_triggered := None;
       trigger_count := 0 |} [] None
  = Thrown "SyntaxError".
Proof. repeat split. Qed.

Example computeVScore_fresh_node :
  computeVScore (fun n => inject_Z (Z.log2 n)) (Returned (fun _ => NoGene))
    (freshNode "cap.t" "T" "low" "cap") [] None
  = Returned (Some 18).
Proof. reflexivity. Qed.

End VfmScorerProps.

(** ** Properties of src/core/selector.js *)

Section SelectorProps.
Import JS Gep Gene Selector.

Lemma In_insertByScore z x l : In z (insertByScore x l) <-> z = x \/ In z l.
Proof.
  induction l as [|y l IH]; cbn; [intuition congruence|].
  destruct (Qlt_bool (score y) (score x)); cbn; [intuition congruence|].
  rewrite IH. tauto.
Qed.

Lemma In_fold_insert z l : forall acc,
  In z (fold_left (fun sorted x => insertByScore x sorted) l acc) <-> In z l \/ In z acc.
Proof.
  induction l as [|x l IH]; cbn; intros acc; [tauto|].
  rewrite IH, In_insertByScore. intuition congruence.
Qed.

Lemma In_sortByScore z l : In z (sortByScore l) <-> In z l.
Proof. unfold sortByScore. rewrite In_fold_insert. cbn. tauto. Qed.


Lemma insertByScore_headMax x l : headMax l -> headMax (insertByScore x l).
Proof.
  destruct l as [|y rest]; cbn; [tauto|]. intros Hmax.
  unfold Qlt_bool. destruct (Qle_bool (score x) (score y)) eqn:E; cbn.
  - apply Qle_bool_iff in E. intros z Hz. apply In_insertByScore in Hz.
    destruct Hz as [->|Hz]; auto.
  - assert (Hlt : (score y < score x)%Q).
    { apply Qnot_le_lt. intros Hle. apply Qle_bool_iff in Hle. congruence. }
    intros z [<-|Hz]; [lra|]. specialize (Hmax z Hz). lra.
Qed.

Lemma sortByScore_headMax l : headMax (sortByScore l).
Proof.
  unfold sortByScore. assert (H : headMax []) by exact I. revert H.
  generalize (@nil scoredGene). induction l as [|x l IH]; cbn; intros acc H; [assumption|].
  apply IH, insertByScore_headMax, H.
Qed.

(** C7: a gene that selectGene returns is one of the stored genes and its
    score (matchScore plus the flat 0.1 bonus when its category equals
    preferCategory) is not below minScore (0.3 when the option is not
    given); and selectGene returns none for an empty signal set. *)
Theorem selectGene_respects_minScore
    (genes : list gene) (signals : list string) (o : options) (g : gene) :
  selectGene genes signals o = Some g ->
  (In g genes /\
   (effectiveMinScore o <= scoreOf (preferCategory o) signals g)%Q /\
   (minScore o = None -> effectiveMinScore o = 3 # 10)) /\
  selectGene genes [] o = None.
Proof.
  intros Hsel. split; [|reflexivity].
  unfold selectGene in Hsel.
  destruct signals as [|s0 signals]; [discriminate|].
  destruct genes as [|g0 genes]; [discriminate|].
  cbn zeta in Hsel.
  destruct (sortByScore _) as [|best rest] eqn:Es; [discriminate|].
  inversion Hsel; subst g; clear Hsel.
  assert (Hin : In best (sortByScore
            (List.filter (fun item => Qle_bool (effectiveMinScore o) (score item))
               (map (fun g => {| gene_of := g;
                                 score := scoreOf (preferCategory o) (s0 :: signals) g |})
                    (g0 :: genes))))).
  { rewrite Es. now left. }
  apply In_sortByScore, filter_In in Hin. destruct Hin as [Hmap Hscore].
  apply in_map_iff in Hmap. destruct Hmap as (g & <- & Hg).
  cbn [gene_of score] in *. apply Qle_bool_iff in Hscore.
  repeat split; auto.
  unfold effectiveMinScore. now intros ->.
Qed.

(** The end-to-end case of the test suite: the repair gene is selected for
    its two signals. *)
Lemma selectGene_respects_minScore_witness :
  (In (createdGene "gene_test_repair" "repair" ["log_error"; "recurring_error"] ["Fix the error"])
      testGenes /\
   (effectiveMinScore noOptions <=
      scoreOf (preferCategory noOptions) ["log_error"; "recurring_error"]
        (createdGene "gene_test_repair" "repair" ["log_error"; "recurring_error"]
                     ["Fix the error"]))%Q /\
   (minScore noOptions = None -> effectiveMinScore noOptions = 3 # 10)) /\
  selectGene testGenes [] noOptions = None.
Proof.
  apply (selectGene_respects_minScore testGenes ["log_error"; "recurring_error"] noOptions).
  reflexivity.
Defined.

(** X4: The gene selectGene returns has the top score among the stored genes
    that reach minScore. *)
Lemma selectGene_top_score (genes : list gene) (signals : list string) (o : options) (g : gene) :
  selectGene genes signals o = Some g ->
  forall g', In g' genes ->
    (effectiveMinScore o <= scoreOf (preferCategory o) signals g')%Q ->
    (scoreOf (preferCategory o) signals g' <= scoreOf (preferCategory o) signals g)%Q.
Proof.
  intros Hsel g' Hg' Hmin. unfold selectGene in Hsel.
  destruct signals as [|s0 signals]; [discriminate|].
  destruct genes as [|g0 genes]; [discriminate|].
  cbn zeta in Hsel.
  set (items := List.filter _ _) in Hsel.
  pose proof (sortByScore_headMax items) as Hmax.
  assert (Hin' : In {| gene_of := g'; score := scoreOf (preferCategory o) (s0 :: signals) g' |}
                    (sortByScore items)).
  { apply In_sortByScore. subst items. apply filter_In. split.
    - apply in_map_iff. exists g'. auto.
    - cbn. now apply Qle_bool_iff. }
  assert (Hall : forall x, In x items -> score x = scoreOf (preferCategory o) (s0 :: signals) (gene_of x)).
  { intros x Hx. subst items. apply filter_In in Hx. destruct Hx as [Hx _].
    apply in_map_iff in Hx. destruct Hx as (y & <- & _). reflexivity. }
  destruct (sortByScore items) as [|best rest] eqn:Es; [discriminate|].
  inversion Hsel; subst g; clear Hsel.
  assert (Hbest : In best items) by (apply In_sortByScore; rewrite Es; now left).
  rewrite <- (Hall best Hbest).
  destruct Hin' as [E|Hin']; [rewrite E; cbn; lra|].
  apply (Hmax _ Hin').
Qed.

Example selectGene_unknown_signal :
  selectGene testGenes ["unknown_signal"]
             {| preferCategory := None; minScore := Some (1 # 2) |} = None.
Proof. reflexivity. Qed.

End SelectorProps.

(** ** Properties of src/pcec/cycle.js *)

Section PcecProps.
Import JS Pcec.

Lemma length_filter_pos {A : Type} (f : A -> bool) (l : list A) :
  (0 <? length (List.filter f l))%nat = true <-> exists x, In x l /\ f x = true.
Proof.
  rewrite Nat.ltb_lt. split.
  - destruct (List.filter f l) as [|x r] eqn:E; cbn; [lia|]. intros _.
    exists x. apply filter_In. rewrite E. now left.
  - intros (x & Hx & Hf).
    assert (Hin : In x (List.filter f l)) by (apply filter_In; auto).
    destruct (List.filter f l); [destruct Hin | cbn; lia].
Qed.

Lemma hasSubstance_spec (o : outcome) :
  hasSubstance o = true <->
  description o <> "" /\
  forall keyword, In keyword EXCLUDE_KEYWORDS -> includes (description o) keyword = false.
Proof.
  unfold hasSubstance.
  destruct (String.eqb_spec (description o) "") as [E|E].
  - split; [discriminate | tauto].
  - rewrite negb_true_iff. split.
    + intros Hex. split; [assumption|]. intros k Hk.
      destruct (includes (description o) k) eqn:Ek; [|reflexivity].
      assert (existsb (fun keyword => includes (description o) keyword) EXCLUDE_KEYWORDS = true)
        by (apply existsb_exists; eauto).
      congruence.
    + intros [_ Hall].
      destruct (existsb _ _) eqn:Ex; [|reflexivity].
      apply existsb_exists in Ex. destruct Ex as (k & Hk & Hinc).
      rewrite (Hall k Hk) in Hinc. discriminate.
Qed.

(** C9, as the claim states it, fails: an outcome recorded without a
    description is stored with the empty description, which contains no
    excluded phrase; its type is recognized, yet the cycle is judged not
    substantive. *)
Lemma empty_description_not_substantive :
  let c := addOutcome "t1" (Some {| in_type := Some "capability"; in_description := None |})
                      (newCycle "pcec_0" "t0") in
  outcomes c = [{| type := "capability"; description := ""; added_at := "t1" |}] /\
  Set_has "capability" SUBSTANTIVE_TYPES = true /\
  existsb (fun keyword => includes "" keyword) EXCLUDE_KEYWORDS = false /\
  hasSubstantiveOutcome c = false.
Proof. vm_compute. repeat split. Qed.

(** C9 (amended): a PCEC cycle is judged substantive if and only if at
    least one of its recorded outcomes has a recognized type ('capability',
    'abstraction' or 'leverage') and a non-empty description that contains
    no phrase of the excluded filler-phrase list; a cycle with no outcomes
    is not substantive. *)
Theorem hasSubstantiveOutcome_iff (c : cycle) :
  (hasSubstantiveOutcome c = true <->
   exists o, In o (outcomes c) /\
             In (type o) SUBSTANTIVE_TYPES /\
             description o <> "" /\
             forall keyword, In keyword EXCLUDE_KEYWORDS ->
                             includes (description o) keyword = false) /\
  (outcomes c = [] -> hasSubstantiveOutcome c = false).
Proof.
  split.
  - unfold hasSubstantiveOutcome.
    set (valid := List.filter (fun o => Set_has (type o) SUBSTANTIVE_TYPES) (outcomes c)).
    assert (Hvalid : forall o, In o valid <-> In o (outcomes c) /\ In (type o) SUBSTANTIVE_TYPES).
    { intros o. subst valid. rewrite filter_In, Set_has_In. tauto. }
    assert (Hmain : (0 <? length (List.filter hasSubstance valid))%nat = true <->
                    exists o, In o (outcomes c) /\ In (type o) SUBSTANTIVE_TYPES /\
                              description o <> "" /\
                              forall keyword, In keyword EXCLUDE_KEYWORDS ->
                                              includes (description o) keyword = false).
    { rewrite length_filter_pos. split.
      - intros (o & Ho & Hs). apply Hvalid in Ho. apply hasSubstance_spec in Hs.
        exists o. tauto.
      - intros (o & Ho & Ht & Hd). exists o. split; [apply Hvalid; tauto|].
        apply hasSubstance_spec. exact Hd. }
    destruct (outcomes c) as [|o0 os] eqn:Eo.
    + split; [discriminate|]. intros (o & [] & _).
    + destruct valid as [|v vs] eqn:Ev; [|exact Hmain].
      rewrite <- Hmain. cbn. tauto.
  - intros E. unfold hasSubstantiveOutcome. now rewrite E.
Qed.

(** A cycle with one capability outcome that has a plain description. *)
Lemma hasSubstantiveOutcome_iff_witness :
  hasSubstantiveOutcome
    (addOutcome "t1" (Some {| in_type := Some "capability";
                              in_description := Some "parse session logs in one pass" |})
                (newCycle "pcec_0" "t0")) = true.
Proof.
  apply (proj1 (hasSubstantiveOutcome_iff _)).
  exists {| type := "capability"; description := "parse session logs in one pass";
            added_at := "t1" |}.
  split; [now left|]. split; [now left|]. split; [discriminate|].
  intros keyword Hk. cbn in Hk.
  repeat (destruct Hk as [<-|Hk]; [reflexivity|]). destruct Hk.
Defined.

End PcecProps.

(** ** Properties of src/tree/capability_tree.js *)

Section TreeProps.
Import JS Node CapabilityTree.

Lemma In_without x id cs : In x (without id cs) <-> In x cs /\ x <> id.
Proof.
  unfold without. rewrite filter_In, negb_true_iff. split; intros [H1 H2]; split; auto.
  - intros ->. rewrite String.eqb_refl in H2. discriminate.
  - now apply String.eqb_neq.
Qed.


Lemma evolves_gone t t' k : evolves t t' -> nodes t !! k = None -> nodes t' !! k = None.
Proof.
  intros He Hk. destruct (nodes t' !! k) as [n'|] eqn:E; [|reflexivity].
  destruct (ev_nodes _ _ He _ _ E) as (n & Hn & _). congruence.
Qed.

Lemma evolves_refl t : evolves t t.
Proof.
  constructor; auto.
  - intros k n' H. exists n'. auto.
  - intros k n n' x H1 H2 Hx. left. congruence.
  - intros k n c H1 H2. congruence.
Qed.

Lemma evolves_trans t t1 t2 : evolves t t1 -> evolves t1 t2 -> evolves t t2.
Proof.
  intros H1 H2. constructor.
  - rewrite (ev_root_id _ _ H2). apply (ev_root_id _ _ H1).
  - intros x Hx. apply (ev_root_children _ _ H1), (ev_root_children _ _ H2), Hx.
  - intros k n2 Hk2.
    destruct (ev_nodes _ _ H2 _ _ Hk2) as (n1 & Hk1 & Hp1 & Hc1).
    destruct (ev_nodes _ _ H1 _ _ Hk1) as (n & Hk & Hp & Hc).
    exists n. repeat split; auto. congruence.
  - intros k n n2 x Hk Hk2 Hx.
    destruct (ev_nodes _ _ H2 _ _ Hk2) as (n1 & Hk1 & _).
    destruct (ev_live _ _ H1 _ _ _ _ Hk Hk1 Hx) as [Hx1 | Hgone].
    + apply (ev_live _ _ H2 _ _ _ _ Hk1 Hk2 Hx1).
    + right. apply (evolves_gone _ _ _ H2 Hgone).
  - intros k n c Hk Hk2 Hc.
    destruct (nodes t1 !! k) as [n1|] eqn:Hk1.
    + destruct (ev_live _ _ H1 _ _ _ _ Hk Hk1 Hc) as [Hc1 | Hgone].
      * apply (ev_closed _ _ H2 _ _ _ Hk1 Hk2 Hc1).
      * apply (evolves_gone _ _ _ H2 Hgone).
    + apply (evolves_gone _ _ _ H2). apply (ev_closed _ _ H1 _ _ _ Hk Hk1 Hc).
Qed.


Lemma read_Stored k t n : read k t = Stored n <-> nodes t !! k = Some n.
Proof.
  unfold read. destruct (nodes t !! k); [|destruct (inherited k)]; split; congruence.
Qed.

Lemma read_Undefined k t : read k t = Undefined -> nodes t !! k = None.
Proof. unfold read. destruct (nodes t !! k); [discriminate | reflexivity]. Qed.

(** Under a key that names no member of [Object.prototype] the lookup
    sees the stored entries only. *)
Lemma read_own k t :
  inherited k = false ->
  read k t = match nodes t !! k with Some n => Stored n | None => Undefined end.
Proof. intros H. unfold read. now rewrite H. Qed.

Lemma detach_returns id p t t2 : detach id p t = Returned t2 -> detached id p t = t2.
Proof. unfold detached. now intros ->. Qed.

Lemma detach_own id p t : inherited p = false -> detach id p t = Returned (detached id p t).
Proof.
  intros H. unfold detached, detach. destruct (String.eqb p (root_id (root t))); [reflexivity|].
  rewrite (read_own _ _ H). destruct (nodes t !! p); reflexivity.
Qed.

Lemma detached_root_id id p t : root_id (root (detached id p t)) = root_id (root t).
Proof.
  unfold detached, detach. destruct (String.eqb p (root_id (root t))); [reflexivity|].
  destruct (read p t); reflexivity.
Qed.

Lemma detached_root_children id p t x :
  In x (root_children (root (detached id p t))) -> In x (root_children (root t)).
Proof.
  unfold detached, detach. destruct (String.eqb p (root_id (root t))); cbn.
  - intros H. now apply In_without in H.
  - destruct (read p t); auto.
Qed.

(** A node of the detached tree is a node of the tree, with the same
    parent, its children possibly without [id]. *)
Lemma detached_lookup id p t k n' :
  nodes (detached id p t) !! k = Some n' ->
  exists n, nodes t !! k = Some n /\ parent_id n' = parent_id n /\
            (forall x, In x (children n') -> In x (children n)) /\
            (forall x, In x (children n) -> x <> id -> In x (children n')).
Proof.
  unfold detached, detach. destruct (String.eqb p (root_id (root t))); cbn.
  - intros H. exists n'. auto.
  - destruct (read p t) as [pn| |] eqn:Hp; cbn.
    + apply read_Stored in Hp. rewrite lookup_insert. case_decide as E.
      * subst k. intros H. inversion H; subst n'; clear H. exists pn. cbn.
        repeat split; auto; intros x Hx.
        -- now apply In_without in Hx.
        -- intros Hne. apply In_without. auto.
      * intros H. exists n'. auto.
    + intros H. exists n'. auto.
    + intros H. exists n'. auto.
Qed.

Lemma detached_lookup_None id p t k :
  nodes (detached id p t) !! k = None <-> nodes t !! k = None.
Proof.
  unfold detached, detach. destruct (String.eqb p (root_id (root t))); cbn; [tauto|].
  destruct (read p t) as [pn| |] eqn:Hp; cbn; [|tauto|tauto].
  apply read_Stored in Hp.
  rewrite lookup_insert. case_decide as E; [|tauto].
  subst k. rewrite Hp. split; discriminate.
Qed.

Lemma finish_evolves id p t :
  (forall n c, nodes t !! id = Some n -> In c (children n) -> nodes t !! c = None) ->
  evolves t (finish id p t).
Proof.
  intros Hkids. constructor; cbn.
  - apply detached_root_id.
  - apply detached_root_children.
  - intros k n' H. apply lookup_delete_Some in H. destruct H as [Hne H].
    destruct (detached_lookup _ _ _ _ _ H) as (n & Hn & Hp & Hc & _). eauto.
  - intros k n n' x Hk H Hx. apply lookup_delete_Some in H. destruct H as [Hne H].
    destruct (detached_lookup _ _ _ _ _ H) as (n0 & Hn0 & _ & _ & Hc).
    assert (n0 = n) by congruence. subst n0.
    destruct (decide (x = id)) as [->|Hx'].
    + right. apply lookup_delete_eq.
    + left. auto.
  - intros k n c Hk H Hc. apply lookup_delete_None in H.
    destruct H as [E | Hgone].
    + subst k. apply lookup_delete_None. right.
      apply (proj2 (detached_lookup_None _ _ _ _)). eauto.
    + apply (proj1 (detached_lookup_None _ _ _ _)) in Hgone. congruence.
Qed.

Lemma removeEach_evolves (rec : string -> tree -> option (completion (bool * tree))) :
  (forall c t0 b t0', rec c t0 = Some (Returned (b, t0')) ->
     evolves t0 t0' /\ nodes t0' !! c = None) ->
  forall cs t0 t1, removeEach rec cs t0 = Some (Returned t1) ->
    evolves t0 t1 /\ forall c, In c cs -> nodes t1 !! c = None.
Proof.
  intros Hrec. induction cs as [|c cs IH]; cbn; intros t0 t1 H.
  - inversion H; subst. split; [apply evolves_refl | tauto].
  - destruct (rec c t0) as [[[b t0']|e|]|] eqn:Ec; try discriminate.
    destruct (Hrec _ _ _ _ Ec) as [Hev Hgone].
    destruct (IH _ _ H) as [Hev' Hgone'].
    split; [eapply evolves_trans; eauto|].
    intros x [<-|Hx]; [|auto]. apply (evolves_gone _ _ _ Hev' Hgone).
Qed.

Lemma removeNode_unfold fuel id t :
  removeNode fuel id t =
  match read id t with
  | Undefined => Some (Returned (false, t))
  | Member => Some Outside
  | Stored n =>
      match fuel with
      | O => None
      | S fuel' =>
          match removeEach (removeNode fuel') (children n) t with
          | None => None
          | Some (Thrown e) => Some (Thrown e)
          | Some Outside => Some Outside
          | Some (Returned t1) =>
              Some (bind (detach id (parent_id n) t1) (fun t2 =>
                    Returned (true, {| root := root t2; nodes := delete id (nodes t2) |})))
          end
      end
  end.
Proof. destruct fuel; reflexivity. Qed.

(** A removal that returned [true] found its node, removed the children
    it listed, and finished by detaching and deleting it. *)
Lemma removeNode_true fuel id t t' :
  removeNode fuel id t = Some (Returned (true, t')) ->
  exists n fuel' t1,
    nodes t !! id = Some n /\ fuel = S fuel' /\
    removeEach (removeNode fuel') (children n) t = Some (Returned t1) /\
    t' = finish id (parent_id n) t1.
Proof.
  rewrite removeNode_unfold. destruct (read id t) as [n| |] eqn:Hn; try discriminate.
  apply read_Stored in Hn. destruct fuel as [|fuel']; [discriminate|].
  destruct (removeEach _ _ _) as [[t1|e|]|] eqn:E1; try discriminate.
  destruct (detach id (parent_id n) t1) as [t2|e|] eqn:Ed; try discriminate.
  cbn [bind]. intros H. inversion H; subst t'; clear H.
  exists n, fuel', t1. repeat split; auto.
  unfold finish. now rewrite (detach_returns _ _ _ _ Ed).
Qed.

Lemma removeNode_evolves fuel : forall id t b t',
  removeNode fuel id t = Some (Returned (b, t')) -> evolves t t' /\ nodes t' !! id = None.
Proof.
  induction fuel as [|fuel IH]; intros id t b t' H; destruct b.
  - apply removeNode_true in H. destruct H as (n & fuel' & t1 & _ & E & _). discriminate.
  - rewrite removeNode_unfold in H. destruct (read id t) as [n| |] eqn:Hn; try discriminate.
    inversion H; subst. split; [apply evolves_refl | now apply read_Undefined].
  - apply removeNode_true in H. destruct H as (n & fuel' & t1 & Hn & E & E1 & ->).
    inversion E; subst fuel'; clear E.
    destruct (removeEach_evolves _ IH _ _ _ E1) as [Hev Hkids].
    split; [|apply lookup_delete_eq].
    eapply evolves_trans; [exact Hev|]. apply finish_evolves.
    intros n1 c Hn1 Hc. apply Hkids.
    destruct (ev_nodes _ _ Hev _ _ Hn1) as (n0 & Hn0 & _ & Hsub).
    assert (n0 = n) by congruence. subst n0. auto.
  - rewrite removeNode_unfold in H. destruct (read id t) as [n| |] eqn:Hn; try discriminate.
    + destruct (removeEach _ _ _) as [[t1|e|]|]; try discriminate.
      destruct (detach _ _ _); discriminate.
    + inversion H; subst. split; [apply evolves_refl | now apply read_Undefined].
Qed.


Lemma evolves_height h t t' : evolves t t' -> heightDecreases h t -> heightDecreases h t'.
Proof.
  intros He Hh k n' c m' Hk Hc Hm.
  destruct (ev_nodes _ _ He _ _ Hk) as (n & Hn & _ & Hsub).
  destruct (ev_nodes _ _ He _ _ Hm) as (m & Hm0 & _).
  eapply Hh; eauto.
Qed.

Lemma evolves_ownKeyed t t' : evolves t t' -> ownKeyed t -> ownKeyed t'.
Proof.
  intros He Ho k n' Hk.
  destruct (ev_nodes _ _ He _ _ Hk) as (n & Hn & Hp & Hsub).
  destruct (Ho _ _ Hn) as [H1 H2]. rewrite Hp. split; auto.
Qed.

(** On an acyclic tree whose nodes name no member of [Object.prototype],
    removeNode returns once the fuel exceeds the height of the node. *)
Lemma removeNode_total h fuel : forall id t,
  heightDecreases h t -> ownKeyed t -> inherited id = false -> (h id < fuel)%nat ->
  exists b t', removeNode fuel id t = Some (Returned (b, t')).
Proof.
  induction fuel as [|fuel IHfuel]; intros id t Hh Ho Hid Hf; [lia|].
  rewrite removeNode_unfold, (read_own _ _ Hid).
  destruct (nodes t !! id) as [n|] eqn:Hn; [|eauto].
  destruct (Ho _ _ Hn) as [Hpar Hkids].
  assert (Hloop : forall cs t0, evolves t t0 -> (forall c, In c cs -> In c (children n)) ->
                    exists t1, removeEach (removeNode fuel) cs t0 = Some (Returned t1)).
  { induction cs as [|c cs IHcs]; cbn; intros t0 He Hsub; [eauto|].
    assert (Hc : inherited c = false) by (apply Hkids, Hsub; now left).
    assert (exists b t0', removeNode fuel c t0 = Some (Returned (b, t0'))) as (b & t0' & Er).
    { destruct (nodes t0 !! c) as [m|] eqn:Hm.
      - apply IHfuel; [eapply evolves_height; eauto | eapply evolves_ownKeyed; eauto | exact Hc |].
        destruct (ev_nodes _ _ He _ _ Hm) as (m0 & Hm0 & _).
        assert (h c < h id)%nat by (eapply Hh; eauto; apply Hsub; now left). lia.
      - rewrite removeNode_unfold, (read_own _ _ Hc), Hm. eauto. }
    rewrite Er. apply IHcs.
    - eapply evolves_trans; [exact He|]. apply (removeNode_evolves _ _ _ _ _ Er).
    - intros; apply Hsub; now right. }
  destruct (Hloop (children n) t (evolves_refl t)) as [t1 E1]; [auto|].
  rewrite E1, (detach_own _ _ _ Hpar). cbn [bind]. eauto.
Qed.

(** After a successful removal from a well-formed tree nothing refers to
    the removed id. *)
Lemma removeNode_detached fuel id t t' :
  wellFormed t -> inherited id = false ->
  removeNode fuel id t = Some (Returned (true, t')) ->
  getNode id t' = None /\
  ~ In id (root_children (root t')) /\
  forall k m, nodes t' !! k = Some m -> ~ In id (children m).
Proof.
  intros Hwf Hinh Hr. apply removeNode_true in Hr.
  destruct Hr as (n & fuel' & t1 & Hn & -> & E1 & ->).
  destruct (removeEach_evolves _ (removeNode_evolves fuel') _ _ _ E1) as [Hev _].
  pose proof (ev_root_id _ _ Hev) as Hrid.
  assert (Hid : id <> root_id (root t)).
  { intros ->. rewrite (wf_root_fresh _ Hwf) in Hn. discriminate. }
  (* a reference to [id] that survives the loop names the parent of [id] *)
  assert (Hparent : forall k m, nodes t1 !! k = Some m -> In id (children m) ->
                                parent_id n = k /\ k <> root_id (root t)).
  { intros k m Hk Hin. destruct (ev_nodes _ _ Hev _ _ Hk) as (n0 & Hn0 & _ & Hsub).
    split; [eapply (wf_children _ Hwf); eauto|].
    intros ->. rewrite (wf_root_fresh _ Hwf) in Hn0. discriminate. }
  repeat split.
  - unfold getNode, finish; cbn. rewrite detached_root_id, Hrid.
    destruct (String.eqb_spec id (root_id (root t))); [contradiction|].
    rewrite (read_own _ _ Hinh). cbn. now rewrite lookup_delete_eq.
  - unfold finish, detached, detach; cbn.
    destruct (String.eqb_spec (parent_id n) (root_id (root t1))) as [Ep|Ep]; cbn.
    + intros Hin. apply In_without in Hin. tauto.
    + intros Hin. apply Ep. rewrite Hrid.
      apply (wf_root_children _ Hwf id n); [|assumption].
      apply (ev_root_children _ _ Hev). destruct (read (parent_id n) t1); exact Hin.
  - intros k m Hk Hin. unfold finish in Hk; cbn in Hk.
    apply lookup_delete_Some in Hk. destruct Hk as [Hne Hk].
    unfold detached, detach in Hk.
    destruct (String.eqb_spec (parent_id n) (root_id (root t1))) as [Ep|Ep]; cbn in Hk.
    + destruct (Hparent _ _ Hk Hin) as [E Hroot]. congruence.
    + destruct (read (parent_id n) t1) as [pn| |] eqn:Hp; cbn in Hk.
      * rewrite lookup_insert in Hk. case_decide as E.
        -- inversion Hk; subst m; clear Hk. cbn in Hin. apply In_without in Hin. tauto.
        -- destruct (Hparent _ _ Hk Hin) as [E' _]. congruence.
      * destruct (Hparent _ _ Hk Hin) as [E' _].
        unfold read in Hp. rewrite E', Hk in Hp. discriminate.
      * destruct (Hparent _ _ Hk Hin) as [E' _].
        unfold read in Hp. rewrite E', Hk in Hp. discriminate.
Qed.


Lemma evolves_descendant_gone t t' a d :
  evolves t t' -> descendant t a d -> nodes t' !! a = None -> nodes t' !! d = None.
Proof.
  intros He Hd. induction Hd as [a n c Ha Hc | a n c d Ha Hc _ IH]; intros Hgone.
  - apply (ev_closed _ _ He _ _ _ Ha Hgone Hc).
  - apply IH. apply (ev_closed _ _ He _ _ _ Ha Hgone Hc).
Qed.

Lemma emptyTree_wellFormed : wellFormed emptyTree /\ resolved emptyTree.
Proof.
  split; [constructor|split]; cbn [emptyTree nodes root root_children].
  - apply lookup_empty.
  - intros c m [].
  - intros k n c m H. rewrite lookup_empty in H. discriminate.
  - exists (fun _ => 0%nat). intros k n c m H. rewrite lookup_empty in H. discriminate.
  - intros c [].
  - intros k n c H. rewrite lookup_empty in H. discriminate.
Qed.

(** What addNode requires of the tree it returns from: the id reads as
    [undefined], and the parent is the root or a stored node. *)
Lemma addNode_returns (n : node) (t t' : tree) :
  addNode n t = Returned t' ->
  validateNode n = [] /\ nodes t !! id n = None /\ inherited (id n) = false /\
  ((parent_id n = root_id (root t) /\
    t' = {| root := set_root_children (root_children (root t) ++ [id n]) (root t);
            nodes := <[id n := n]> (nodes t) |}) \/
   (parent_id n <> root_id (root t) /\
    exists p, nodes t !! parent_id n = Some p /\
      t' = {| root := root t;
              nodes := <[id n := n]>
                         (<[parent_id n := set_children (children p ++ [id n]) p]>
                            (nodes t)) |})).
Proof.
  unfold addNode. destruct (validateNode n); [|discriminate].
  unfold read at 1. destruct (nodes t !! id n) eqn:Hfresh; [discriminate|].
  destruct (inherited (id n)) eqn:Hinh; [discriminate|]. cbn zeta.
  destruct (String.eqb_spec (parent_id n) (root_id (root t))) as [Ep|Ep].
  - intros H; inversion H. repeat split; auto.
  - destruct (read (parent_id n) t) as [p| |] eqn:Hp; try discriminate.
    apply read_Stored in Hp. intros H; inversion H. repeat split; auto. right. eauto.
Qed.

(** What a node of the tree after [addNode n] is, in terms of the tree
    before: the new leaf, or an old node with the same parent whose
    children list gained at most the new id, and only if it is the parent
    the new node names. *)
Lemma addNode_lookup (n : node) (t t' : tree) :
  children n = [] -> addNode n t = Returned t' ->
  nodes t !! id n = None /\
  root_id (root t') = root_id (root t) /\
  (forall c, In c (root_children (root t')) ->
             In c (root_children (root t)) \/
             (c = id n /\ parent_id n = root_id (root t))) /\
  (forall c, In c (root_children (root t)) -> In c (root_children (root t'))) /\
  nodes t' !! id n = Some n /\
  (forall k, k <> id n -> nodes t !! k = None -> nodes t' !! k = None) /\
  (forall k, is_Some (nodes t !! k) -> is_Some (nodes t' !! k)) /\
  (forall k x, k <> id n -> nodes t' !! k = Some x ->
     exists x0, nodes t !! k = Some x0 /\ parent_id x = parent_id x0 /\
       (forall c, In c (children x0) -> In c (children x)) /\
       (forall c, In c (children x) ->
                  In c (children x0) \/ (c = id n /\ parent_id n = k))).
Proof.
  intros Hleaf H. apply addNode_returns in H.
  destruct H as (_ & Hfresh & _ & [[Ep ->] | [Ep (p & Hp & ->)]]).
  - cbn. repeat split; auto.
    + intros c Hc. apply in_app_or in Hc. destruct Hc as [Hc|[<-|[]]]; auto.
    + intros c Hc. apply in_or_app. now left.
    + apply lookup_insert_eq.
    + intros k Hk Hn. now rewrite lookup_insert_ne.
    + intros k Hk. rewrite lookup_insert. case_decide; eauto.
    + intros k x Hk Hx. rewrite lookup_insert_ne in Hx by congruence.
      exists x. repeat split; auto.
  - cbn.
    assert (Hne : parent_id n <> id n) by congruence.
    repeat split; auto.
    + apply lookup_insert_eq.
    + intros k Hk Hn. rewrite lookup_insert_ne by congruence.
      rewrite lookup_insert_ne by congruence. assumption.
    + intros k Hk. rewrite lookup_insert. case_decide; [eauto|].
      rewrite lookup_insert. case_decide; eauto.
    + intros k x Hk Hx. rewrite lookup_insert_ne in Hx by congruence.
      rewrite lookup_insert in Hx. case_decide as E.
      * subst k. inversion Hx; subst x; clear Hx. exists p. cbn.
        repeat split; auto.
        -- intros c Hc. apply in_or_app. now left.
        -- intros c Hc. apply in_app_or in Hc. destruct Hc as [Hc|[<-|[]]]; auto.
      * exists x. repeat split; auto.
Qed.

(** Adding a leaf whose id is not the root's keeps the tree well-formed:
    well-formed trees are the trees addNode builds. *)
Lemma addNode_wellFormed (n : node) (t t' : tree) :
  wellFormed t -> resolved t ->
  children n = [] -> id n <> root_id (root t) ->
  addNode n t = Returned t' ->
  wellFormed t' /\ resolved t'.
Proof.
  intros Hwf [Hres_root Hres] Hleaf Hid Hadd.
  destruct (addNode_lookup _ _ _ Hleaf Hadd)
    as (Hfresh & Hrid & Hrc & Hrc' & Hnew & Hnone & Hkeep & Hold).
  assert (Hlive : forall c, is_Some (nodes t !! c) -> c <> id n).
  { intros c [x Hx] ->. congruence. }
  split; [constructor | split].
  - rewrite Hrid. apply Hnone; [congruence | apply (wf_root_fresh _ Hwf)].
  - intros c m Hc Hm. rewrite Hrid. destruct (Hrc c Hc) as [Hc0 | [-> Hp]].
    + assert (Hc' := Hlive c (Hres_root c Hc0)).
      destruct (Hold c m Hc' Hm) as (m0 & Hm0 & Hpm & _). rewrite Hpm.
      apply (wf_root_children _ Hwf c m0 Hc0 Hm0).
    + rewrite Hnew in Hm. now inversion Hm; subst.
  - intros k x c m Hk Hc Hm.
    destruct (decide (k = id n)) as [->|Hkn].
    { rewrite Hnew in Hk. inversion Hk; subst x. rewrite Hleaf in Hc. destruct Hc. }
    destruct (Hold k x Hkn Hk) as (x0 & Hx0 & _ & _ & Hcs).
    destruct (Hcs c Hc) as [Hc0 | [-> Hp]].
    + assert (Hc' := Hlive c (Hres k x0 c Hx0 Hc0)).
      destruct (Hold c m Hc' Hm) as (m0 & Hm0 & Hpm & _). rewrite Hpm.
      apply (wf_children _ Hwf k x0 c m0 Hx0 Hc0 Hm0).
    + rewrite Hnew in Hm. now inversion Hm; subst.
  - destruct (wf_acyclic _ Hwf) as [h Hh].
    exists (fun x => if decide (x = id n) then 0 else S (h x))%nat.
    intros k x c m Hk Hc Hm.
    destruct (decide (k = id n)) as [->|Hkn].
    { rewrite Hnew in Hk. inversion Hk; subst x. rewrite Hleaf in Hc. destruct Hc. }
    destruct (decide (c = id n)) as [->|Hcn]; [lia|].
    destruct (Hold k x Hkn Hk) as (x0 & Hx0 & _ & _ & Hcs).
    destruct (Hold c m Hcn Hm) as (m0 & Hm0 & _).
    destruct (Hcs c Hc) as [Hc0 | [-> _]]; [|contradiction].
    specialize (Hh k x0 c m0 Hx0 Hc0 Hm0). lia.
  - intros c Hc. destruct (Hrc c Hc) as [Hc0 | [-> _]]; [auto | rewrite Hnew; eauto].
  - intros k x c Hk Hc.
    destruct (decide (k = id n)) as [->|Hkn].
    { rewrite Hnew in Hk. inversion Hk; subst x. rewrite Hleaf in Hc. destruct Hc. }
    destruct (Hold k x Hkn Hk) as (x0 & Hx0 & _ & _ & Hcs).
    destruct (Hcs c Hc) as [Hc0 | [-> _]]; [eauto | rewrite Hnew; eauto].
Qed.

Lemma addNode_root_id (n : node) (t t' : tree) :
  addNode n t = Returned t' -> root_id (root t') = root_id (root t).
Proof.
  intros H. apply addNode_returns in H.
  destruct H as (_ & _ & _ & [[_ ->] | [_ (p & _ & ->)]]); reflexivity.
Qed.

Lemma addAll_wellFormed (ns : list node) : forall t t',
  wellFormed t -> resolved t ->
  Forall (fun n => children n = [] /\ id n <> root_id (root t)) ns ->
  addAll ns t = Returned t' ->
  wellFormed t' /\ resolved t'.
Proof.
  induction ns as [|n ns IH]; cbn; intros t t' Hwf Hres Hall H.
  - inversion H; subst. auto.
  - inversion Hall as [|? ? [Hleaf Hid] Hrest]; subst.
    destruct (addNode n t) as [t1|e|] eqn:E1; try discriminate. cbn in H.
    destruct (addNode_wellFormed _ _ _ Hwf Hres Hleaf Hid E1) as [Hwf1 Hres1].
    apply (IH t1 t' Hwf1 Hres1); [|assumption].
    rewrite (addNode_root_id _ _ _ E1). exact Hrest.
Qed.

Example testTree_built : addAll testNodes emptyTree = Returned testTree.
Proof. vm_compute. reflexivity. Qed.

Lemma testTree_wellFormed : wellFormed testTree.
Proof.
  destruct emptyTree_wellFormed as [Hwf Hres].
  apply (addAll_wellFormed testNodes emptyTree testTree Hwf Hres); [|apply testTree_built].
  repeat constructor; cbn; discriminate.
Qed.

Lemma testTree_ownKeyed : ownKeyed testTree.
Proof.
  intros k n Hk. cbn [testTree nodes] in Hk.
  repeat (apply lookup_insert_Some in Hk; destruct Hk as [[_ <-]|[_ Hk]];
          [split; [reflexivity | intros c Hc; cbn in Hc; intuition (subst; reflexivity)] |]).
  rewrite lookup_empty in Hk. discriminate.
Qed.

(** Where the parent id reads as [undefined] and is not the root's,
    addNode throws. *)
Lemma addNode_missing_parent (n : node) (t : tree) :
  parent_id n <> root_id (root t) -> read (parent_id n) t = Undefined ->
  exists e, addNode n t = Thrown e.
Proof.
  intros Hroot Hp. unfold addNode.
  destruct (validateNode n); [|eauto].
  destruct (read (id n) t); [eauto | eauto |]. cbn zeta.
  destruct (String.eqb_spec (parent_id n) (root_id (root t))); [contradiction|].
  rewrite Hp. eauto.
Qed.

(** The structural invariant on ids that name no member of
    [Object.prototype]: addNode throws where the parent id is neither the
    root's nor a stored node's; on a well-formed tree whose nodes name no
    such member either, removeNode(id) returns (with enough fuel for the
    recursion), and after it returned true getNode(id) is null, neither
    the root's nor any surviving node's children list contains id, and
    every descendant of id is removed. *)
Lemma removeNode_invariant (t : tree) :
  (forall n : node,
      parent_id n <> root_id (root t) -> nodes t !! parent_id n = None ->
      inherited (parent_id n) = false ->
      exists e, addNode n t = Thrown e) /\
  (wellFormed t -> forall id : string, inherited id = false ->
      (ownKeyed t -> exists fuel, forall fuel', (fuel <= fuel')%nat ->
          exists t', removeNode fuel' id t
                     = Some (Returned (bool_decide (is_Some (nodes t !! id)), t'))) /\
      (forall fuel t', removeNode fuel id t = Some (Returned (true, t')) ->
          getNode id t' = None /\
          ~ In id (root_children (root t')) /\
          (forall k m, nodes t' !! k = Some m -> ~ In id (children m)) /\
          (forall d, descendant t id d -> nodes t' !! d = None))).
Proof.
  split.
  { intros n Hroot Hp Hinh. apply addNode_missing_parent; [exact Hroot|].
    rewrite (read_own _ _ Hinh), Hp. reflexivity. }
  intros Hwf id Hinh. split.
  - intros Ho. destruct (wf_acyclic _ Hwf) as [h Hh]. exists (S (h id)). intros fuel' Hle.
    destruct (removeNode_total h fuel' id t Hh Ho Hinh ltac:(lia)) as (b & t' & Er).
    exists t'. rewrite Er. do 3 f_equal. destruct b.
    + apply removeNode_true in Er. destruct Er as (n & _ & _ & Hn & _).
      symmetry. apply bool_decide_eq_true. eauto.
    + rewrite removeNode_unfold, (read_own _ _ Hinh) in Er.
      destruct (nodes t !! id) as [n|] eqn:Hn.
      * destruct fuel'; [discriminate|].
        destruct (removeEach _ _ _) as [[t1|e|]|]; try discriminate.
        destruct (detach _ _ _); discriminate.
      * symmetry. apply bool_decide_eq_false. intros [x Hx]. discriminate.
  - intros fuel t' Hr.
    destruct (removeNode_detached _ _ _ _ Hwf Hinh Hr) as (H1 & H2 & H3).
    repeat split; auto.
    intros d Hd. destruct (removeNode_evolves _ _ _ _ _ Hr) as [Hev Hgone].
    eapply evolves_descendant_gone; eauto.
Qed.

(** Removing cap.a from the tree of the test suite: cap.a and its child
    cap.a.x are gone and the root lists cap.b only. *)
Example removeNode_testTree :
  let t' := finish "cap.a" "cap" (finish "cap.a.x" "cap.a" testTree) in
  removeNode 2 "cap.a" testTree = Some (Returned (true, t')) /\
  root_children (root t') = ["cap.b"] /\
  getNode "cap.a" t' = None /\
  ~ In "cap.a" (root_children (root t')) /\
  (forall k m, nodes t' !! k = Some m -> ~ In "cap.a" (children m)) /\
  (forall d, descendant testTree "cap.a" d -> nodes t' !! d = None).
Proof.
  cbn zeta.
  assert (E : removeNode 2 "cap.a" testTree
              = Some (Returned (true, finish "cap.a" "cap" (finish "cap.a.x" "cap.a" testTree))))
    by (vm_compute; reflexivity).
  split; [exact E|]. split; [vm_compute; reflexivity|].
  exact (proj2 (proj2 (removeNode_invariant testTree) testTree_wellFormed "cap.a" eq_refl) 2%nat _ E).
Qed.

(** C8: the parent id 'toString' is neither the root's nor a stored
    node's, and addNode does not throw: the test of the parent reads the
    member of [Object.prototype] under that name, and the call goes on to
    push the new id onto a [children] array of that member and to store
    the node.  removeNode passes its test for a stored node in the same
    way, and getNode answers such an id with the member, not with null,
    whatever was removed before. *)
Theorem addNode_member_parent :
  createNode "cap.x" "X" "low" "toString" = Returned (freshNode "cap.x" "X" "low" "toString") /\
  validateNode (freshNode "cap.x" "X" "low" "toString") = [] /\
  String.eqb "toString" (root_id (root emptyTree)) = false /\
  nodes emptyTree !! "toString" = None /\
  read "toString" emptyTree = Member /\
  addNode (freshNode "cap.x" "X" "low" "toString") emptyTree = Outside /\
  removeNode 1 "toString" emptyTree = Some Outside /\
  getNode "toString" emptyTree = Some (AMember "toString").
Proof. repeat split. Qed.

(** Why the root id must not be a node id: addNode accepts a node named
    like the root, and after removing it getNode still answers with the
    root. *)
Example root_id_clash :
  let clash := freshNode "cap" "Clash" "low" "cap" in
  exists t1 t2,
    addNode clash emptyTree = Returned t1 /\
    removeNode 1 "cap" t1 = Some (Returned (true, t2)) /\
    getNode "cap" t2 = Some (TheRoot (root t2)).
Proof.
  eexists. eexists. split; [reflexivity|]. split; reflexivity.
Qed.

Lemma isStale_never_triggered now getTime threshold (n : node) :
  last_triggered n = None -> isStale now getTime threshold n = false.
Proof. intros H. unfold isStale. rewrite H. now destruct (String.eqb _ _). Qed.

Lemma set_status_same (n : node) : set_status (status n) n = n.
Proof. now destruct n. Qed.

(** C10: pruneStale leaves every node whose last_triggered is null
    unchanged and never reports it as pruned, whatever the threshold and
    the value score; it changes no field of any node other than status,
    adds and removes no node, and leaves the root as it is. *)
Theorem pruneStale_frame (now : Z) (Date_getTime : string -> option Z)
    (threshold : Q) (t : tree) :
  let pruned := fst (pruneStale now Date_getTime threshold t) in
  let t' := snd (pruneStale now Date_getTime threshold t) in
  (forall k n, nodes t !! k = Some n -> last_triggered n = None ->
               nodes t' !! k = Some n /\ ~ In k pruned) /\
  (forall k n, nodes t !! k = Some n ->
               exists st, nodes t' !! k = Some (set_status st n)) /\
  (forall k, nodes t' !! k = None <-> nodes t !! k = None) /\
  root t' = root t.
Proof.
  cbn zeta. unfold pruneStale. cbn [fst snd nodes root]. repeat split.
  - rewrite lookup_fmap, H. cbn. now rewrite (isStale_never_triggered _ _ _ _ H0).
  - intros Hin. apply in_map_iff in Hin. destruct Hin as ([k' n'] & E & Hin).
    cbn in E. subst k'. apply filter_In in Hin. destruct Hin as [Hin Hst].
    apply list_elem_of_In, elem_of_map_to_list in Hin. cbn in Hst.
    assert (n' = n) by congruence. subst n'.
    rewrite (isStale_never_triggered _ _ _ _ H0) in Hst. discriminate.
  - intros k n Hk. rewrite lookup_fmap, Hk. cbn.
    destruct (isStale _ _ _ n); [eauto|]. exists (status n). now rewrite set_status_same.
  - rewrite lookup_fmap. destruct (nodes t !! k); cbn; [discriminate | reflexivity].
  - intros H. rewrite lookup_fmap, H. reflexivity.
Qed.

(** One hundred days after the instant 0, with a threshold of 30 days: the
    old node is marked and reported, the never-triggered node is unchanged. *)
Example pruneStale_agedTree :
  let now := 100 * 24 * 60 * 60 * 1000 in
  let r := pruneStale now (fun _ => Some 0) 30 agedTree in
  fst r = ["cap.old"] /\
  nodes (snd r) !! "cap.old" = Some (set_status "pruned" oldNode) /\
  nodes (snd r) !! "cap.new" = Some (freshNode "cap.new" "New" "low" "cap").
Proof. vm_compute. repeat split. Qed.

(** The never-triggered node of the aged tree stays as it is. *)
Lemma pruneStale_frame_witness :
  let r := pruneStale (100 * 24 * 60 * 60 * 1000) (fun _ => Some 0) 30 agedTree in
  nodes (snd r) !! "cap.new" = Some (freshNode "cap.new" "New" "low" "cap") /\
  ~ In "cap.new" (fst r).
Proof.
  apply (proj1 (pruneStale_frame (100 * 24 * 60 * 60 * 1000) (fun _ => Some 0) 30 agedTree));
    reflexivity.
Defined.

End TreeProps.

(** ** Further properties of src/gep/gene.js and src/core/selector.js *)

Section MatchingProps.
Import JS Gep Gene Selector.

Lemma In_Set_add x y s : In x (Set_add y s) <-> x = y \/ In x s.
Proof.
  split; [apply Set_add_inv|].
  intros [->|H]; [apply Set_add_new | now apply Set_add_old].
Qed.

Lemma In_fold_Set_add x l : forall acc,
  In x (fold_left (fun acc y => Set_add y acc) l acc) <-> In x l \/ In x acc.
Proof.
  induction l as [|y l IH]; cbn; intros acc; [tauto|].
  rewrite IH, In_Set_add. intuition congruence.
Qed.

Lemma In_Set_of x l : In x (Set_of l) <-> In x l.
Proof. unfold Set_of. rewrite In_fold_Set_add. cbn. tauto. Qed.

Lemma matchOne_range signals s : (0 <= matchOne signals s <= 1)%Q.
Proof.
  unfold matchOne. destruct (Set_has _ _); [split; discriminate|].
  destruct (_ && _); split; discriminate.
Qed.

Lemma inject_Z_length_cons {A : Type} (x : A) (l : list A) :
  (inject_Z (Z.of_nat (length (x :: l))) == inject_Z (Z.of_nat (length l)) + 1)%Q.
Proof.
  cbn [length]. rewrite Nat2Z.inj_succ. unfold Z.succ. now rewrite inject_Z_plus.
Qed.

Lemma matched_range signals required : forall acc,
  (acc <= fold_left (fun matched s => matched + matchOne signals s) required acc
       <= acc + inject_Z (Z.of_nat (length required)))%Q.
Proof.
  induction required as [|s required IH]; intros acc.
  - cbn. change (inject_Z (Z.of_nat 0)) with 0%Q. split; lra.
  - cbn [fold_left]. rewrite inject_Z_length_cons.
    pose proof (matchOne_range signals s) as H1.
    pose proof (IH (acc + matchOne signals s)%Q) as H2. split; lra.
Qed.

Lemma matched_all signals required :
  (forall s, In s required -> In s signals) ->
  forall acc,
  (fold_left (fun matched s => matched + matchOne signals s) required acc
   == acc + inject_Z (Z.of_nat (length required)))%Q.
Proof.
  induction required as [|s required IH]; intros Hall acc.
  - cbn. change (inject_Z (Z.of_nat 0)) with 0%Q. lra.
  - cbn [fold_left]. rewrite inject_Z_length_cons.
    rewrite IH by (intros; apply Hall; now right).
    assert (E : matchOne signals s = 1%Q).
    { unfold matchOne.
      assert (Set_has s (Set_of signals) = true) as ->; [|reflexivity].
      apply Set_has_In, In_Set_of, Hall. now left. }
    rewrite E. lra.
Qed.

Lemma length_pos_Q {A : Type} (x : A) (l : list A) :
  (0 < inject_Z (Z.of_nat (length (x :: l))))%Q.
Proof.
  rewrite inject_Z_length_cons.
  assert (0 <= inject_Z (Z.of_nat (length l)))%Q; [|lra].
  change 0%Q with (inject_Z 0). rewrite <- Zle_Qle. lia.
Qed.

(** X1: matchScore is a number of [0,1], whatever the gene and the signals. *)
Theorem matchScore_range (g : gene) (signals : list string) :
  (0 <= matchScore g signals <= 1)%Q.
Proof.
  unfold matchScore. destruct (signals_match g) as [|s required]; [split; discriminate|].
  pose proof (matched_range signals (s :: required) 0) as [H0 H1].
  pose proof (length_pos_Q s required) as Hpos.
  split.
  - apply Qle_shift_div_l; [assumption|]. lra.
  - apply Qle_shift_div_r; [assumption|]. lra.
Qed.

(** X2: A gene all of whose required signals are present verbatim scores 1;
    a gene that requires no signal scores 0. *)
Theorem matchScore_all_present (g : gene) (signals : list string) :
  (signals_match g <> [] ->
   (forall s, In s (signals_match g) -> In s signals) ->
   (matchScore g signals == 1)%Q) /\
  (signals_match g = [] -> matchScore g signals = 0%Q).
Proof.
  split.
  - intros Hne Hall. unfold matchScore.
    destruct (signals_match g) as [|s required]; [contradiction|].
    rewrite (matched_all signals (s :: required) Hall 0).
    pose proof (length_pos_Q s required) as Hpos.
    field. lra.
  - intros E. unfold matchScore. now rewrite E.
Qed.

Lemma matchScore_all_present_witness :
  (matchScore (createdGene "gene_test_repair" "repair" ["log_error"; "recurring_error"]
                           ["Fix the error"])
              ["recurring_error"; "log_error"; "other"] == 1)%Q.
Proof.
  apply (proj1 (matchScore_all_present
                  (createdGene "gene_test_repair" "repair" ["log_error"; "recurring_error"]
                               ["Fix the error"])
                  ["recurring_error"; "log_error"; "other"])).
  - discriminate.
  - cbn. intros s [<-|[<-|[]]]; auto.
Defined.

Lemma insertByScore_sorted x l :
  StronglySorted (fun a b => (score b <= score a)%Q) l ->
  StronglySorted (fun a b => (score b <= score a)%Q) (insertByScore x l).
Proof.
  induction 1 as [|y l Hs IH Hy]; cbn; [repeat constructor|].
  unfold Qlt_bool. destruct (Qle_bool (score x) (score y)) eqn:E; cbn.
  - apply Qle_bool_iff in E. constructor; [assumption|].
    apply List.Forall_forall. intros z Hz. apply In_insertByScore in Hz.
    destruct Hz as [->|Hz]; [assumption|].
    rewrite List.Forall_forall in Hy. auto.
  - assert (Hlt : (score y < score x)%Q).
    { apply Qnot_le_lt. intros Hle. apply Qle_bool_iff in Hle. congruence. }
    constructor; [now constructor|].
    constructor; [lra|]. rewrite List.Forall_forall in *. intros z Hz.
    specialize (Hy z Hz). lra.
Qed.

Lemma sortByScore_sorted l :
  StronglySorted (fun a b => (score b <= score a)%Q) (sortByScore l).
Proof.
  unfold sortByScore.
  assert (H : StronglySorted (fun a b => (score b <= score a)%Q) []) by constructor.
  revert H. generalize (@nil scoredGene).
  induction l as [|x l IH]; cbn; intros acc H; [assumption|].
  apply IH, insertByScore_sorted, H.
Qed.

(** X3: rankGenes lists exactly the stored genes whose matchScore is positive,
    each with that score, in descending order of score; for an empty
    signal set the ranking is empty. *)
Theorem rankGenes_sorted (genes : list gene) (signals : list string) :
  StronglySorted (fun a b => (score b <= score a)%Q) (rankGenes genes signals) /\
  (forall item, In item (rankGenes genes signals) <->
     signals <> [] /\ In (gene_of item) genes /\
     score item = matchScore (gene_of item) signals /\ (0 < score item)%Q) /\
  rankGenes genes [] = [].
Proof.
  split; [|split; [|reflexivity]].
  - unfold rankGenes. destruct signals; [constructor | apply sortByScore_sorted].
  - intros item. unfold rankGenes. destruct signals as [|s0 signals].
    { split; [intros [] | intros [H _]; congruence]. }
    rewrite In_sortByScore, filter_In, in_map_iff. split.
    + intros [(g & <- & Hg) Hpos]. cbn in *.
      split; [discriminate|]. split; [assumption|]. split; [reflexivity|].
      unfold Qlt_bool in Hpos. apply negb_true_iff in Hpos. apply Qnot_le_lt.
      intros Hle. apply Qle_bool_iff in Hle. congruence.
    + intros (_ & Hg & Hs & Hpos). split.
      * exists (gene_of item). split; [|assumption]. destruct item; cbn in *. now subst.
      * unfold Qlt_bool. apply negb_true_iff.
        destruct (Qle_bool (score item) 0) eqn:E; [|reflexivity].
        apply Qle_bool_iff in E. lra.
Qed.

(** With the signals log_error and stable_success_plateau the optimize
    gene (score 1) is selected and outscores the repair gene (score 0.5),
    which also reaches the minimum. *)
Lemma selectGene_top_score_witness :
  (scoreOf None ["log_error"; "stable_success_plateau"]
     (createdGene "gene_test_repair" "repair" ["log_error"; "recurring_error"] ["Fix the error"])
   <= scoreOf None ["log_error"; "stable_success_plateau"]
        (createdGene "gene_test_optimize" "optimize" ["stable_success_plateau"]
                     ["Optimize performance"]))%Q.
Proof.
  apply (selectGene_top_score testGenes ["log_error"; "stable_success_plateau"] noOptions).
  - reflexivity.
  - now left.
  - vm_compute. discriminate.
Defined.

End MatchingProps.

(** ** Further properties of src/core/signals.js *)

Section SignalsMoreProps.
Import JS Signals SignalKinds.

Lemma fold_left_inv {A S : Type} (P : S -> Prop) (step : S -> A -> S) :
  (forall s a, P s -> P (step s a)) ->
  forall l s, P s -> P (fold_left step l s).
Proof.
  intros Hstep l. induction l as [|a l IH]; cbn; intros s Hs; [assumption|].
  apply IH, Hstep, Hs.
Qed.

Lemma repeatLoop_inv (P : list string -> Prop) :
  (forall x s, P s -> P (Set_add x s)) ->
  forall rest prev n s, P s -> P (repeatLoop prev rest n s).
Proof.
  intros Hadd. induction rest as [|t rest IH]; cbn; intros prev n s H; [assumption|].
  destruct (String.eqb t prev); [|now apply IH].
  apply IH. match goal with |- context [if ?b then _ else _] => destruct b end; auto.
Qed.

(** extractSignals builds its result from the empty set by additions
    only: whatever holds of the empty set and is kept by an addition holds
    of the result. *)
Lemma extractSignals_built (P : list string -> Prop) feature norm entries :
  P [] -> (forall x s, P s -> P (Set_add x s)) ->
  P (extractSignals feature norm entries).
Proof.
  intros Hnil Hadd. unfold extractSignals.
  destruct entries as [|e0 l]; [assumption|]. set (es := e0 :: l).
  destruct (fold_left (errorStep norm) es ([], [])) as [s0 counts] eqn:Eerr.
  assert (H0 : P s0).
  { change s0 with (fst (s0, counts)). rewrite <- Eerr.
    apply (fold_left_inv (fun acc => P (fst acc))); [|exact Hnil].
    intros [s c] e Hs. cbn [fst] in Hs. unfold errorStep.
    destruct (msg e); cbn zeta;
      repeat match goal with
             | |- context [if ?b then _ else _] => destruct b; cbn [fst]
             end; auto. }
  repeat first
    [ assumption
    | apply Hadd
    | apply (repeatLoop_inv P Hadd)
    | apply (fold_left_inv P);
      [ intros ? ? ?; unfold opportunityStep, capabilityStep;
        repeat match goal with
               | |- context [if ?b then _ else _] => destruct b
               | |- context [match ?m with NoMessage => _ | _ => _ end] => destruct m
               end; auto |]
    | match goal with
      | |- P (if ?b then _ else _) => destruct b
      | |- P (match ?t with [] => _ | _ :: _ => _ end) => destruct t
      end ].
Qed.

Lemma Set_add_NoDup x s : List.NoDup s -> List.NoDup (Set_add x s).
Proof.
  intros H. unfold Set_add. destruct (Set_has x s) eqn:E; [assumption|].
  apply List.NoDup_app; [assumption | |].
  - constructor; [intros [] | constructor].
  - intros y Hy [<-|[]]. apply Set_has_In in Hy. congruence.
Qed.

(** X5: No signal is emitted twice, and an empty log yields no signal. *)
Theorem extractSignals_no_duplicates
    (FEATURE_KEYWORDS_test : string -> bool) (normalizeDetail : string -> string)
    (entries : list entry) :
  List.NoDup (extractSignals FEATURE_KEYWORDS_test normalizeDetail entries) /\
  extractSignals FEATURE_KEYWORDS_test normalizeDetail [] = [].
Proof.
  split; [|reflexivity].
  apply (extractSignals_built (@List.NoDup string)); [constructor|].
  intros x s. apply Set_add_NoDup.
Qed.

Lemma laterSignal_literal x :
  In x ["recurring_error"; "user_feature_request"; "stable_success_plateau";
        "repair_loop_detected"; "evolution_stagnation"] -> laterSignal x.
Proof. unfold laterSignal. cbn. intuition auto. Qed.

(** The loops after the error loop start from the signals of the error
    loop and add later signals only. *)
Lemma extractSignals_tail (P : list string -> Prop) feature norm entries :
  entries <> [] ->
  P (fst (fold_left (errorStep norm) entries ([], []))) ->
  (forall x s, laterSignal x -> P s -> P (Set_add x s)) ->
  P (extractSignals feature norm entries).
Proof.
  intros Hne H0 Hadd. unfold extractSignals.
  destruct entries as [|e0 l]; [contradiction|]. set (es := e0 :: l) in *.
  destruct (fold_left (errorStep norm) es ([], [])) as [s0 counts] eqn:Eerr.
  cbn [fst] in H0.
  assert (Hlit : forall x s,
             In x ["recurring_error"; "user_feature_request"; "stable_success_plateau";
                   "repair_loop_detected"; "evolution_stagnation"] ->
             P s -> P (Set_add x s)).
  { intros x s Hx. apply Hadd, laterSignal_literal, Hx. }
  assert (Htool : forall y s, P s -> P (Set_add ("high_tool_usage:" +:+ y) s)).
  { intros y s. apply Hadd. unfold laterSignal. eauto 10. }
  assert (Hrep : forall y s, P s -> P (Set_add ("repeated_tool_usage:" +:+ y) s)).
  { intros y s. apply Hadd. unfold laterSignal. eauto 10. }
  assert (Hcap : forall y s, P s -> P (Set_add ("capability_candidate:" +:+ y) s)).
  { intros y s. apply Hadd. unfold laterSignal. eauto 10. }
  assert (Hloop : forall rest prev n s, P s -> P (repeatLoop prev rest n s)).
  { induction rest as [|t rest IH]; cbn; intros prev n s H; [assumption|].
    destruct (String.eqb t prev); [|now apply IH].
    apply IH. match goal with |- context [if ?b then _ else _] => destruct b end; auto. }
  repeat first
    [ assumption
    | apply Htool | apply Hrep | apply Hcap
    | apply Hlit; [cbn; tauto|]
    | apply Hloop
    | apply (fold_left_inv P);
      [ intros ? ? ?; unfold opportunityStep, capabilityStep;
        repeat match goal with
               | |- context [if ?b then _ else _] => destruct b
               | |- context [match ?m with NoMessage => _ | _ => _ end] => destruct m
               end;
        repeat first [ assumption | apply Hcap | apply Hlit; [cbn; tauto|] ] |]
    | match goal with
      | |- P (if ?b then _ else _) => destruct b
      | |- P (match ?t with [] => _ | _ :: _ => _ end) => destruct t
      end ].
Qed.

(** What the error loop has collected after one more entry. *)
Lemma errorStep_signals norm acc e x :
  In x (fst (errorStep norm acc e)) ->
  In x (fst acc) \/
  (isErrorEntry e = true /\ (x = "log_error" \/ exists d, x = "errsig:" +:+ d)).
Proof.
  destruct acc as [s c]. cbn [fst]. unfold errorStep, isErrorEntry, isErrorMessage, message_truthy.
  destruct (msg e) as [|m|str]; cbn zeta;
    destruct (str_is (type e) "message"); destruct (str_is (level e) "error");
    destruct (str_is (type e) "error"); cbn [andb orb negb];
    repeat match goal with
           | |- context [if ?b then _ else _] => destruct b eqn:?; cbn [fst andb orb negb]
           end;
    rewrite ?In_Set_add; intuition eauto.
Qed.

Lemma errorStep_log_error norm acc e :
  In "log_error" (fst (errorStep norm acc e)) <->
  In "log_error" (fst acc) \/ isErrorEntry e = true.
Proof.
  split.
  - intros H. apply errorStep_signals in H. tauto.
  - destruct acc as [s c]. cbn [fst].
    unfold errorStep, isErrorEntry, isErrorMessage, message_truthy.
    destruct (msg e) as [|m|str]; cbn zeta;
      destruct (str_is (type e) "message"); destruct (str_is (level e) "error");
      destruct (str_is (type e) "error"); cbn [andb orb negb];
      repeat match goal with
             | |- context [if ?b then _ else _] => destruct b eqn:?; cbn [fst andb orb negb]
             end;
      rewrite ?In_Set_add; intuition (try discriminate; auto).
Qed.

Lemma errorLoop_log_error norm l : forall acc,
  In "log_error" (fst (fold_left (errorStep norm) l acc)) <->
  In "log_error" (fst acc) \/ existsb isErrorEntry l = true.
Proof.
  induction l as [|e l IH]; cbn [fold_left existsb]; intros acc.
  - intuition discriminate.
  - rewrite IH, errorStep_log_error, orb_true_iff. tauto.
Qed.

(** X6: 'log_error' is emitted exactly when some entry is an error entry. *)
Theorem extractSignals_log_error
    (FEATURE_KEYWORDS_test : string -> bool) (normalizeDetail : string -> string)
    (entries : list entry) :
  In "log_error" (extractSignals FEATURE_KEYWORDS_test normalizeDetail entries) <->
  exists e, In e entries /\ isErrorEntry e = true.
Proof.
  rewrite <- existsb_exists.
  destruct entries as [|e0 l]; [cbn; intuition discriminate|].
  set (es := e0 :: l).
  assert (H : In "log_error" (extractSignals FEATURE_KEYWORDS_test normalizeDetail es) <->
              In "log_error" (fst (fold_left (errorStep normalizeDetail) es ([], [])))).
  { apply (extractSignals_tail
             (fun s => In "log_error" s <->
                       In "log_error" (fst (fold_left (errorStep normalizeDetail) es ([], []))))).
    - discriminate.
    - reflexivity.
    - intros x s Hx Hs. rewrite In_Set_add, Hs.
      assert ("log_error" <> x).
      { unfold laterSignal in Hx.
        destruct Hx as [->|[->|[->|[->|[->|[[y ->]|[[y ->]|[y ->]]]]]]]]; cbn; discriminate. }
      tauto. }
  rewrite H, errorLoop_log_error. cbn [fst]. intuition auto.
Qed.

(** X7: Every signal extractSignals emits belongs to its vocabulary. *)
Theorem extractSignals_vocabulary
    (FEATURE_KEYWORDS_test : string -> bool) (normalizeDetail : string -> string)
    (entries : list entry) (x : string) :
  In x (extractSignals FEATURE_KEYWORDS_test normalizeDetail entries) -> knownSignal x.
Proof.
  destruct entries as [|e0 l]; [intros []|]. set (es := e0 :: l). revert x.
  apply (extractSignals_tail (fun s => forall x, In x s -> knownSignal x)).
  - discriminate.
  - apply (fold_left_inv (fun acc => forall x, In x (fst acc) -> knownSignal x)).
    + intros acc e Hacc x Hx. apply errorStep_signals in Hx.
      destruct Hx as [Hx | [_ Hx]]; [auto|]. unfold knownSignal. tauto.
    + intros x [].
  - intros y s Hy Hs x Hx. apply In_Set_add in Hx. destruct Hx as [->|Hx]; [|auto].
    unfold knownSignal. tauto.
Qed.

Lemma extractSignals_vocabulary_witness :
  knownSignal "errsig:timeout".
Proof.
  apply (extractSignals_vocabulary (fun _ => false) normalizeAscii
           [errorEntry (Some "timeout")] "errsig:timeout").
  vm_compute. tauto.
Defined.

End SignalsMoreProps.

(** ** Further properties of src/tree/pruner.js *)

Section PrunerMoreProps.
Import JS Node Pruner PrunerKinds.

Lemma Set_of_NoDup l : List.NoDup (Set_of l).
Proof.
  unfold Set_of.
  apply (fold_left_inv (@List.NoDup string)); [|constructor].
  intros s x. apply Set_add_NoDup.
Qed.

Lemma tokenize_NoDup name : List.NoDup (tokenize name).
Proof.
  unfold tokenize. destruct (String.eqb name ""); [constructor | apply Set_of_NoDup].
Qed.

Lemma intersection_length (setA setB : list string) :
  List.NoDup setA -> List.NoDup setB ->
  length (List.filter (fun item => Set_has item setB) setA)
  = length (List.filter (fun item => Set_has item setA) setB).
Proof.
  intros HA HB. apply Permutation_length, Stdlib.Sorting.Permutation.NoDup_Permutation.
  - now apply List.NoDup_filter.
  - now apply List.NoDup_filter.
  - intros x. rewrite !filter_In, !Set_has_In. tauto.
Qed.

Lemma intersection_le (setA setB : list string) :
  List.NoDup setA ->
  (length (List.filter (fun item => Set_has item setB) setA) <= length setB)%nat.
Proof.
  intros HA. apply List.NoDup_incl_length; [now apply List.NoDup_filter|].
  intros x Hx. apply filter_In in Hx. now apply Set_has_In.
Qed.

Lemma intersection_self (s : list string) :
  List.filter (fun item => Set_has item s) s = s.
Proof.
  apply forallb_filter_id. apply forallb_forall. intros x Hx. now apply Set_has_In.
Qed.

Lemma jaccard_self (s : list string) : (jaccardSimilarity s s == 1)%Q.
Proof.
  unfold jaccardSimilarity. destruct s as [|x s]; [reflexivity|].
  cbn [length Nat.eqb andb orb]. cbn zeta. rewrite intersection_self.
  cbn [length]. replace (S (length s) + S (length s) - S (length s))%nat
    with (S (length s)) by lia.
  cbn [Nat.eqb].
  assert (0 < inject_Z (Z.of_nat (S (length s))))%Q.
  { change 0%Q with (inject_Z 0). rewrite <- Zlt_Qlt. lia. }
  field. lra.
Qed.

Lemma jaccard_range (setA setB : list string) :
  List.NoDup setA -> (0 <= jaccardSimilarity setA setB <= 1)%Q.
Proof.
  intros HA. unfold jaccardSimilarity.
  destruct (_ && _); [split; discriminate|].
  destruct (_ || _); [split; discriminate|]. cbn zeta.
  pose proof (intersection_le setA setB HA) as Hle.
  pose proof (List.filter_length_le (fun item => Set_has item setB) setA) as Hle'.
  set (i := length (List.filter _ setA)) in *.
  destruct (Nat.eqb_spec (length setA + length setB - i) 0) as [E|E]; [split; discriminate|].
  assert (Hu : (0 < inject_Z (Z.of_nat (length setA + length setB - i)))%Q).
  { change 0%Q with (inject_Z 0). rewrite <- Zlt_Qlt. lia. }
  split.
  - apply Qle_shift_div_l; [assumption|]. rewrite Qmult_0_l.
    change 0%Q with (inject_Z 0). rewrite <- Zle_Qle. lia.
  - apply Qle_shift_div_r; [assumption|]. rewrite Qmult_1_l.
    rewrite <- Zle_Qle. lia.
Qed.

(** X8: The similarity of two names is a number of [0,1], does not depend on
    the order of the two names, and is 1 for a name against itself. *)
Theorem name_similarity (nameA nameB : string) :
  (0 <= jaccardSimilarity (tokenize nameA) (tokenize nameB) <= 1)%Q /\
  jaccardSimilarity (tokenize nameA) (tokenize nameB)
  = jaccardSimilarity (tokenize nameB) (tokenize nameA) /\
  (jaccardSimilarity (tokenize nameA) (tokenize nameA) == 1)%Q.
Proof.
  split; [apply jaccard_range, tokenize_NoDup|]. split; [|apply jaccard_self].
  unfold jaccardSimilarity.
  rewrite (intersection_length _ _ (tokenize_NoDup nameA) (tokenize_NoDup nameB)).
  rewrite (andb_comm (length (tokenize nameA) =? 0)%nat).
  rewrite (orb_comm (length (tokenize nameA) =? 0)%nat).
  rewrite (Nat.add_comm (length (tokenize nameA))). reflexivity.
Qed.

(** X9: Two non-pruned nodes with the same name are always reported as a
    merge suggestion, in the order they are listed (also when both names
    are empty). *)
Theorem same_name_suggested (now : Z) (Date_getTime : string -> option Z)
    (nodes l1 l2 l3 : list node) (a b : node) :
  List.filter (fun n => negb (String.eqb (status n) "pruned")) nodes
    = l1 ++ a :: l2 ++ b :: l3 ->
  name a = name b ->
  In (id a, id b) (merge_suggestions (analyzePruning now Date_getTime nodes)).
Proof.
  intros Hact Hname. rewrite merge_suggestions_eq. apply In_mergePairs.
  exists l1, a, l2, b, l3. repeat split; auto.
  rewrite <- Hname. rewrite jaccard_self. reflexivity.
Qed.

Lemma same_name_suggested_witness :
  In ("cap.a", "cap.b")
     (merge_suggestions
        (analyzePruning 0 (fun _ => None)
           [freshNode "cap.a" "Rich Messaging" "mid" "cap";
            freshNode "cap.b" "Rich Messaging" "mid" "cap"])).
Proof.
  apply (same_name_suggested 0 (fun _ => None) _ [] [] []
           (freshNode "cap.a" "Rich Messaging" "mid" "cap")
           (freshNode "cap.b" "Rich Messaging" "mid" "cap")); reflexivity.
Defined.

Lemma classify_cases now getTime (c a : list node) (x : node) :
  classify now getTime (c, a) x =
  if isAuto now getTime x then (c, a ++ [x])
  else if isCandidate now getTime x then (c ++ [x], a)
  else (c, a).
Proof.
  unfold classify, isCandidate, isAuto.
  destruct (days_gt _ AUTO_PRUNE_DAYS); [reflexivity|]. reflexivity.
Qed.

Lemma classify_lists now getTime l : forall acc n,
  (In n (snd (fold_left (classify now getTime) l acc)) <->
   In n (snd acc) \/ (In n l /\ isAuto now getTime n = true)) /\
  (In n (fst (fold_left (classify now getTime) l acc)) <->
   In n (fst acc) \/ (In n l /\ isCandidate now getTime n = true)).
Proof.
  induction l as [|x l IH]; intros [c a] n; cbn [fold_left fst snd].
  - cbn. tauto.
  - destruct (IH (classify now getTime (c, a) x) n) as [IHa IHc].
    rewrite IHa, IHc, classify_cases. clear IHa IHc. cbn [In].
    assert (Hexcl : isAuto now getTime x = true -> isCandidate now getTime x = false).
    { intros E. unfold isCandidate. now rewrite E. }
    destruct (isAuto now getTime x) eqn:Ea;
      [specialize (Hexcl eq_refl)
      |clear Hexcl; destruct (isCandidate now getTime x) eqn:Ec];
      cbn [fst snd]; rewrite ?in_app_iff; cbn [In]; split; split;
      intuition (subst; try congruence; auto).
Qed.

(** X10: analyzePruning lists under auto_prune exactly the non-pruned nodes
    untriggered for more than 60 days, under candidate_prune exactly the
    non-pruned nodes untriggered for more than 30 (and not more than 60)
    days whose value score is unset or below 40; no node is in both
    lists, and a non-pruned node that was never triggered is always under
    auto_prune. *)
Theorem analyzePruning_classes (now : Z) (Date_getTime : string -> option Z)
    (nodes : list node) (n : node) :
  let r := analyzePruning now Date_getTime nodes in
  (In n (auto_prune r) <->
   In n nodes /\ notPruned n = true /\ isAuto now Date_getTime n = true) /\
  (In n (candidate_prune r) <->
   In n nodes /\ notPruned n = true /\ isCandidate now Date_getTime n = true) /\
  ~ (In n (auto_prune r) /\ In n (candidate_prune r)) /\
  (In n nodes -> notPruned n = true -> last_triggered n = None -> In n (auto_prune r)).
Proof.
  cbn zeta. unfold analyzePruning.
  pose proof (classify_lists now Date_getTime
                (List.filter (fun n => negb (String.eqb (status n) "pruned")) nodes)
                ([], []) n) as [Ha Hc].
  destruct (fold_left _ _ _) as [c a]. cbn [fst snd auto_prune candidate_prune] in *.
  rewrite Ha, Hc, filter_In. fold (notPruned n). cbn [In].
  assert (Hexcl : isAuto now Date_getTime n = true -> isCandidate now Date_getTime n = false).
  { intros E. unfold isCandidate. now rewrite E. }
  repeat split; try tauto.
  - intros [[[]|H1] [[]|H2]]. destruct H1 as [_ H1], H2 as [_ H2].
    rewrite (Hexcl H1) in H2. discriminate.
  - intros Hn Hs Hl. right. repeat split; auto.
    unfold isAuto, daysSinceTriggered. now rewrite Hl.
Qed.

Lemma analyzePruning_classes_witness :
  In (freshNode "cap.a" "A" "mid" "cap")
     (auto_prune (analyzePruning 0 (fun _ => None) [freshNode "cap.a" "A" "mid" "cap"])).
Proof.
  apply (analyzePruning_classes 0 (fun _ => None) [freshNode "cap.a" "A" "mid" "cap"]
           (freshNode "cap.a" "A" "mid" "cap")); [now left | reflexivity | reflexivity].
Defined.

End PrunerMoreProps.

(** ** Further properties of src/tree/node.js and src/tree/capability_tree.js *)

Section TreeMoreProps.
Import JS Node CapabilityTree TreeQueries Pruner PrunerKinds.

Lemma createNode_returns i nm lv p n :
  createNode i nm lv p = Returned n ->
  n = freshNode i nm lv p /\ i <> "" /\ nm <> "" /\ In lv VALID_LEVELS /\ p <> "".
Proof.
  unfold createNode.
  destruct (String.eqb_spec i ""); [discriminate|].
  destruct (String.eqb_spec nm ""); [discriminate|].
  destruct (Set_has lv VALID_LEVELS) eqn:El; [|discriminate]. cbn [negb].
  destruct (String.eqb_spec p ""); [discriminate|].
  intros H; inversion H. repeat split; auto. now apply Set_has_In.
Qed.

Lemma freshNode_valid i nm lv p :
  i <> "" -> nm <> "" -> In lv VALID_LEVELS -> p <> "" ->
  createNode i nm lv p = Returned (freshNode i nm lv p) /\
  validateNode (freshNode i nm lv p) = [].
Proof.
  intros Hi Hn Hl Hp. apply Set_has_In in Hl.
  unfold createNode, validateNode.
  cbn [freshNode id name level parent_id status trigger_count v_score].
  destruct (String.eqb_spec i ""); [contradiction|].
  destruct (String.eqb_spec nm ""); [contradiction|].
  rewrite Hl.
  destruct (String.eqb_spec p ""); [contradiction|]. split; reflexivity.
Qed.

(** X11: createNode returns exactly when the id, the name and the parent id are
    non-empty and the level is one of low, mid, high; the node it returns
    is an active leaf that validateNode accepts without errors. *)
Theorem createNode_validates (i nm lv p : string) :
  ((exists n, createNode i nm lv p = Returned n) <->
   i <> "" /\ nm <> "" /\ In lv VALID_LEVELS /\ p <> "") /\
  (forall n, createNode i nm lv p = Returned n ->
     validateNode n = [] /\ id n = i /\ parent_id n = p /\
     status n = "active" /\ children n = [] /\ last_triggered n = None).
Proof.
  split; [split|].
  - intros [n H]. apply createNode_returns in H. tauto.
  - intros (Hi & Hn & Hl & Hp). eexists. apply freshNode_valid; auto.
  - intros n H. apply createNode_returns in H.
    destruct H as (-> & Hi & Hn & Hl & Hp).
    split; [apply freshNode_valid; auto|]. cbn. auto.
Qed.

Lemma createNode_validates_witness :
  validateNode (freshNode "cap.a" "A" "mid" "cap") = [].
Proof.
  apply (proj2 (createNode_validates "cap.a" "A" "mid" "cap")). reflexivity.
Defined.


Lemma without_fresh id cs : ~ In id cs -> without id cs = cs.
Proof.
  unfold without. induction cs as [|c cs IH]; cbn; intros H; [reflexivity|].
  destruct (String.eqb_spec c id) as [->|Hne]; cbn.
  - exfalso. apply H. now left.
  - f_equal. apply IH. tauto.
Qed.

Lemma without_app_last id cs : ~ In id cs -> without id (cs ++ [id]) = cs.
Proof.
  intros H. unfold without. rewrite List.filter_app. fold (without id cs).
  rewrite (without_fresh _ _ H). cbn. rewrite String.eqb_refl. cbn. apply app_nil_r.
Qed.

Lemma set_children_back cs (p : node) : set_children (children p) (set_children cs p) = p.
Proof. now destruct p. Qed.

Lemma set_root_children_back cs (r : rootNode) :
  set_root_children (root_children r) (set_root_children cs r) = r.
Proof. now destruct r. Qed.

(** X12: Removing a leaf just added gives back the tree as it was: addNode and
    removeNode are inverse on a tree whose child references all name
    stored nodes. *)
Theorem addNode_removeNode (n : node) (t t' : tree) :
  resolved t -> children n = [] ->
  addNode n t = Returned t' ->
  removeNode 1 (id n) t' = Some (Returned (true, t)).
Proof.
  intros [Hres_root Hres] Hleaf Hadd. apply addNode_returns in Hadd.
  destruct Hadd as (_ & Hfresh & _ & Hadd).
  assert (Hlive : forall c, is_Some (nodes t !! c) -> c <> id n).
  { intros c [x Hx] ->. congruence. }
  destruct t as [r m]. cbn [nodes root] in *.
  destruct Hadd as [[Ep ->] | [Ep (p & Hp & ->)]].
  - cbn [removeNode]. unfold read at 1. cbn [nodes].
    rewrite lookup_insert_eq, Hleaf. cbn [removeEach].
    unfold detach. cbn [root nodes set_root_children root_id root_children].
    destruct (String.eqb_spec (parent_id n) (root_id r)); [|contradiction].
    cbn [bind root nodes]. rewrite without_app_last.
    + rewrite delete_insert_id by assumption. now destruct r.
    + intros Hin. apply (Hlive _ (Hres_root _ Hin)). reflexivity.
  - assert (Hne : parent_id n <> id n) by congruence.
    cbn [removeNode]. unfold read at 1. cbn [nodes].
    rewrite lookup_insert_eq, Hleaf. cbn [removeEach].
    unfold detach, read. cbn [root nodes].
    destruct (String.eqb_spec (parent_id n) (root_id r)); [contradiction|].
    rewrite lookup_insert_ne by congruence. rewrite lookup_insert_eq.
    cbn [bind root nodes children set_children]. do 3 f_equal. f_equal.
    apply map_eq. intros k.
    destruct (decide (k = id n)) as [->|Hk]; [now rewrite lookup_delete_eq|].
    rewrite lookup_delete_ne by congruence.
    destruct (decide (k = parent_id n)) as [->|Hkp].
    + rewrite lookup_insert_eq, Hp. f_equal.
      rewrite without_app_last; [now destruct p|].
      intros Hin. apply (Hlive _ (Hres _ _ _ Hp Hin)). reflexivity.
    + rewrite !lookup_insert_ne by congruence. reflexivity.
Qed.

Lemma addNode_removeNode_witness :
  removeNode 1 "cap.a"
    {| root := set_root_children ["cap.a"] (root emptyTree);
       nodes := <["cap.a" := freshNode "cap.a" "A" "mid" "cap"]> (nodes emptyTree) |}
  = Some (Returned (true, emptyTree)).
Proof.
  apply (addNode_removeNode (freshNode "cap.a" "A" "mid" "cap") emptyTree);
    [apply emptyTree_wellFormed | reflexivity | reflexivity].
Defined.


(** The nodes collected under ids that are all stored, in a dictionary
    that agrees on them. *)
Lemma collect_stored (t : tree) (cs : list string) :
  (forall c, In c cs -> is_Some (nodes t !! c)) ->
  collect t cs = Returned (omap (fun cid => nodes t !! cid) cs).
Proof.
  induction cs as [|c cs IH]; cbn; intros H; [reflexivity|].
  destruct (H c ltac:(now left)) as [x Hx]. unfold read. rewrite Hx.
  rewrite IH by (intros; apply H; now right). reflexivity.
Qed.

Lemma omap_same (m m' : gmap string node) (cs : list string) :
  (forall c, In c cs -> m' !! c = m !! c) ->
  omap (fun cid => m' !! cid) cs = omap (fun cid => m !! cid) cs.
Proof.
  induction cs as [|c cs IH]; cbn; intros H; [reflexivity|].
  rewrite (H c) by now left. rewrite IH by (intros; apply H; now right). reflexivity.
Qed.

(** X13: After addNode the new node is the last of its parent's children, behind
    the children the parent had. *)
Theorem addNode_getChildren (n : node) (t t' : tree) :
  wellFormed t -> resolved t ->
  addNode n t = Returned t' ->
  exists before,
    getChildren (parent_id n) t = Returned before /\
    getChildren (parent_id n) t' = Returned (before ++ [n]).
Proof.
  intros Hwf [Hres_root Hres] Hadd. apply addNode_returns in Hadd.
  destruct Hadd as (_ & Hfresh & _ & Hadd).
  assert (Hlive : forall c, is_Some (nodes t !! c) -> c <> id n).
  { intros c [x Hx] ->. congruence. }
  unfold getChildren.
  destruct Hadd as [[Ep ->] | [Ep (p & Hp & ->)]].
  - cbn [root nodes set_root_children root_id root_children].
    destruct (String.eqb_spec (parent_id n) (root_id (root t))); [|contradiction].
    eexists. split; [apply collect_stored, Hres_root|].
    rewrite collect_stored.
    + cbn [nodes]. rewrite omap_app. cbn. rewrite lookup_insert_eq. do 2 f_equal.
      apply omap_same. intros c Hc. apply lookup_insert_ne.
      intros E. apply (Hlive _ (Hres_root _ Hc)). congruence.
    + cbn [nodes]. intros c Hc. apply in_app_or in Hc. destruct Hc as [Hc|[<-|[]]].
      * rewrite lookup_insert_ne; [auto|]. intros E. apply (Hlive _ (Hres_root _ Hc)). congruence.
      * rewrite lookup_insert_eq. eauto.
  - assert (Hne : parent_id n <> id n) by congruence.
    cbn [root nodes].
    destruct (String.eqb_spec (parent_id n) (root_id (root t))); [contradiction|].
    assert (R1 : read (parent_id n) t = Stored p) by now apply read_Stored.
    rewrite R1.
    match goal with |- context [read (parent_id n) ?t1] =>
      assert (R2 : read (parent_id n) t1 = Stored (set_children (children p ++ [id n]) p))
    end.
    { apply read_Stored. cbn [nodes]. rewrite lookup_insert_ne by congruence.
      apply lookup_insert_eq. }
    rewrite R2. cbn [children set_children].
    assert (Hself : ~ In (parent_id n) (children p)).
    { intros Hc. destruct (wf_acyclic _ Hwf) as [h Hh].
      specialize (Hh _ _ _ _ Hp Hc Hp). lia. }
    eexists. split; [apply collect_stored; intros c Hc; apply (Hres _ _ c Hp Hc)|].
    rewrite collect_stored.
    + cbn [nodes]. rewrite omap_app. cbn. rewrite lookup_insert_eq. do 2 f_equal.
      apply omap_same. intros c Hc.
      rewrite lookup_insert_ne by (intros E; apply (Hlive c); eauto).
      apply lookup_insert_ne. intros <-. contradiction.
    + cbn [nodes]. intros c Hc. apply in_app_or in Hc. destruct Hc as [Hc|[<-|[]]].
      * rewrite lookup_insert_ne by (intros E; apply (Hlive c); eauto).
        rewrite lookup_insert_ne by (intros <-; contradiction). eauto.
      * rewrite lookup_insert_eq. eauto.
Qed.

Lemma addNode_getChildren_witness :
  exists before,
    getChildren "cap" emptyTree = Returned before /\
    getChildren "cap"
      {| root := set_root_children ["cap.a"] (root emptyTree);
         nodes := <["cap.a" := freshNode "cap.a" "A" "mid" "cap"]> (nodes emptyTree) |}
    = Returned (before ++ [freshNode "cap.a" "A" "mid" "cap"]).
Proof.
  apply (addNode_getChildren (freshNode "cap.a" "A" "mid" "cap") emptyTree);
    [apply emptyTree_wellFormed | apply emptyTree_wellFormed | reflexivity].
Defined.


(** A valid node whose id reads as [undefined] is added under the root
    and under a stored node. *)
Lemma addNode_valid_returns (n : node) (t : tree) :
  validateNode n = [] -> read (id n) t = Undefined ->
  parent_id n = root_id (root t) \/ is_Some (nodes t !! parent_id n) ->
  exists t', addNode n t = Returned t' /\ nodes t' !! id n = Some n.
Proof.
  intros Hv Hfresh Hp. unfold addNode. rewrite Hv, Hfresh. cbn zeta.
  destruct (String.eqb_spec (parent_id n) (root_id (root t))) as [E|E].
  - eexists. split; [reflexivity|]. cbn. apply lookup_insert_eq.
  - destruct Hp as [Hp|[p Hp]]; [contradiction|].
    apply read_Stored in Hp. rewrite Hp.
    eexists. split; [reflexivity|]. cbn. apply lookup_insert_eq.
Qed.

Lemma read_Undefined_iff k t :
  read k t = Undefined <-> nodes t !! k = None /\ inherited k = false.
Proof.
  unfold read. destruct (nodes t !! k); [|destruct (inherited k)];
    split; intros H; try discriminate; try tauto; destruct H; discriminate.
Qed.

(** X14: Under the root or a stored node, growNode returns exactly when the
    candidate's id and name and the parent id are non-empty, its level is
    one of low, mid, high, and its id reads as undefined in the node
    dictionary (no node is stored under it and it names no member of
    Object.prototype); where the parent id reads as null, growNode throws.
    The tree afterwards holds the returned node under the candidate's id,
    as a child of the parent named. *)
Theorem growNode_succeeds (parentId : string) (c : candidate) (t : tree) :
  (getNode parentId t = None ->
   growNode parentId c t = Thrown ("Parent node not found: " +:+ parentId)) /\
  (parentId = root_id (root t) \/ is_Some (nodes t !! parentId) ->
   ((exists r, growNode parentId c t = Returned r) <->
    cand_id c <> "" /\ cand_name c <> "" /\ In (cand_level c) VALID_LEVELS /\
    parentId <> "" /\ read (cand_id c) t = Undefined)) /\
  (forall n t', growNode parentId c t = Returned (n, t') ->
     nodes t' !! cand_id c = Some n /\ id n = cand_id c /\ parent_id n = parentId /\
     validateNode n = []).
Proof.
  unfold growNode. split; [|split; [intros Hpar; split|]].
  - intros ->. reflexivity.
  - intros [r H]. destruct (getNode parentId t) eqn:Hg; [|discriminate].
    destruct (createNode _ _ _ _) as [n|e|] eqn:Hc; try discriminate. cbn [bind] in H.
    destruct (addNode n t) as [t'|e|] eqn:Ha; try discriminate.
    apply createNode_returns in Hc. destruct Hc as (-> & Hi & Hn & Hl & Hp).
    apply addNode_returns in Ha. cbn [id freshNode] in Ha.
    destruct Ha as (_ & Hfresh & Hinh & _).
    repeat split; auto. apply read_Undefined_iff. auto.
  - intros (Hi & Hn & Hl & Hp & Hfresh).
    assert (Hg : exists x, getNode parentId t = Some x).
    { unfold getNode. destruct (String.eqb_spec parentId (root_id (root t))); [eauto|].
      destruct Hpar as [?|[p Hp']]; [contradiction|].
      apply read_Stored in Hp'. rewrite Hp'. eauto. }
    destruct Hg as [x ->].
    destruct (freshNode_valid _ _ _ _ Hi Hn Hl Hp) as [-> Hv]. cbn [bind].
    destruct (addNode_valid_returns (freshNode (cand_id c) (cand_name c) (cand_level c) parentId) t)
      as (t' & -> & _); [exact Hv | exact Hfresh | exact Hpar |].
    cbn. eauto.
  - intros n t' H. destruct (getNode parentId t) eqn:Hg; [|discriminate].
    destruct (createNode _ _ _ _) as [n0|e|] eqn:Hc; try discriminate. cbn [bind] in H.
    destruct (addNode n0 t) as [t0|e|] eqn:Ha; try discriminate.
    cbn in H. inversion H; subst n0 t0; clear H.
    apply createNode_returns in Hc. destruct Hc as (-> & Hi & Hn & Hl & Hp).
    split; [|split; [reflexivity | split; [reflexivity | apply freshNode_valid; auto]]].
    apply addNode_returns in Ha. cbn [id parent_id freshNode] in Ha.
    destruct Ha as (_ & _ & _ & [[_ ->] | [_ (p & _ & ->)]]); cbn [nodes];
      apply lookup_insert_eq.
Qed.

Lemma growNode_succeeds_witness :
  exists r, growNode "cap" {| cand_id := "cap.a"; cand_name := "A"; cand_level := "mid" |}
              emptyTree = Returned r.
Proof.
  apply (proj2 (proj1 (proj2 (growNode_succeeds "cap"
                  {| cand_id := "cap.a"; cand_name := "A"; cand_level := "mid" |} emptyTree))
                  (or_introl eq_refl))).
  cbn. repeat split; eauto; try discriminate.
Defined.

(** A candidate named like a member of Object.prototype is refused as
    already existing, though no node is stored under the name. *)
Example growNode_member_id :
  growNode "cap" {| cand_id := "toString"; cand_name := "T"; cand_level := "mid" |} emptyTree
  = Thrown "Node already exists: toString".
Proof. reflexivity. Qed.


Lemma isStale_pruned now getTime threshold (n : node) :
  isStale now getTime threshold (set_status "pruned" n) = false.
Proof. reflexivity. Qed.

Lemma isStale_after now getTime threshold (n : node) :
  isStale now getTime threshold
    (if isStale now getTime threshold n then set_status "pruned" n else n) = false.
Proof.
  destruct (isStale now getTime threshold n) eqn:E; [apply isStale_pruned | exact E].
Qed.

Lemma filter_none {A : Type} (f : A -> bool) (l : list A) :
  (forall x, In x l -> f x = false) -> List.filter f l = [].
Proof.
  induction l as [|a l IH]; cbn; intros H; [reflexivity|].
  rewrite (H a) by now left. apply IH. intros; apply H; now right.
Qed.

(** X15: A second pruneStale at the same instant and threshold reports no id
    and changes nothing; the ids of one run are pairwise different and
    are the ids of the nodes whose status the run changed. *)
Theorem pruneStale_idempotent (now : Z) (Date_getTime : string -> option Z)
    (threshold : Q) (t : tree) :
  let r := pruneStale now Date_getTime threshold t in
  pruneStale now Date_getTime threshold (snd r) = ([], snd r) /\
  List.NoDup (fst r) /\
  (forall k, In k (fst r) <->
     exists n n', nodes t !! k = Some n /\ nodes (snd r) !! k = Some n' /\
                  status n' <> status n).
Proof.
  cbn zeta. unfold pruneStale. cbn [fst snd nodes root]. split; [|split].
  - f_equal.
    + rewrite filter_none; [reflexivity|].
      intros [k n] Hin. cbn. apply list_elem_of_In, elem_of_map_to_list in Hin.
      rewrite lookup_fmap in Hin. destruct (nodes t !! k) as [n0|]; [|discriminate].
      cbn in Hin. inversion Hin. apply isStale_after.
    + f_equal. rewrite <- map_fmap_compose. apply map_fmap_ext. intros k n _. cbn.
      now rewrite isStale_after.
  - pose proof (NoDup_fst_map_to_list (nodes t)) as Hnd.
    apply NoDup_ListNoDup in Hnd.
    revert Hnd. generalize (map_to_list (nodes t)). intros l.
    induction l as [|[k n] l IH]; cbn; intros Hnd; [constructor|].
    inversion Hnd as [|? ? Hk Hl]; subst.
    destruct (isStale _ _ _ n); cbn; [constructor|]; auto.
    intros Hin. apply Hk. apply in_map_iff in Hin. destruct Hin as ([k' n'] & E & Hin).
    apply filter_In in Hin. cbn in E. subst k'. apply in_map_iff. exists (k, n'). tauto.
  - intros k. rewrite in_map_iff. split.
    + intros ([k' n] & E & Hin). cbn in E. subst k'. apply filter_In in Hin.
      destruct Hin as [Hin Hst]. cbn in Hst.
      apply list_elem_of_In, elem_of_map_to_list in Hin.
      exists n, (set_status "pruned" n). rewrite lookup_fmap, Hin. cbn. rewrite Hst.
      repeat split; auto. cbn. unfold isStale in Hst.
      destruct (String.eqb_spec (status n) "pruned"); [discriminate|]. congruence.
    + intros (n & n' & Hn & Hn' & Hst). exists (k, n). split; [reflexivity|].
      apply filter_In. split; [now apply list_elem_of_In, elem_of_map_to_list|]. cbn.
      rewrite lookup_fmap, Hn in Hn'. cbn in Hn'.
      destruct (isStale _ _ _ n); [reflexivity|]. inversion Hn'. congruence.
Qed.

(** X16: A node touched at the present instant is still valid, is not stale for
    any non-negative threshold, and is neither an automatic nor a
    candidate pruning. *)
Theorem touchNode_fresh (now : Z) (Date_getTime : string -> option Z)
    (iso : string) (threshold : Q) (n : node) :
  iso <> "" -> Date_getTime iso = Some now -> (0 <= threshold)%Q ->
  (validateNode n = [] -> validateNode (touchNode iso n) = []) /\
  isStale now Date_getTime threshold (touchNode iso n) = false /\
  isAuto now Date_getTime (touchNode iso n) = false /\
  isCandidate now Date_getTime (touchNode iso n) = false.
Proof.
  intros Hiso Hd Hth. repeat split.
  - unfold validateNode. cbn [touchNode id name level parent_id status trigger_count v_score].
    destruct (String.eqb (id n) ""); [discriminate|].
    destruct (String.eqb (name n) ""); [discriminate|].
    destruct (negb (Set_has (level n) VALID_LEVELS)); [discriminate|].
    destruct (String.eqb (parent_id n) ""); [discriminate|].
    destruct (negb (Set_has (status n) VALID_STATUSES)); [discriminate|].
    destruct (Z.ltb_spec (trigger_count n) 0); [discriminate|].
    destruct (Z.ltb_spec (trigger_count n + 1) 0); [lia|]. auto.
  - unfold isStale. cbn [touchNode status last_triggered v_score].
    destruct (String.eqb (status n) "pruned"); [reflexivity|].
    destruct (String.eqb_spec iso ""); [contradiction|]. rewrite Hd. cbn zeta.
    rewrite Z.sub_diag. unfold Qgt_bool.
    replace (Qle_bool (inject_Z 0) (threshold * 24 * 60 * 60 * 1000)) with true; [reflexivity|].
    symmetry. apply Qle_bool_iff. change (inject_Z 0) with 0%Q. nra.
  - unfold isAuto, daysSinceTriggered. cbn [touchNode last_triggered].
    destruct (String.eqb_spec iso ""); [contradiction|]. rewrite Hd, Z.sub_diag. reflexivity.
  - unfold isCandidate, isAuto, daysSinceTriggered. cbn [touchNode last_triggered].
    destruct (String.eqb_spec iso ""); [contradiction|]. rewrite Hd, Z.sub_diag. reflexivity.
Qed.

Lemma touchNode_fresh_witness :
  isStale 1000 (fun _ => Some 1000) 30
    (touchNode "1970-01-01T00:00:01.000Z" (freshNode "cap.a" "A" "mid" "cap")) = false.
Proof.
  apply (touchNode_fresh 1000 (fun _ => Some 1000) "1970-01-01T00:00:01.000Z" 30
           (freshNode "cap.a" "A" "mid" "cap")); [discriminate | reflexivity | discriminate].
Defined.

End TreeMoreProps.

(** ** Further properties of src/vfm/mutator.js and src/vfm/scorer.js *)

Section VfmMoreProps.
Import JS Gep Node VfmMutator VfmScorer.
Local Open Scope Q_scope.

Lemma filter_length_le {A : Type} (f : A -> bool) (l : list A) :
  (length (List.filter f l) <= length l)%nat.
Proof. induction l as [|a l IH]; cbn; [lia|]. destruct (f a); cbn; lia. Qed.

(** The ratio of a filtered part of a non-empty list lies in [0,1]. *)
Lemma ratio_range {A : Type} (f : A -> bool) (x : A) (l : list A) :
  0 <= inject_Z (Z.of_nat (length (List.filter f (x :: l)))) /
       inject_Z (Z.of_nat (length (x :: l))) <= 1.
Proof.
  pose proof (filter_length_le f (x :: l)) as Hle.
  set (p := length (List.filter f (x :: l))) in *.
  assert (Hpos : 0 < inject_Z (Z.of_nat (length (x :: l)))).
  { change 0 with (inject_Z 0). rewrite <- Zlt_Qlt. cbn [length]. lia. }
  assert (Hp : 0 <= inject_Z (Z.of_nat p)).
  { change 0 with (inject_Z 0). rewrite <- Zle_Qle. lia. }
  assert (Hpl : inject_Z (Z.of_nat p) <= inject_Z (Z.of_nat (length (x :: l)))).
  { rewrite <- Zle_Qle. lia. }
  split.
  - apply Qle_shift_div_l; [assumption|]. lra.
  - apply Qle_shift_div_r; [assumption|]. lra.
Qed.

Lemma computeSuccessRate_range (capsules : list capsule) :
  0 <= computeSuccessRate capsules <= 1.
Proof.
  destruct capsules as [|c l]; [cbn; lra|]. apply ratio_range.
Qed.

Lemma clampWeight_id w : 1 <= w <= 5 -> clampWeight w == w.
Proof.
  intros H. unfold clampWeight, WEIGHT_MIN, WEIGHT_MAX.
  pose proof (Q.max_spec w 1) as Hm. pose proof (Q.min_spec (Qmax w 1) 5) as Hn.
  destruct Hm as [[? ?]|[? ?]], Hn as [[? ?]|[? ?]]; lra.
Qed.

Lemma clampWeight_near w x d :
  1 <= w <= 5 -> w - d <= x <= w + d -> 0 <= d -> w - d <= clampWeight x <= w + d.
Proof.
  intros Hw Hx Hd. unfold clampWeight, WEIGHT_MIN, WEIGHT_MAX.
  pose proof (Q.max_spec x 1) as Hm. pose proof (Q.min_spec (Qmax x 1) 5) as Hn.
  destruct Hm as [[? ?]|[? ?]], Hn as [[? ?]|[? ?]]; lra.
Qed.

Lemma clampWeight_mono w x : 1 <= w <= 5 -> w <= x -> w <= clampWeight x.
Proof.
  intros Hw Hx. unfold clampWeight, WEIGHT_MIN, WEIGHT_MAX.
  pose proof (Q.max_spec x 1) as Hm. pose proof (Q.min_spec (Qmax x 1) 5) as Hn.
  destruct Hm as [[? ?]|[? ?]], Hn as [[? ?]|[? ?]]; lra.
Qed.

Lemma Qgt_bool_true a b : Qgt_bool a b = true <-> b < a.
Proof.
  unfold Qgt_bool. rewrite negb_true_iff. split.
  - intros H. apply Qnot_le_lt. intros Hle. apply Qle_bool_iff in Hle. congruence.
  - intros H. destruct (Qle_bool a b) eqn:E; [|reflexivity].
    apply Qle_bool_iff in E. lra.
Qed.

(** X17: On weights that already lie in [1,5] one mutation moves the frequency
    and failure-reduction weights by at most 0.5 and the user-burden and
    self-cost weights by at most 0.25; the frequency, user-burden and
    self-cost weights never go down, and the user-burden and self-cost
    weights are never both raised. *)
Theorem mutateWeights_drift (w : weights) (capsules : list capsule) (events : list event) :
  1 <= frequency w <= 5 -> 1 <= failReduce w <= 5 ->
  1 <= userBurden w <= 5 -> 1 <= selfCost w <= 5 ->
  let w' := mutateWeights w capsules events in
  (frequency w <= frequency w' <= frequency w + (1 # 2)) /\
  (failReduce w - (1 # 2) <= failReduce w' <= failReduce w + (1 # 2)) /\
  (userBurden w <= userBurden w' <= userBurden w + (1 # 4)) /\
  (selfCost w <= selfCost w' <= selfCost w + (1 # 4)) /\
  (userBurden w' == userBurden w \/ selfCost w' == selfCost w).
Proof.
  intros Hf Hr Hu Hs. cbn zeta. unfold mutateWeights; cbn zeta.
  pose proof (computeSuccessRate_range capsules) as Hrate.
  set (rate := computeSuccessRate capsules) in *.
  assert (Hex : Qgt_bool rate HIGH_SUCCESS_THRESHOLD = true ->
                Qgt_bool (1 - rate) HIGH_FAIL_THRESHOLD = false).
  { intros H. apply Qgt_bool_true in H. unfold HIGH_SUCCESS_THRESHOLD in H.
    destruct (Qgt_bool (1 - rate) HIGH_FAIL_THRESHOLD) eqn:E; [|reflexivity].
    apply Qgt_bool_true in E. unfold HIGH_FAIL_THRESHOLD in E. lra. }
  unfold MAX_ADJUSTMENT.
  destruct (Qgt_bool rate HIGH_SUCCESS_THRESHOLD) eqn:E1;
    [rewrite (Hex eq_refl)|]; clear Hex;
    destruct (isLowInnovation capsules); destruct (hasCapabilityGrowth events);
    try destruct (Qgt_bool (1 - rate) HIGH_FAIL_THRESHOLD);
    cbn [andb negb frequency failReduce userBurden selfCost];
    repeat match goal with
    | |- _ /\ _ => split
    | |- _ \/ _ => first [left; apply clampWeight_id; assumption
                         |right; apply clampWeight_id; assumption]
    | |- _ <= clampWeight _ => apply clampWeight_mono; [assumption | lra]
    | |- clampWeight ?x <= ?w + ?d =>
        apply (proj2 (clampWeight_near w x d ltac:(assumption) ltac:(lra) ltac:(lra)))
    | |- ?w - ?d <= clampWeight ?x =>
        apply (proj1 (clampWeight_near w x d ltac:(assumption) ltac:(lra) ltac:(lra)))
    end.
Qed.

Lemma mutateWeights_drift_witness :
  frequency DEFAULT_WEIGHTS <= frequency (mutateWeights DEFAULT_WEIGHTS (repeat failedCapsule 5) []).
Proof.
  apply (mutateWeights_drift DEFAULT_WEIGHTS (repeat failedCapsule 5) []);
    cbn; split; discriminate.
Defined.


Lemma selfCostOf_range (lookup : string -> geneSlot) (ids : list string) :
  0 <= selfCostOf lookup ids <= 10.
Proof.
  unfold selfCostOf.
  destruct (fold_left _ _ _) as [[s f] c]. destruct (c =? 0)%Z; [lra|].
  split; [|apply Q.le_min_r].
  apply Q.min_glb; [|lra].
  apply Qle_shift_div_l; [lra|]. rewrite Qmult_0_l.
  match goal with |- 0 <= Qmax ?a 0 + Qmax ?b 0 =>
    pose proof (Q.le_max_r a 0) as Ha; pose proof (Q.le_max_r b 0) as Hb;
    revert Ha Hb; generalize (Qmax a 0); generalize (Qmax b 0)
  end.
  intros y x Hx Hy. lra.
Qed.

(** X18: Three of the four dimension scores always lie in [0,10]: the
    failure-reduction score, the user-burden score and the self-cost
    score, whatever the capability, the capsules and the stored genes. *)
Theorem dimension_scores_range (lookup : string -> geneSlot) (capability : node)
    (capsules : list capsule) :
  0 <= scoreFailReduction capability capsules <= 10 /\
  0 <= scoreUserBurden capability <= 10 /\
  exists score, scoreSelfCost (Returned lookup) capability = Returned score /\
                0 <= score <= 10.
Proof.
  split; [|split].
  - unfold scoreFailReduction. destruct capsules as [|c l]; [lra|].
    destruct (List.filter _ (c :: l)) as [|r rs]; [lra|].
    pose proof (ratio_range validation_passed r rs). lra.
  - unfold scoreUserBurden.
    change 0 with (inject_Z 0). change 10 with (inject_Z 10).
    rewrite <- !Zle_Qle. lia.
  - unfold scoreSelfCost. destruct (linked_genes capability) as [|g gs]; cbn [bind].
    + exists 5. split; [reflexivity | lra].
    + eexists. split; [reflexivity | apply selfCostOf_range].
Qed.

(** A linked gene id named like a member of Object.prototype counts as a
    gene without steps and with twelve files, though no gene is stored
    under the name: the score is 7 where no linked gene gives 5. *)
Example scoreSelfCost_member_id :
  let cap := {| id := "cap.t"; name := "T"; level := "low"; parent_id := "cap";
                input := ""; output := ""; preconditions := []; failure_boundary := "";
                linked_genes := ["toString"]; linked_skills := []; children := [];
                status := "active"; v_score := None; last_triggered := None;
                trigger_count := 0 |} in
  exists lookup score,
    geneMapOf [] = Some lookup /\
    scoreSelfCost (Returned lookup) cap = Returned score /\ score == 7.
Proof. cbn zeta. eexists. eexists. split; [reflexivity|]. split; reflexivity. Qed.

End VfmMoreProps.

(** ** Further properties of src/pcec/cycle.js *)

Section PcecMoreProps.
Import JS Pcec PcecRuns.

Lemma hasSubstantiveOutcome_existsb (c : cycle) :
  hasSubstantiveOutcome c = existsb counts (outcomes c).
Proof.
  unfold hasSubstantiveOutcome.
  assert (H : forall l,
    (0 <? length (List.filter hasSubstance
                    (List.filter (fun o => Set_has (type o) SUBSTANTIVE_TYPES) l)))%nat
    = existsb counts l).
  { induction l as [|o l IH]; [reflexivity|]. cbn [List.filter existsb]. unfold counts at 1.
    destruct (Set_has (type o) SUBSTANTIVE_TYPES); cbn [andb orb List.filter]; [|exact IH].
    destruct (hasSubstance o); cbn [orb]; [reflexivity | exact IH]. }
  destruct (outcomes c) as [|o os] eqn:Eo; [reflexivity|].
  rewrite <- H.
  destruct (List.filter (fun o => Set_has (type o) SUBSTANTIVE_TYPES) (o :: os)); reflexivity.
Qed.

(** X19: Recording an outcome never makes a substantive cycle non-substantive,
    and it makes a non-substantive cycle substantive exactly when the
    stored outcome itself counts; an outcome recorded without a type is
    stored as 'unknown' and never counts. *)
Theorem addOutcome_substantive (now : string) (o : outcomeInput) (c : cycle) :
  hasSubstantiveOutcome (addOutcome now (Some o) c)
  = hasSubstantiveOutcome c || counts (stored now o) /\
  (hasSubstantiveOutcome c = true ->
   hasSubstantiveOutcome (addOutcome now (Some o) c) = true) /\
  (in_type o = None -> counts (stored now o) = false) /\
  hasSubstantiveOutcome (addOutcome now None c) = hasSubstantiveOutcome c.
Proof.
  assert (E : hasSubstantiveOutcome (addOutcome now (Some o) c)
              = hasSubstantiveOutcome c || counts (stored now o)).
  { rewrite !hasSubstantiveOutcome_existsb. cbn [addOutcome outcomes].
    rewrite existsb_app. cbn [existsb]. now rewrite orb_false_r. }
  split; [exact E|]. split; [intros H; now rewrite E, H|].
  split; [|reflexivity].
  intros H. unfold counts, stored. cbn [type]. now rewrite H.
Qed.

Lemma addOutcome_substantive_witness :
  hasSubstantiveOutcome
    (addOutcome "t2" (Some {| in_type := None; in_description := Some "x" |})
       (addOutcome "t1" (Some {| in_type := Some "capability";
                                 in_description := Some "parse session logs in one pass" |})
                   (newCycle "pcec_0" "t0"))) = true.
Proof.
  apply (proj1 (proj2 (addOutcome_substantive "t2"
                         {| in_type := None; in_description := Some "x" |} _))).
  reflexivity.
Defined.

Lemma completeAll_snoc now cs c count :
  completeAll now (cs ++ [c]) count =
  if hasSubstantiveOutcome c then 0%nat else S (completeAll now cs count).
Proof.
  unfold completeAll. rewrite fold_left_app. cbn [fold_left complete snd]. reflexivity.
Qed.

(** X20: Starting from a counter of zero, a forced breakthrough is due after a
    series of completed cycles exactly when the series ends with two
    cycles without substantive outcome. *)
Theorem stagnation_counter (now : string) (cs : list cycle) :
  needsForceBreakthrough (completeAll now cs 0) = true <->
  exists earlier c1 c2,
    cs = earlier ++ [c1; c2] /\
    hasSubstantiveOutcome c1 = false /\ hasSubstantiveOutcome c2 = false.
Proof.
  unfold needsForceBreakthrough. rewrite Nat.leb_le.
  induction cs as [|c2 pre _] using rev_ind.
  - cbn. split; [lia|]. intros (e & c1 & c2 & H & _). now destruct e as [|? [|? ?]].
  - rewrite completeAll_snoc.
    induction pre as [|c1 pre _] using rev_ind.
    + split.
      * destruct (hasSubstantiveOutcome c2); cbn; lia.
      * intros (e & a & b & H & _). destruct e as [|? [|? ?]]; discriminate.
    + rewrite completeAll_snoc. split.
      * intros H. exists pre, c1, c2. rewrite <- app_assoc. split; [reflexivity|].
        destruct (hasSubstantiveOutcome c2); [lia|].
        destruct (hasSubstantiveOutcome c1); [lia|]. auto.
      * intros (e & a & b & H & Ha & Hb).
        replace (e ++ [a; b]) with ((e ++ [a]) ++ [b]) in H by (now rewrite <- app_assoc).
        apply app_inj_tail in H. destruct H as [H ->].
        apply app_inj_tail in H. destruct H as [_ ->].
        rewrite Ha, Hb. lia.
Qed.

Lemma stagnation_counter_witness :
  needsForceBreakthrough
    (completeAll "t" [newCycle "pcec_0" "t0"; newCycle "pcec_1" "t1"] 0) = true.
Proof.
  apply (proj2 (stagnation_counter "t" [newCycle "pcec_0" "t0"; newCycle "pcec_1" "t1"])).
  exists [], (newCycle "pcec_0" "t0"), (newCycle "pcec_1" "t1"). repeat split.
Defined.

End PcecMoreProps.

(** ** Further properties of src/gep/mutation.js *)

Section MutationMoreProps.
Import JS Mutation Signals MutationOps.

Lemma lastN_app_exact {A : Type} (n : nat) (l1 l2 : list A) :
  length l2 = n -> lastN n (l1 ++ l2) = l2.
Proof.
  intros H. unfold lastN. rewrite length_app, H.
  replace (length l1 + n - n)%nat with (length l1) by lia.
  rewrite skipn_app, skipn_all, Nat.sub_diag. reflexivity.
Qed.

(** X21: Only the last ten recent mutations count: a longer history gives the
    verdict of its last ten entries.  With fewer than ten recent mutations
    a category is allowed exactly when the strategy stores something other
    than zero for it; and whatever the history, an allowed category has
    such an entry. *)
Theorem checkStrategyAllowance_window (exceeds : Z -> Q -> bool)
    (category : string) (strategyWeights : string -> slot) :
  (forall earlier window, length window = 10%nat ->
     checkStrategyAllowance exceeds category strategyWeights (earlier ++ window)
     = checkStrategyAllowance exceeds category strategyWeights window) /\
  (forall recent, (length recent < 10)%nat ->
     allowed (checkStrategyAllowance exceeds category strategyWeights recent)
     = nonZero (strategyWeights category)) /\
  (forall recent,
     allowed (checkStrategyAllowance exceeds category strategyWeights recent) = true ->
     nonZero (strategyWeights category) = true).
Proof.
  split; [|split].
  - intros earlier window Hw. unfold checkStrategyAllowance.
    destruct (strategyWeights category) as [|w|]; [reflexivity| |reflexivity].
    destruct (Qeq_bool w 0); [reflexivity|].
    rewrite (lastN_app_exact 10 earlier window Hw).
    replace (lastN 10 window) with window
      by (unfold lastN; now rewrite Hw, Nat.sub_diag).
    rewrite length_app, Hw.
    replace (10 <=? length earlier + 10)%nat with true
      by (symmetry; apply Nat.leb_le; lia).
    reflexivity.
  - intros recent Hlen. unfold checkStrategyAllowance, nonZero.
    destruct (strategyWeights category) as [|w|]; [reflexivity| |reflexivity].
    destruct (Qeq_bool w 0) eqn:E; [reflexivity|].
    replace (10 <=? length recent)%nat with false
      by (symmetry; apply Nat.leb_gt; lia).
    reflexivity.
  - intros recent. unfold checkStrategyAllowance, nonZero.
    destruct (strategyWeights category) as [|w|]; [discriminate| |reflexivity].
    destruct (Qeq_bool w 0) eqn:E; [discriminate|]. reflexivity.
Qed.

Lemma checkStrategyAllowance_window_witness :
  let past := {| category := "repair"; trigger_signals := []; target := "t";
                 expected_effect := "e"; gene_id := None |} in
  checkStrategyAllowance (fun _ _ => true) "repair" (fun _ => Num 20) (past :: repeat past 10)
  = checkStrategyAllowance (fun _ _ => true) "repair" (fun _ => Num 20) (repeat past 10).
Proof.
  cbn zeta.
  apply (proj1 (checkStrategyAllowance_window (fun _ _ => true) "repair" (fun _ => Num 20))
           [_] (repeat _ 10)).
  reflexivity.
Defined.

Lemma riskOf_cases (c : string) :
  (In c ["repair"; "optimize"; "innovate"] /\
   exists level, riskOf c = Level level /\ RISK_MAP c = Some level /\
                 In level ["low"; "low-medium"; "medium"]) \/
  (~ In c ["repair"; "optimize"; "innovate"] /\ RISK_MAP c = None /\
   riskOf c = if inherited c then RiskMember else NoRisk).
Proof.
  unfold riskOf, RISK_MAP.
  destruct (String.eqb_spec c "repair") as [->|H1];
    [left; split; [cbn; auto | exists "low"; cbn; auto 10]|].
  destruct (String.eqb_spec c "optimize") as [->|H2];
    [left; split; [cbn; auto | exists "low-medium"; cbn; auto 10]|].
  destruct (String.eqb_spec c "innovate") as [->|H3];
    [left; split; [cbn; auto | exists "medium"; cbn; auto 10]|].
  right. split; [|split; reflexivity]. cbn. intuition congruence.
Qed.

(** X22: createMutation returns exactly when the target and the expected
    effect are non-empty and the category has an entry in RISK_MAP: it is
    one of repair, optimize, innovate, or it is named like a member of
    Object.prototype.  For one of the three categories the risk level it
    declares is the one of the category, and whatever the blast radius,
    assessRisk gives the proposal either that declared level or 'medium',
    with at most three warnings; for a category named like a member of
    Object.prototype the declared level is that member, none of the three
    levels. *)
Theorem createMutation_risk (now : string) (p : params) :
  ((exists m, createMutation now p = Returned m) <->
   (exists c, p_category p = Some c /\
              (In c ["repair"; "optimize"; "innovate"] \/ inherited c = true)) /\
   p_target p <> "" /\ p_expected_effect p <> "") /\
  (forall m, createMutation now p = Returned m ->
     p_category p = Some (category (proposed m)) /\
     (In (category (proposed m)) ["repair"; "optimize"; "innovate"] ->
      exists level,
        risk_level m = Level level /\ RISK_MAP (category (proposed m)) = Some level /\
        In level ["low"; "low-medium"; "medium"] /\
        forall b,
          (risk (assessRisk (proposed m) b) = Some level \/
           risk (assessRisk (proposed m) b) = Some "medium") /\
          (length (warnings (assessRisk (proposed m) b)) <= 3)%nat) /\
     (~ In (category (proposed m)) ["repair"; "optimize"; "innovate"] ->
      risk_level m = RiskMember)).
Proof.
  unfold createMutation. split; [split|].
  - intros [m H]. destruct (p_category p) as [c|]; [|discriminate].
    destruct (String.eqb_spec (p_target p) "") as [Et|Et];
      [destruct (if String.eqb c "" then NoRisk else riskOf c); discriminate|].
    destruct (String.eqb_spec (p_expected_effect p) "") as [Ee|Ee];
      [destruct (if String.eqb c "" then NoRisk else riskOf c); discriminate|].
    split; [|auto]. exists c. split; [reflexivity|].
    destruct (String.eqb c ""); [discriminate|].
    destruct (riskOf_cases c) as [[Hc _] | (_ & _ & Hr)]; [now left|].
    right. rewrite Hr in H. destruct (inherited c); [reflexivity | discriminate].
  - intros ((c & -> & Hc) & Ht & He).
    assert (Hentry : (if String.eqb c "" then NoRisk else riskOf c) <> NoRisk).
    { destruct (String.eqb_spec c "") as [->|_].
      - destruct Hc as [Hc|Hc]; [cbn in Hc; intuition discriminate | discriminate].
      - destruct (riskOf_cases c) as [(_ & level & -> & _) | (Hn & _ & ->)]; [discriminate|].
        destruct Hc as [Hc | ->]; [contradiction | discriminate]. }
    destruct (String.eqb_spec (p_target p) ""); [contradiction|].
    destruct (String.eqb_spec (p_expected_effect p) ""); [contradiction|].
    destruct (if String.eqb c "" then NoRisk else riskOf c); [eauto | eauto | contradiction].
  - intros m H. destruct (p_category p) as [c|]; [|discriminate].
    destruct (String.eqb c "") eqn:Hc; [discriminate|].
    destruct (String.eqb (p_target p) ""); [destruct (riskOf c); discriminate|].
    destruct (String.eqb (p_expected_effect p) ""); [destruct (riskOf c); discriminate|].
    assert (Hnn : riskOf c <> NoRisk) by (intros E; rewrite E in H; discriminate).
    assert (Hm : category (proposed m) = c /\ risk_level m = riskOf c).
    { destruct (riskOf c); inversion H; split; reflexivity. }
    destruct Hm as [Hcat Hlev]. rewrite Hcat, Hlev. clear H.
    split; [reflexivity|].
    destruct (riskOf_cases c) as [(Hin & level & Hr & Hmap & Hl) | (Hn & Hmap & Hr)].
    + split; [|contradiction]. intros _. exists level. repeat split; auto;
        unfold assessRisk; rewrite Hcat, Hmap;
        destruct (10 <? files b); destruct (500 <? lines b);
        destruct (String.eqb c "innovate" && (5 <? files b));
        cbn [risk warnings length app]; auto; lia.
    + split; [contradiction|]. intros _. rewrite Hr in Hnn |- *.
      destruct (inherited c); [reflexivity | contradiction].
Qed.

Lemma createMutation_risk_witness :
  exists m, createMutation "t0"
              {| p_category := Some "repair"; p_trigger_signals := None;
                 p_target := "src/core"; p_expected_effect := "fewer timeouts";
                 p_gene_id := None |} = Returned m.
Proof.
  apply (proj2 (proj1 (createMutation_risk "t0" _))).
  split; [exists "repair"; split; [reflexivity | left; now left]|]. split; discriminate.
Defined.

(** A category named like a member of Object.prototype passes the test
    of the category. *)
Example createMutation_member_category :
  exists m, createMutation "t0"
              {| p_category := Some "constructor"; p_trigger_signals := None;
                 p_target := "src/core"; p_expected_effect := "fewer timeouts";
                 p_gene_id := None |} = Returned m /\ risk_level m = RiskMember.
Proof. eexists. split; reflexivity. Qed.

End MutationMoreProps.

(** ** Properties of src/adl/lock.js *)

Section LockProps.
Import JS Mutation Signals Lock.
Local Open Scope Q_scope.

Lemma lastN_length {A : Type} (n : nat) (l : list A) :
  (n <= length l)%nat -> length (lastN n l) = n.
Proof. intros H. unfold lastN. rewrite length_skipn. lia. Qed.

Lemma sliceBefore_length {A : Type} (l : list A) :
  (10 <= length l)%nat -> length (sliceBefore l) = 5%nat.
Proof.
  intros H. unfold sliceBefore. rewrite length_firstn, length_skipn. lia.
Qed.

Lemma successes_le (items : list capsuleRecord) : (successes items <= length items)%nat.
Proof.
  unfold successes. induction items as [|c l IH]; cbn; [lia|].
  destruct (success c); cbn; lia.
Qed.

Lemma rate_five (items : list capsuleRecord) :
  length items = 5%nat ->
  successRate items = inject_Z (Z.of_nat (successes items)) / inject_Z 5.
Proof.
  intros H. unfold successRate, successes. destruct items as [|c l]; [discriminate|].
  now rewrite H.
Qed.

Lemma compare_five (r p : nat) :
  (r <= 5)%nat -> (p <= 5)%nat ->
  Qlt_bool (inject_Z (Z.of_nat r) / inject_Z 5)
           (inject_Z (Z.of_nat p) / inject_Z 5 * (9 # 10)) = (r <? p)%nat.
Proof.
  intros Hr Hp.
  do 6 (destruct r as [|r]; [do 6 (destruct p as [|p]; [reflexivity|]); lia|]). lia.
Qed.

(** X23: hasStabilityRegression is true exactly when the history has at least
    ten entries and the last five hold fewer successes than the five
    before them: with windows of five, any drop counts, the factor 0.9
    never decides. *)
Theorem hasStabilityRegression_drop (capsuleHistory : list capsuleRecord) :
  hasStabilityRegression capsuleHistory = true <->
  (10 <= length capsuleHistory)%nat /\
  (successes (lastN 5 capsuleHistory) < successes (sliceBefore capsuleHistory))%nat.
Proof.
  unfold hasStabilityRegression.
  destruct (Nat.ltb_spec (length capsuleHistory) 10) as [Hlt|Hge].
  - split; [discriminate | lia].
  - cbn zeta.
    assert (H5 : length (lastN 5 capsuleHistory) = 5%nat) by (apply lastN_length; lia).
    assert (H5' : length (sliceBefore capsuleHistory) = 5%nat) by now apply sliceBefore_length.
    rewrite (rate_five _ H5), (rate_five _ H5').
    pose proof (successes_le (lastN 5 capsuleHistory)) as Hr.
    pose proof (successes_le (sliceBefore capsuleHistory)) as Hp.
    rewrite compare_five by lia. rewrite Nat.ltb_lt. tauto.
Qed.

Lemma hasStabilityRegression_drop_witness :
  hasStabilityRegression
    (repeat {| success := true |} 5 ++ repeat {| success := false |} 5) = true.
Proof.
  apply (proj2 (hasStabilityRegression_drop _)). cbn. lia.
Defined.

Lemma checkADL_parts (m : mutation) (b : option blast) (h : list capsuleRecord) :
  exists v1 v2 v3 v4 v5 : bool,
    checkADL m b h =
      (if v1 then ["complexity_increase_without_justification"] else []) ++
      (if v2 then ["unverifiable_evolution"] else []) ++
      (if v3 then ["vague_concept_detected"] else []) ++
      (if v4 then ["stability_regression"] else []) ++
      (if v5 then ["no_rollback_path"] else []).
Proof.
  unfold checkADL.
  eexists _, _, _, _, (match gene_id m with
                       | Some g => String.eqb g ""
                       | None => true
                       end).
  repeat f_equal. destruct (gene_id m) as [g|]; reflexivity.
Qed.

(** X24: The violations checkADL reports are pairwise different names out of
    its five.  A mutation without gene id is never accepted, nor is any
    mutation after a stability regression; the number of changed lines
    never matters, and for a category other than innovate the blast
    radius does not matter at all. *)
Theorem checkADL_gates (m : mutation) (b : option blast) (capsuleHistory : list capsuleRecord) :
  List.NoDup (checkADL m b capsuleHistory) /\
  (forall v, In v (checkADL m b capsuleHistory) ->
     In v ["complexity_increase_without_justification"; "unverifiable_evolution";
           "vague_concept_detected"; "stability_regression"; "no_rollback_path"]) /\
  (gene_id m = None -> ok (checkADL m b capsuleHistory) = false) /\
  (hasStabilityRegression capsuleHistory = true -> ok (checkADL m b capsuleHistory) = false) /\
  (forall b', category m <> "innovate" ->
     checkADL m b' capsuleHistory = checkADL m b capsuleHistory) /\
  (forall f l l', checkADL m (Some {| files := f; lines := l |}) capsuleHistory
                  = checkADL m (Some {| files := f; lines := l' |}) capsuleHistory).
Proof.
  split; [|split; [|split; [|split; [|split]]]].
  - destruct (checkADL_parts m b capsuleHistory) as (v1 & v2 & v3 & v4 & v5 & ->).
    destruct v1, v2, v3, v4, v5; cbn;
      repeat (constructor; [cbn; intuition discriminate|]); constructor.
  - destruct (checkADL_parts m b capsuleHistory) as (v1 & v2 & v3 & v4 & v5 & ->).
    intros v. destruct v1, v2, v3, v4, v5; cbn; intuition.
  - intros Hg. unfold checkADL, ok. rewrite Hg. rewrite !length_app. cbn [length].
    apply Nat.eqb_neq. lia.
  - intros Hr. unfold checkADL, ok. rewrite Hr. rewrite !length_app. cbn [length].
    apply Nat.eqb_neq. lia.
  - intros b' Hc. unfold checkADL.
    destruct (String.eqb_spec (category m) "innovate"); [contradiction|]. reflexivity.
  - intros f l l'. reflexivity.
Qed.

Lemma checkADL_gates_witness :
  ok (checkADL {| category := "repair"; trigger_signals := []; target := "src/core";
                  expected_effect := "fewer timeouts on load"; gene_id := None |}
               None []) = false.
Proof.
  apply (proj1 (proj2 (proj2 (checkADL_gates _ None [])))). reflexivity.
Defined.

End LockProps.

(** ** Properties of src/adl/rollback.js *)

Section RollbackProps.
Import JS Rollback.


Variable state : Type.
Variable git_checkout : state -> string -> state * option string.
Variable unlinkSync : state -> string -> state * option string.

Lemma restoreLoop_inv (files : list string) : forall seen acc,
  restoreInv state seen acc ->
  restoreInv state (seen ++ files) (fold_left (restoreStep state git_checkout) files acc).
Proof.
  induction files as [|f files IH]; intros seen acc H; cbn [fold_left].
  - now rewrite app_nil_r.
  - replace (seen ++ f :: files) with ((seen ++ [f]) ++ files) by (now rewrite <- app_assoc).
    apply IH. destruct acc as [[[s done] restored] errors]. unfold restoreStep.
    destruct H as (Ha & Hl & He).
    assert (Hdone : forall a, In a (done ++ [GitCheckout f]) ->
                      exists f0, a = GitCheckout f0 /\ In f0 (seen ++ [f])).
    { intros a Hin. apply in_app_or in Hin. destruct Hin as [Hin|[<-|[]]].
      - destruct (Ha a Hin) as (f0 & -> & Hf0). exists f0. split; [reflexivity|].
        apply in_or_app. now left.
      - exists f. split; [reflexivity|]. apply in_or_app. right. now left. }
    destruct (git_checkout s f) as [s' [message|]]; cbn;
      (split; [exact Hdone|]); rewrite ?length_app; cbn [length]; split; try lia.
    + intros E. now destruct errors.
    + intros E. now rewrite He.
Qed.

Lemma deleteLoop_inv done1 errors1 (files : list string) : forall seen acc,
  deleteInv state done1 errors1 seen acc ->
  deleteInv state done1 errors1 (seen ++ files) (fold_left (deleteStep state unlinkSync) files acc).
Proof.
  induction files as [|f files IH]; intros seen acc H; cbn [fold_left].
  - now rewrite app_nil_r.
  - replace (seen ++ f :: files) with ((seen ++ [f]) ++ files) by (now rewrite <- app_assoc).
    apply IH. destruct acc as [[[s done] deleted] errors]. unfold deleteStep.
    destruct H as (Ha & Hd & Hl & Hle & He & Hp).
    assert (Hseen : forall x, In x seen -> In x (seen ++ [f]))
      by (intros; apply in_or_app; now left).
    assert (Hlast : In f (seen ++ [f])) by (apply in_or_app; right; now left).
    destruct (isProtected f) eqn:Ef.
    + cbn. rewrite !length_app. cbn [length].
      split; [|split; [|split; [|split; [|split]]]]; try lia.
      * intros a Hin. destruct (Ha a Hin) as [|(f0 & -> & Hf0 & Hpf)]; [now left|].
        right. exists f0. auto.
      * intros x Hin. split; [now apply Hseen, Hd | now apply Hd].
    + assert (Hdone : forall a, In a (done ++ [Unlink f]) -> In a done1 \/
                exists f0, a = Unlink f0 /\ In f0 (seen ++ [f]) /\ isProtected f0 = false).
      { intros a Hin. apply in_app_or in Hin. destruct Hin as [Hin|[<-|[]]].
        - destruct (Ha a Hin) as [|(f0 & -> & Hf0 & Hpf)]; [now left|].
          right. exists f0. auto.
        - right. exists f. auto. }
      assert (Hprot : (exists f0, In f0 (seen ++ [f]) /\ isProtected f0 = true) ->
                      exists f0, In f0 seen /\ isProtected f0 = true).
      { intros (f0 & Hin & Hpf). apply in_app_or in Hin.
        destruct Hin as [Hin|[<-|[]]]; [eauto | congruence]. }
      destruct (unlinkSync s f) as [s' [message|]]; cbn;
        (split; [exact Hdone|]); rewrite ?length_app; cbn [length];
        (split; [|split; [|split; [|split]]]); try lia.
      * intros x Hin. split; [now apply Hseen, Hd | now apply Hd].
      * intros x Hin. apply in_app_or in Hin. destruct Hin as [Hin|[<-|[]]]; [|auto].
        split; [now apply Hseen, Hd | now apply Hd].
      * intros E. now rewrite He.
      * intros Hx. apply (Hp (Hprot Hx)).
Qed.

Lemma prefix_app (p rest : string) : String.prefix p (p +:+ rest) = true.
Proof.
  induction p as [|c p IH].
  - now destruct rest.
  - change (String c p +:+ rest) with (String c (p +:+ rest)). cbn.
    destruct (ascii_dec c c); [exact IH | contradiction].
Qed.

Lemma slashes_app (a b : string) : slashes (a +:+ b) = slashes a +:+ slashes b.
Proof.
  induction a as [|c a IH]; [reflexivity|].
  change (String c a +:+ b) with (String c (a +:+ b)). cbn [slashes]. now rewrite IH.
Qed.

Lemma isProtected_directory (d rest : string) :
  In d ["assets/"; ".git/"; "node_modules/"] -> isProtected (d +:+ rest) = true.
Proof.
  intros Hd. unfold isProtected.
  assert (E : String.eqb (d +:+ rest) "" = false).
  { cbn in Hd. destruct Hd as [<-|[<-|[<-|[]]]]; reflexivity. }
  rewrite E. apply existsb_exists. exists d. split.
  - cbn in Hd |- *. tauto.
  - rewrite slashes_app. unfold protects, startsWith.
    assert (Es : slashes d = d /\ endsWith d "/" = true).
    { cbn in Hd. destruct Hd as [<-|[<-|[<-|[]]]]; split; reflexivity. }
    destruct Es as [-> ->]. now rewrite prefix_app.
Qed.

(** X25: rollback runs git checkout on changed files only and unlinks new files
    only, and never a protected one: a protected new file is skipped and
    makes the rollback unsuccessful.  The rollback succeeds exactly when
    every changed file was restored and every new file deleted.
    Everything at or below assets/, .git/ and node_modules/ is protected. *)
Theorem rollback_protects (s : state) (changedFiles newFiles : list string) :
  let '(r, done, _) := rollback state git_checkout unlinkSync s changedFiles newFiles in
  (forall f, In (Unlink f) done -> In f newFiles /\ isProtected f = false) /\
  (forall f, In (GitCheckout f) done -> In f changedFiles) /\
  (forall f, In f (deleted r) -> In f newFiles /\ isProtected f = false) /\
  (success r = true <-> restored r = changedFiles /\ deleted r = newFiles) /\
  ((exists f, In f newFiles /\ isProtected f = true) -> success r = false) /\
  (forall rest, isProtected ("assets/" +:+ rest) = true /\
                isProtected (".git/" +:+ rest) = true /\
                isProtected ("node_modules/" +:+ rest) = true).
Proof.
  unfold rollback.
  pose proof (restoreLoop_inv changedFiles [] (s, [], [], [])) as H1.
  destruct (fold_left (restoreStep state git_checkout) changedFiles (s, [], [], []))
    as [[[s1 done1] restored1] errors1].
  cbn [app] in H1. destruct H1 as (Ha1 & Hl1 & He1).
  { cbn. repeat split; auto. intros a []. }
  pose proof (deleteLoop_inv done1 errors1 newFiles [] (s1, done1, [], errors1)) as H2.
  destruct (fold_left (deleteStep state unlinkSync) newFiles (s1, done1, [], errors1))
    as [[[s2 done2] deleted2] errors2].
  cbn [app] in H2. destruct H2 as (Ha2 & Hd2 & Hl2 & Hle2 & He2 & Hp2).
  { cbn. repeat split; auto; try lia. intros (f & [] & _). }
  cbn [success restored deleted]. repeat split.
  - destruct (Ha2 _ H) as [Hin|(f0 & E & Hf0 & _)]; [|now inversion E; subst].
    destruct (Ha1 _ Hin) as (f0 & E & _). discriminate.
  - destruct (Ha2 _ H) as [Hin|(f0 & E & _ & Hpf)]; [|now inversion E; subst].
    destruct (Ha1 _ Hin) as (f0 & E & _). discriminate.
  - intros f Hin. destruct (Ha2 _ Hin) as [Hin1|(f0 & E & _)]; [|discriminate].
    destruct (Ha1 _ Hin1) as (f0 & E & Hf0). now inversion E; subst.
  - now apply Hd2.
  - now apply Hd2.
  - apply Nat.eqb_eq in H. apply He1. destruct errors1; [reflexivity | cbn in *; lia].
  - apply Nat.eqb_eq in H. apply He2. lia.
  - intros [Hr Hd]. apply Nat.eqb_eq. subst restored1 deleted2. lia.
  - intros Hx. apply Nat.eqb_neq. specialize (Hp2 Hx). lia.
  - apply isProtected_directory. cbn. tauto.
  - apply isProtected_directory. cbn. tauto.
  - apply isProtected_directory. cbn. tauto.
Qed.

End RollbackProps.

Section RollbackExample.
Import JS Rollback.

Lemma rollback_protects_witness :
  success (fst (fst (rollback unit (fun _ _ => (tt, None)) (fun _ _ => (tt, None)) tt
                       ["src/a.js"] ["src/b.js"; "assets/genes.json"]))) = false.
Proof.
  pose proof (rollback_protects unit (fun _ _ => (tt, None)) (fun _ _ => (tt, None)) tt
                ["src/a.js"] ["src/b.js"; "assets/genes.json"]) as H.
  destruct (rollback unit _ _ tt ["src/a.js"] ["src/b.js"; "assets/genes.json"])
    as [[r done] s'].
  destruct H as (_ & _ & _ & _ & H & _). apply H.
  exists "assets/genes.json". split; [right; now left | reflexivity].
Defined.

End RollbackExample.

(** ** Properties of src/strategy.js *)

Section StrategyProps.
Import JS Mutation Signals MutationOps Strategy.
Local Open Scope Q_scope.

Lemma autoDetectStrategy_names (events : list historyEvent) :
  In (autoDetectStrategy events)
     ["early-stabilize"; "innovate"; "repair-only"; "harden"; "balanced"].
Proof.
  unfold autoDetectStrategy. cbn zeta.
  destruct (_ <? 5)%nat; [cbn; tauto|].
  destruct (forallb _ _); [cbn; tauto|].
  destruct (_ && _); [cbn; tauto|].
  destruct (_ && _); cbn; tauto.
Qed.

Lemma filter_length_bound {A : Type} (f : A -> bool) (l : list A) :
  (length (List.filter f l) <= length l)%nat.
Proof. induction l as [|a l IH]; cbn; [lia|]. destruct (f a); cbn; lia. Qed.

Lemma no_failure_ratio (l : list historyEvent) (bound : Q) :
  0 <= bound -> List.filter solidifyFailed l = [] ->
  Qgt_bool (inject_Z (Z.of_nat (length (List.filter solidifyFailed l))) /
            inject_Z (Z.of_nat (length l))) bound = false.
Proof.
  intros Hb E. rewrite E. cbn [length Z.of_nat]. unfold Qgt_bool.
  apply negb_false_iff, Qle_bool_iff. unfold Qdiv. rewrite Qmult_0_l. exact Hb.
Qed.

Lemma allowance_short exceeds category strategyWeights weight (recent : list mutation) :
  strategyWeights category = Num weight -> Qeq_bool weight 0 = false ->
  (length recent < 10)%nat ->
  checkStrategyAllowance exceeds category strategyWeights recent = Allowed.
Proof.
  intros Hw Hz Hlen. unfold checkStrategyAllowance. rewrite Hw, Hz.
  replace (10 <=? length recent)%nat with false by (symmetry; apply Nat.leb_gt; lia).
  reflexivity.
Qed.

(** X26: The strategy autoDetectStrategy names is always one getStrategy knows:
    the lookup never throws, and the three weights of the configuration
    add up to 100 with a repair weight that is not zero, so that
    checkStrategyAllowance never refuses a repair while fewer than ten
    mutations are on record.  A history of fewer than five events gives
    'early-stabilize'; 'repair-only' and 'harden' are only named when one
    of the last ten events records a failed solidify. *)
Theorem autoDetectStrategy_known (events : list historyEvent) :
  (exists config,
     getStrategy (autoDetectStrategy events) = Returned config /\
     innovate config + optimize config + repair config == 100 /\
     forall exceeds recent, (length recent < 10)%nat ->
       checkStrategyAllowance exceeds "repair" (weightsOf config) recent = Allowed) /\
  ((length events < 5)%nat -> autoDetectStrategy events = "early-stabilize") /\
  (autoDetectStrategy events = "repair-only" \/ autoDetectStrategy events = "harden" ->
   exists e, In e (lastN 10 events) /\ ev_solidify_failed e = Some true).
Proof.
  split; [|split].
  - pose proof (autoDetectStrategy_names events) as H. cbn [In] in H.
    destruct H as [<-|[<-|[<-|[<-|[<-|[]]]]]];
      (eexists; split; [reflexivity|]; split; [reflexivity|]);
      intros exceeds recent Hlen;
      (eapply allowance_short; [reflexivity | reflexivity | exact Hlen]).
  - intros Hlen. unfold autoDetectStrategy. cbn zeta.
    pose proof (filter_length_bound isCycleEvent events) as Hle.
    destruct (Nat.eqb_spec (length (List.filter isCycleEvent events)) 0).
    + destruct (Nat.ltb_spec (length events) 5); [reflexivity | lia].
    + destruct (Nat.ltb_spec (length (List.filter isCycleEvent events)) 5); [reflexivity | lia].
  - intros H.
    destruct (List.filter solidifyFailed (List.filter isSolidifyAttempt (lastN 10 events)))
      as [|e l] eqn:E.
    + exfalso. revert H. unfold autoDetectStrategy. cbn zeta.
      rewrite !no_failure_ratio by (assumption || discriminate).
      rewrite !andb_false_r.
      destruct (_ <? 5)%nat; [intros [|]; discriminate|].
      destruct (forallb _ _); intros [|]; discriminate.
    + assert (Hin : In e (List.filter solidifyFailed
                            (List.filter isSolidifyAttempt (lastN 10 events))))
        by (rewrite E; now left).
      apply filter_In in Hin. destruct Hin as [Hin Hf].
      apply filter_In in Hin. destruct Hin as [Hin _].
      exists e. split; [exact Hin|]. unfold solidifyFailed in Hf.
      destruct (ev_solidify_failed e) as [[|]|]; congruence.
Qed.

Lemma autoDetectStrategy_known_witness :
  autoDetectStrategy [] = "early-stabilize".
Proof.
  apply (proj1 (proj2 (autoDetectStrategy_known []))). cbn. lia.
Defined.

End StrategyProps.

(** ** Properties of parseJSONL (src/core/signals.js) against readJSONL (src/gep/store.js) *)

Section SessionLogProps.
Import JS Store SessionLog.

Lemma parseLines_omap parse (ls : list string) (vs : list json) :
  parseLines parse ls = Returned vs -> omap parse ls = vs.
Proof.
  revert vs. induction ls as [|l ls IH]; cbn; intros vs H.
  - now inversion H.
  - destruct (parse l) as [v|]; [|discriminate].
    destruct (parseLines parse ls) as [vs'|e|] eqn:E; try discriminate.
    cbn in H. inversion H; subst. now rewrite (IH vs' eq_refl).
Qed.

Lemma trim_empty_content (content : string) : content = "" -> trim content = "".
Proof. now intros ->. Qed.

(** X27: parseJSONL never throws.  On the content of a file that the store's
    readJSONL reads without error it returns the same entries, less the
    falsy ones (null, false, 0, the empty string); where readJSONL throws
    on a bad line, parseJSONL still returns the entries of the lines that
    parse.  Every entry it returns is truthy and is the parse of a
    non-empty line of the trimmed content. *)
Theorem parseJSONL_lenient (JSON_parse : string -> option json)
    (fs : gmap string string) (filename content : string) :
  fs !! filename = Some content ->
  (forall entries, readJSONL JSON_parse fs filename = Returned entries ->
     parseJSONL JSON_parse content = List.filter truthyJson entries) /\
  (forall v, In v (parseJSONL JSON_parse content) ->
     truthyJson v = true /\
     exists line, In line (splitOn is_newline (trim content)) /\ line <> "" /\
                  JSON_parse line = Some v).
Proof.
  intros Hfile. split.
  - intros entries. unfold readJSONL, parseJSONL. rewrite Hfile. cbn zeta.
    destruct (String.eqb_spec (trim content) "") as [E|E].
    + rewrite orb_true_r. intros H. now inversion H.
    + destruct (String.eqb_spec content "") as [E0|E0];
        [now rewrite (trim_empty_content _ E0) in E|].
      cbn [orb]. intros H. now rewrite (parseLines_omap _ _ _ H).
  - intros v. unfold parseJSONL.
    destruct (String.eqb content "" || String.eqb (trim content) ""); [intros []|].
    intros Hin. apply filter_In in Hin. destruct Hin as [Hin Ht]. split; [exact Ht|].
    apply list_elem_of_In, list_elem_of_omap in Hin. destruct Hin as (line & Hl & Hp).
    apply list_elem_of_In in Hl. unfold filterNonEmpty in Hl. apply filter_In in Hl.
    destruct Hl as [Hl Hne]. exists line. repeat split; auto.
    intros ->. discriminate.
Qed.

Lemma parseJSONL_lenient_witness :
  parseJSONL parse_empty_only "{}" = List.filter truthyJson [JObject []].
Proof.
  apply (proj1 (parseJSONL_lenient parse_empty_only (<["events.jsonl" := "{}"]> ∅)
                  "events.jsonl" "{}" (lookup_insert_eq _ _ _))).
  vm_compute. reflexivity.
Defined.

End SessionLogProps.

(** ** Properties of createGene and validateGene (src/gep/gene.js) *)

Section GeneOpsProps.
Import JS Gep Gene GeneOps.

Lemma createGene_returns uuid8 now (p : params) (g : geneObject) :
  createGene uuid8 now p = Returned g ->
  type g = "Gene" /\ gene_id (body g) <> "" /\
  p_category p = Some (category (body g)) /\ In (category (body g)) CATEGORIES /\
  p_signals_match p = Some (signals_match (body g)) /\ signals_match (body g) <> [] /\
  p_strategy p = Some (strategy (body g)) /\ strategy (body g) <> [].
Proof.
  unfold createGene. destruct (p_category p) as [c|]; [|discriminate].
  destruct (String.eqb c ""); [discriminate|]. cbn [orb].
  destruct (Set_has c CATEGORIES) eqn:Ec; [|discriminate]. cbn [negb].
  destruct (p_signals_match p) as [[|s ss]|]; try discriminate.
  destruct (p_strategy p) as [[|t ts]|]; try discriminate.
  intros H; inversion H; subst g; clear H. cbn.
  repeat split; auto; try discriminate.
  - unfold orNull. destruct (p_id p) as [i|]; [|discriminate].
    destruct (String.eqb_spec i ""); [discriminate | assumption].
  - apply Set_has_In in Ec. exact Ec.
Qed.

(** X28: createGene returns exactly when the category is one of repair,
    optimize, innovate and both the signal list and the strategy list are
    non-empty arrays.  The gene it returns passes validateGene with no
    error, always has a non-empty id (the given one, or a generated one),
    and scores 1 against its own signals. *)
Theorem createGene_validates (uuid8 now : string) (p : params) :
  ((exists g, createGene uuid8 now p = Returned g) <->
   (exists c, p_category p = Some c /\ In c CATEGORIES) /\
   (exists s ss, p_signals_match p = Some (s :: ss)) /\
   (exists t ts, p_strategy p = Some (t :: ts))) /\
  (forall g, createGene uuid8 now p = Returned g ->
     validateGene g = [] /\ gene_id (body g) <> "" /\
     (matchScore (body g) (signals_match (body g)) == 1)%Q).
Proof.
  split; [split|].
  - intros [g H]. apply createGene_returns in H.
    destruct H as (_ & _ & Hc & Hin & Hs & Hsne & Ht & Htne).
    split; [eauto|]. split.
    + destruct (signals_match (body g)) as [|s ss]; [contradiction | eauto].
    + destruct (strategy (body g)) as [|t ts]; [contradiction | eauto].
  - intros ((c & Hc & Hin) & (s & ss & Hs) & (t & ts & Ht)).
    unfold createGene. rewrite Hc, Hs, Ht.
    assert (Ec : String.eqb c "" = false).
    { cbn in Hin. destruct Hin as [<-|[<-|[<-|[]]]]; reflexivity. }
    apply Set_has_In in Hin. rewrite Ec, Hin. cbn. eauto.
  - intros g H. apply createGene_returns in H.
    destruct H as (Hty & Hid & _ & Hin & _ & Hsne & _ & Htne).
    split; [|split; [exact Hid|]].
    + unfold validateGene. rewrite Hty. cbn [String.eqb].
      destruct (String.eqb_spec (gene_id (body g)) ""); [contradiction|].
      apply Set_has_In in Hin. rewrite Hin.
      destruct (signals_match (body g)); [contradiction|].
      destruct (strategy (body g)); [contradiction|]. reflexivity.
    + unfold matchScore. destruct (signals_match (body g)) as [|s required]; [contradiction|].
      rewrite (matched_all (s :: required) (s :: required) (fun _ H => H) 0).
      pose proof (length_pos_Q s required) as Hpos.
      field. lra.
Qed.

Lemma createGene_validates_witness :
  exists g, createGene "0a1b2c3d" "t0"
              {| p_id := None; p_category := Some "repair";
                 p_signals_match := Some ["log_error"]; p_preconditions := None;
                 p_strategy := Some ["Fix the error"]; p_max_files := None;
                 p_forbidden_paths := None; p_validation := None;
                 p_capability_node_id := None; p_v_score := None |} = Returned g.
Proof.
  apply (proj1 (createGene_validates "0a1b2c3d" "t0" _)).
  split; [exists "repair"; split; [reflexivity | now left]|].
  split; [exists "log_error", []; reflexivity | exists "Fix the error", []; reflexivity].
Defined.

End GeneOpsProps.

(** ** Properties of src/personality.js *)

Section PersonalityProps.
Import JS Personality.
Local Open Scope Q_scope.

Lemma Qmin_one_range x : 0 <= x -> 0 <= Qmin 1 x <= 1.
Proof.
  intros H. pose proof (Q.min_spec 1 x) as [[? ?]|[? ?]]; lra.
Qed.

Lemma Qmax_zero_range x : x <= 1 -> 0 <= Qmax 0 x <= 1.
Proof.
  intros H. pose proof (Q.max_spec 0 x) as [[? ?]|[? ?]]; lra.
Qed.

Lemma Qmin_one_twice x d : 0 <= x -> 0 <= d -> 0 <= Qmin 1 (Qmin 1 x + d) <= 1.
Proof.
  intros Hx Hd. pose proof (Qmin_one_range x Hx). apply Qmin_one_range. lra.
Qed.

Lemma Qmin_one_after_max x d : x <= 1 -> 0 <= d -> 0 <= Qmin 1 (Qmax 0 x + d) <= 1.
Proof.
  intros Hx Hd. pose proof (Qmax_zero_range x Hx). apply Qmin_one_range. lra.
Qed.

Ltac unit_range :=
  first [ assumption
        | apply Qmin_one_range; lra
        | apply Qmax_zero_range; lra
        | apply Qmin_one_twice; lra
        | apply Qmin_one_after_max; lra ].

(** X29: updatePersonality keeps confidence and risk appetite within [0,1] and
    always leaves one of the five moods.  After a success the suggestion
    drawn from the updated personality never prefers repair; after a
    failure with no streak of three it never prefers innovate; and no
    suggestion ever prefers a category other than innovate or repair. *)
Theorem updatePersonality_bounds (now : string) (p : personality) (fb : feedback) :
  0 <= confidence p <= 1 -> 0 <= risk_appetite p <= 1 ->
  let p' := updatePersonality now p fb in
  0 <= confidence p' <= 1 /\ 0 <= risk_appetite p' <= 1 /\
  In (mood p') MOODS /\
  (fb_success fb = true -> fst (suggestFromPersonality p') <> Some "repair") /\
  (fb_success fb = false ->
   match fb_streak fb with Some streak => (streak < 3)%Z | None => True end ->
   fst (suggestFromPersonality p') <> Some "innovate") /\
  In (fst (suggestFromPersonality p')) [None; Some "innovate"; Some "repair"].
Proof.
  intros Hc Hr. cbn zeta.
  assert (Hsug : forall q, In (fst (suggestFromPersonality q)) [None; Some "innovate"; Some "repair"]).
  { intros q. unfold suggestFromPersonality.
    destruct (_ && _); [cbn; tauto|]. destruct (_ && _); [cbn; tauto|].
    destruct (_ && _); cbn; tauto. }
  assert (Hmood : forall q, mood q <> "cautious" ->
                            fst (suggestFromPersonality q) <> Some "repair").
  { intros q Hm. unfold suggestFromPersonality.
    destruct (_ && _); [discriminate|].
    destruct (String.eqb_spec (mood q) "cautious"); [contradiction|]. cbn [andb].
    destruct (_ && _); discriminate. }
  assert (Hcaut : forall q, mood q = "cautious" ->
                            fst (suggestFromPersonality q) <> Some "innovate").
  { intros q Hm. unfold suggestFromPersonality. rewrite Hm.
    destruct (Qlt_bool (confidence q) (3 # 10)); cbn; discriminate. }
  unfold updatePersonality.
  destruct (fb_success fb) eqn:Es.
  - destruct (match fb_category fb with Some c => String.eqb c "innovate" | None => false end);
      destruct (fb_streak fb) as [streak|]; cbn [andb negb];
      rewrite ?andb_false_r, ?andb_true_r;
      try destruct (5 <=? streak)%Z;
      cbn [mood confidence risk_appetite];
      (split; [unit_range|]); (split; [unit_range|]);
      (split; [cbn; tauto|]);
      (split; [intros _; apply Hmood; cbn; discriminate|]);
      (split; [discriminate | apply Hsug]).
  - destruct (fb_streak fb) as [streak|]; cbn [andb negb];
      rewrite ?andb_false_r, ?andb_true_r;
      try destruct (Z.leb_spec 3 streak);
      cbn [mood confidence risk_appetite];
      (split; [unit_range|]); (split; [unit_range|]);
      (split; [cbn; tauto|]);
      (split; [discriminate|]);
      (split; [|apply Hsug]);
      intros _ Hst; try lia; apply Hcaut; reflexivity.
Qed.

Lemma updatePersonality_bounds_witness :
  In (mood (updatePersonality "t1"
              {| mood := "curious"; confidence := 1 # 2; risk_appetite := 1 # 2;
                 focus_area := None; last_updated := "t0" |}
              {| fb_success := true; fb_category := Some "repair"; fb_streak := None |}))
     MOODS.
Proof.
  apply (updatePersonality_bounds "t1" _ _); split; discriminate.
Defined.

End PersonalityProps.

(** ** Properties of mergeNodes (src/tree/capability_tree.js) *)

Section TreeMergeProps.
Import JS Node CapabilityTree TreeMerge.
















(** An id named like a member of Object.prototype passes the test for a
    stored node, and mergeNodes goes on with the properties of that
    member. *)
Example mergeNodes_member_id :
  read "toString" testTree = Member /\
  mergeNodes "toString" "cap.a" testTree = Outside /\
  mergeNodes "cap.zzz" "cap.a" testTree = Thrown "Node not found: cap.zzz".
Proof. repeat split. Qed.

End TreeMergeProps.
